(** * Nansat: virtual raster composition and band resolution

    A shallow embedding of [nansat.py] (class [Nansat]): the band resolver
    [_get_band_number], the constructor, [add_band], [resize], [reproject],
    [export] up to the call of the netCDF driver, [mosaic], and the
    accessors [get_GDALRasterBand], [get_metadata], [bands], [set_metadata]
    and [get_time].

    Conventions.
    - Python objects that are mutated in place ([VRT] objects) live in a heap
      and are referred to by handles; [self.raw] and [self.vrt] are handles.
    - A method is a function in the monad [M]: it threads the world (heap,
      fields of [self]), writes log records and may raise.  What was written
      before a raise stays written, as in Python.
    - numpy float arrays are total functions from pixel coordinates to exact
      rationals together with a shape; floating-point rounding, NaN and
      infinities are not modelled.  Division by zero, which numpy answers
      with NaN or an infinity, gives 0 here; the statements about quotients
      are restricted to pixels where the divisor is not zero.
    - The classes [VRT], [Domain] and [Node] and the GDAL bindings are not in
      [nansat.py]; what the methods need from them is modelled from the
      specification and marked as such. *)

From Stdlib Require Import ZArith QArith Qround Qminmax Qfield Lia Ascii.
From Stdlib Require Import PrimFloat.
From stdpp Require Import base option list gmap strings pretty.

Local Open Scope Z_scope.

(** ** Exceptions *)

Inductive Error : Type :=
| OptionError (msg : string)
| KeyError (key : string)
| ZeroDivisionError
| AttributeError (what : string)
| ValueError (what : string)
| TypeError (what : string)
| ProjectionError (what : string).

(** [Error + A]: a computation that returns or raises. *)
#[global] Instance exc_ret : MRet (sum Error) := λ A a, inr a.
#[global] Instance exc_bind : MBind (sum Error) := λ A B k m,
  match m with inl e => inl e | inr a => k a end.

(** ** Data model *)

Inductive LogLevel := DEBUG | INFO | WARNING | ERROR.

(** A numpy 2-D array: [shape] is (rows, columns), [px i j] the element. *)
Record ndarray := mkArray { shape : Z * Z; px : Z → Z → Q }.

Record GCP := mkGCP {
  gcpId : string; gcpPixel : Q; gcpLine : Q; gcpX : Q; gcpY : Q; gcpZ : Q }.

(** The source element of a [VRTRasterBand] node. *)
Inductive SourceTag := ComplexSource | SimpleSource | AveragedSource.

Record Band := mkBand {
  dataType : string;
  sourceTag : SourceTag;
  srcFilename : string;
  srcBand : Z;
  bandMeta : gmap string string }.

(** The geolocation arrays of a tree ([geoloc.d]), when it has them. *)
Record GeolocationArray := mkGeoloc {
  X_DATASET : string; X_BAND : Z; Y_DATASET : string; Y_BAND : Z }.

Record VRT := mkVRT {
  fileName : string;
  rasterXSize : Z;
  rasterYSize : Z;
  projection : string;
  geoTransform : list Q;
  gcps : list GCP;
  gcpProjection : string;
  vrtBands : list Band;
  vrtMeta : gmap string string;
  geoloc : option GeolocationArray;
  payload : option ndarray }.

Definition with_fileName (s : string) (v : VRT) : VRT :=
  mkVRT s (rasterXSize v) (rasterYSize v) (projection v) (geoTransform v)
    (gcps v) (gcpProjection v) (vrtBands v) (vrtMeta v) (geoloc v) (payload v).

Definition with_bands (bs : list Band) (v : VRT) : VRT :=
  mkVRT (fileName v) (rasterXSize v) (rasterYSize v) (projection v)
    (geoTransform v) (gcps v) (gcpProjection v) bs (vrtMeta v) (geoloc v)
    (payload v).

Definition with_size (x y : Z) (v : VRT) : VRT :=
  mkVRT (fileName v) x y (projection v) (geoTransform v) (gcps v)
    (gcpProjection v) (vrtBands v) (vrtMeta v) (geoloc v) (payload v).

Definition with_gcps (g : list GCP) (v : VRT) : VRT :=
  mkVRT (fileName v) (rasterXSize v) (rasterYSize v) (projection v)
    (geoTransform v) g (gcpProjection v) (vrtBands v) (vrtMeta v) (geoloc v)
    (payload v).

Definition with_vrtMeta (m : gmap string string) (v : VRT) : VRT :=
  mkVRT (fileName v) (rasterXSize v) (rasterYSize v) (projection v)
    (geoTransform v) (gcps v) (gcpProjection v) (vrtBands v) m (geoloc v)
    (payload v).

Definition with_bandMeta (m : gmap string string) (b : Band) : Band :=
  mkBand (dataType b) (sourceTag b) (srcFilename b) (srcBand b) m.

Definition with_dataType (t : string) (b : Band) : Band :=
  mkBand t (sourceTag b) (srcFilename b) (srcBand b) (bandMeta b).

Definition with_sourceTag (t : SourceTag) (b : Band) : Band :=
  mkBand (dataType b) t (srcFilename b) (srcBand b) (bandMeta b).

(** [dataset.RasterCount] *)
Definition RasterCount (v : VRT) : Z := Z.of_nat (length (vrtBands v)).

Abbreviation handle := nat.

(** The fields of a [Nansat] object that the methods below read or assign.
    [addedBands] is the dict that keeps the VRT of every added band alive. *)
Record Nansat := mkNansat {
  raw : handle;
  vrt : handle;
  addedBands : gmap string handle }.

Record World := mkWorld {
  heap : list VRT;
  self : Nansat }.

(** ** The method monad

    A method reads and writes the world, writes to the logger and returns or
    raises.  The logger is written, never read. *)

Definition M (A : Type) : Type :=
  World → World * list (LogLevel * string) * (Error + A).

#[global] Instance M_ret : MRet M := λ A a w, (w, [], inr a).
#[global] Instance M_bind : MBind M := λ A B k m w,
  match m w with
  | (w', l, inr a) => match k a w' with (w'', l', r) => (w'', l ++ l', r) end
  | (w', l, inl e) => (w', l, inl e)
  end.

Definition raise {A} (e : Error) : M A := λ w, (w, [], inl e).

Definition lift {A} (r : Error + A) : M A := λ w, (w, [], r).

Definition get_self : M Nansat := λ w, (w, [], inr (self w)).

Definition set_vrt (h : handle) : M unit := λ w,
  (mkWorld (heap w) (mkNansat (raw (self w)) h (addedBands (self w))),
   [], inr tt).

Definition set_addedBands (k : string) (h : handle) : M unit := λ w,
  (mkWorld (heap w)
     (mkNansat (raw (self w)) (vrt (self w)) (<[k:=h]> (addedBands (self w)))),
   [], inr tt).

Definition logger (l : LogLevel) (msg : string) : M unit := λ w,
  (w, [(l, msg)], inr tt).

(** Following a reference.  A handle held by a live object is never dangling;
    the error branch stands for attribute access on [None]. *)
Definition deref (h : handle) : M VRT := λ w,
  match heap w !! h with
  | Some v => (w, [], inr v)
  | None => (w, [], inl (AttributeError "NoneType"))
  end.

(** In-place mutation of the object behind [h]. *)
Definition store (h : handle) (v : VRT) : M unit := λ w,
  (mkWorld (<[h:=v]> (heap w)) (self w), [], inr tt).

(** The name of the in-memory file of the VRT object with handle [h];
    every VRT object has its own. *)
Definition vsi_name (h : handle) : string := "/vsimem/" +:+ pretty h +:+ ".vrt".

(** A new VRT object: a fresh handle and a file name of its own. *)
Definition alloc (v : VRT) : M handle := λ w,
  let h := length (heap w) in
  (mkWorld (heap w ++ [with_fileName (vsi_name h) v]) (self w), [], inr h).

(** ** External collaborators

    The raster engine (GDAL), the mapper dispatch and the other [Nansat]
    objects that [add_band] and [mosaic] create and use locally.  Nothing is
    assumed about them: every statement below holds for all of them. *)

Class Engine := {
  (** GDAL data type of band [n] of the dataset stored under a file name *)
  band_dataType : string → Z → string;
  (** GDAL data type chosen for an in-memory array *)
  array_dataType : ndarray → string;
  (** [VRT.create_warped_vrt(dstSRS, dstGCPs, resamplingAlg, xSize, ySize,
      geoTransform)] on the raw tree: the warped tree, or an exception *)
  create_warped_vrt :
    VRT → string → list GCP → Z → Z → Z → list Q → Error + VRT;
  (** [VRT.resized(xSize, ySize, resamplingAlg)] of an array-backed VRT:
      the resampled pixels *)
  resized : ndarray → Z → Z → Z → ndarray;
  (** [Nansat._get_mapper(mapperName)] for a file name: the tree built by
      the first mapper that fits or by the generic fallback, [None] when the
      file cannot be opened *)
  _get_mapper : string → string → option VRT;
  (** [VRT._add_gcp_metadata]: the global metadata with the GCPs added *)
  _add_gcp_metadata : VRT → gmap string string;
  (** [str] of a geotransform tuple *)
  str_geoTransform : list Q → string;
  (** another [Nansat] object, local to one call *)
  Obj : Type;
  (** [Nansat(fileName)] *)
  Nansat_open : string → Error + Obj;
  (** [nClass(f, logLevel=...)] of [mosaic] *)
  nClass : string → Error + Obj;
  (** [n.vrt] *)
  obj_vrt : Obj → VRT;
  (** [n.shape()] *)
  obj_shape : Obj → Z * Z;
  (** [n[b]] *)
  obj_getitem : Obj → string → Error + ndarray;
  (** [n.reproject(dst)] with the default resampling; [dst] is given by the
      working tree of the destination *)
  obj_reproject : Obj → VRT → Error + Obj;
  (** [n.add_band(a, parameters=p)]: the array is passed in first position *)
  obj_add_band_positional : Obj → ndarray → gmap string string → Error + Obj }.

(** ** The VRT class, as far as [Nansat] uses it *)

(** Modelled from the spec: [VRT.copy] is missing from the sources.  A tree
    is copied as a structural clone with a new identity. *)
Definition copy (h : handle) : M handle :=
  v ← deref h; alloc v.

(** Modelled from the spec: the constructor [VRT(gdalDataset=ds)] is missing
    from the sources.  It gives a new empty tree that shares the geometry of
    the dataset it is built from. *)
Definition VRT_from_dataset (v : VRT) (g : option GeolocationArray) : VRT :=
  mkVRT "" (rasterXSize v) (rasterYSize v) (projection v) (geoTransform v)
    (gcps v) (gcpProjection v) [] (vrtMeta v) g None.

(** Modelled from the spec: the constructor [VRT(array=a)] is missing from
    the sources.  It wraps a single in-memory array at its native shape. *)
Definition VRT_from_array `{Engine} (a : ndarray) : VRT :=
  mkVRT "" (shape a).2 (shape a).1 "" [] [] ""
    [mkBand (array_dataType a) SimpleSource "" 1 ∅] ∅ None (Some a).

(** The [src] dict of [_create_band]. *)
Record Src := mkSrc { SourceFilename : string; SourceBand : Z }.

(** Modelled from the spec: the descriptor that [VRT._create_band(src, dst)]
    builds.  It references the source band and carries the metadata [dst];
    the band metadata also carries the [SourceFilename]/[SourceBand] pair,
    which [export] strips again.  The element type is the one of the source
    band. *)
Definition new_band `{Engine} (src : Src) (dst : gmap string string) : Band :=
  mkBand (band_dataType (SourceFilename src) (SourceBand src)) ComplexSource
    (SourceFilename src) (SourceBand src)
    (<["SourceFilename" := SourceFilename src]>
       (<["SourceBand" := pretty (SourceBand src)]> dst)).

(** Modelled from the spec: [VRT._create_band(src, dst)] is missing from the
    sources.  It appends exactly one descriptor to the tree, in place, and
    returns the name of the added band. *)
Definition _create_band `{Engine} (h : handle) (src : Src)
    (dst : gmap string string) : M string :=
  v ← deref h;
  _ ← store h (with_bands (vrtBands v ++ [new_band src dst]) v);
  mret (default "" (dst !! "BandName")).

(** Modelled from the spec: [Domain.shape] is missing from the sources.  The
    shape of an object is (height, width) of its working tree. *)
Definition shape_of (v : VRT) : Z * Z := (rasterYSize v, rasterXSize v).

(** ** Band resolver *)

(** A band identifier is a number or a name. *)
Inductive BandID := BInt (n : Z) | BStr (s : string).

(** [str(bandID)] *)
Definition str_BandID (b : BandID) : string :=
  match b with BInt n => pretty n | BStr s => s end.

(** [GetRasterBand(n)] for a 1-based band number. *)
Definition GetRasterBand (v : VRT) (n : Z) : option Band :=
  if 1 <=? n then vrtBands v !! Z.to_nat (n - 1) else None.

(** [Nansat.bands]: band number ↦ band metadata, for every band of the
    working tree, in the order in which the dict is walked. *)
Fixpoint bands_from (b : Z) (l : list Band) : list (Z * gmap string string) :=
  match l with
  | [] => []
  | x :: l' => (b, bandMeta x) :: bands_from (b + 1) l'
  end.

Definition bands (v : VRT) : list (Z * gmap string string) :=
  bands_from 1 (vrtBands v).

(** The loop of [_get_band_number] over the bands dict: there is no [break],
    and [bandsMeta[b]['BandName']] is a plain subscript. *)
Fixpoint scan_names (bandID : string) (bandsMeta : list (Z * gmap string string))
    (bandNumber : Z) : Error + Z :=
  match bandsMeta with
  | [] => inr bandNumber
  | (b, m) :: rest =>
      match m !! "BandName" with
      | None => inl (KeyError "BandName")
      | Some name =>
          scan_names bandID rest (if String.eqb bandID name then b else bandNumber)
      end
  end.

(** [_get_band_number] on a given working tree. *)
Definition band_number_of (v : VRT) (bandID : BandID) : Error + Z :=
  bandNumber ← match bandID with
               | BStr s => scan_names s (bands v) 0
               | BInt n =>
                   mret (if (1 <=? n) && (n <=? RasterCount v) then n else 0)
               end;
  if bandNumber =? 0
  then inl (OptionError ("Cannot find band " +:+ str_BandID bandID +:+
                         "! bandNumber is from 1 to " +:+ pretty (RasterCount v)))
  else inr bandNumber.

Definition _get_band_number (bandID : BandID) : M Z :=
  s ← get_self; v ← deref (vrt s); lift (band_number_of v bandID).

(** [get_metadata(bandID=...)] on a given working tree. *)
Definition band_metadata_of (v : VRT) (bandID : BandID)
    : Error + gmap string string :=
  n ← band_number_of v bandID;
  match GetRasterBand v n with
  | Some b => inr (bandMeta b)
  | None => inl (AttributeError "NoneType")
  end.

(** ** Loops and dicts *)

(** [for x in l: s = body(s, x)] *)
Fixpoint foldM {A S} (body : S → A → M S) (l : list A) (s : S) : M S :=
  match l with
  | [] => mret s
  | x :: l' => s' ← body s x; foldM body l' s'
  end.

(** [for k in q: p[k] = q[k]] *)
Definition dict_update (p q : gmap string string) : gmap string string := q ∪ p.

(** [d.pop(k)] without a default *)
Definition dict_pop (k : string) (d : gmap string string)
    : Error + gmap string string :=
  match d !! k with
  | Some _ => inr (delete k d)
  | None => inl (KeyError k)
  end.

(** ** add_band *)

Definition add_band `{Engine} (fileName_ : option string) (vrt_ : option handle)
    (bandID : BandID) (array : option ndarray)
    (parameters : option (gmap string string)) (resamplingAlg : Z) : M unit :=
  let parameters := default ∅ parameters in
  (* get band from input file name *)
  st ← match fileName_ with
       | Some f =>
           n ← lift (Nansat_open f);
           s ← get_self; wv ← deref (vrt s);
           n ← lift (obj_reproject n wv);
           h ← alloc (obj_vrt n);
           bandNumber ← lift (band_number_of (obj_vrt n) bandID);
           p2add ← lift (band_metadata_of (obj_vrt n) bandID);
           mret (Some (h, bandNumber), p2add)
       | None => mret (None, ∅)
       end;
  (* get band from input VRT *)
  st ← match vrt_ with
       | Some hv =>
           v ← deref hv;
           match bandID with
           | BInt n =>
               match GetRasterBand v n with
               | Some b => mret (Some (hv, n), bandMeta b)
               | None => raise (AttributeError "NoneType")
               end
           | BStr _ => raise (TypeError "GetRasterBand")
           end
       | None => mret st
       end;
  (* get band from input array *)
  st ← match array with
       | Some a =>
           s ← get_self; wv ← deref (vrt s);
           h ← (if bool_decide (shape a = shape_of wv)
                then alloc (VRT_from_array a)
                else
                  _ ← alloc (VRT_from_array a);
                  alloc (VRT_from_array
                           (resized a (shape_of wv).2 (shape_of wv).1
                              resamplingAlg)));
           mret (Some (h, 1), st.2)
       | None => mret st
       end;
  (* add parameters from input *)
  let p2add := dict_update st.2 parameters in
  match st.1 with
  | None => raise (AttributeError "NoneType")
  | Some (vrt2add, bandNumber) =>
      v2 ← deref vrt2add;
      s ← get_self;
      bandName ← _create_band (raw s) (mkSrc (fileName v2) bandNumber) p2add;
      _ ← set_addedBands bandName vrt2add;
      h ← copy (raw s);
      set_vrt h
  end.

(** ** resize *)

(** [int(x)] of a float: truncation towards zero. *)
Definition int (x : Q) : Z := Z.quot (Qnum x) (Z.pos (Qden x)).

(** The methods that [resize] accepts. *)
Definition method_ok (method : string) : bool :=
  String.eqb method "average" || String.eqb method "subsample".

Definition resize_band (method : string) (b : Band) : Band :=
  if String.eqb method "average"
  then match sourceTag b with
       | ComplexSource | SimpleSource => with_sourceTag AveragedSource b
       | AveragedSource => b
       end
  else b.

Definition resize_gcp (factor : Q) (rasterXSize' rasterYSize' : Z) (g : GCP) : GCP :=
  let pxl := (gcpPixel g * factor)%Q in
  let pxl := if Qle_bool pxl (inject_Z rasterXSize') then pxl
             else inject_Z rasterXSize' in
  let lin := (gcpLine g * factor)%Q in
  let lin := if Qle_bool lin (inject_Z rasterYSize') then lin
             else inject_Z rasterYSize' in
  mkGCP (gcpId g) pxl lin (gcpX g) (gcpY g) (gcpZ g).

(** The edit of the XML document of the working tree. *)
Definition resize_edit (factor : Q) (method : string) (v : VRT) : VRT :=
  let rasterXSize' := int (inject_Z (rasterXSize v) * factor) in
  let rasterYSize' := int (inject_Z (rasterYSize v) * factor) in
  with_gcps (resize_gcp factor rasterXSize' rasterYSize' <$> gcps v)
    (with_bands (resize_band method <$> vrtBands v)
       (with_size rasterXSize' rasterYSize' v)).

(** [float(a) / float(b)] *)
Definition float_div (a b : Z) : M Q :=
  if b =? 0 then raise ZeroDivisionError
  else mret (inject_Z a / inject_Z b)%Q.

Definition resize (factor : Q) (width height : option Z) (method : string)
    : M unit :=
  (* resize back to original size/setting *)
  if Qeq_bool factor 1 && bool_decide (width = None)
     && bool_decide (height = None)
  then
    s ← get_self; h ← copy (raw s); set_vrt h
  else
    s ← get_self;
    (* estimate factor if width or height is given *)
    factor ← match width with
             | Some wd => v ← deref (vrt s); float_div wd (rasterXSize v)
             | None => mret factor
             end;
    factor ← match height with
             | Some ht => v ← deref (vrt s); float_div ht (rasterYSize v)
             | None => mret factor
             end;
    if negb (method_ok method)
    then raise (OptionError "method should be 'average' or 'subsample'")
    else
      v ← deref (vrt s);
      (* the numbers that the message is formatted with are left out *)
      _ ← logger INFO "New size/factor";
      store (vrt s) (resize_edit factor method v).

(** ** reproject *)

(** [dstDomain] is given by the handle of its working tree ([dstDomain.vrt]). *)
Definition reproject `{Engine} (dstDomain : option handle) (resamplingAlg : Z)
    : M unit :=
  match dstDomain with
  | None =>
      (* dereproject and quit *)
      s ← get_self; h ← copy (raw s); set_vrt h
  | Some d =>
      dv ← deref d;
      let dstSRS := projection dv in
      let dstGCPs := gcps dv in
      let dstSRS := if bool_decide (0 < length dstGCPs)%nat
                    then gcpProjection dv else dstSRS in
      s ← get_self; rv ← deref (raw s);
      warpedVRT ← lift (create_warped_vrt rv dstSRS dstGCPs resamplingAlg
                          (rasterXSize dv) (rasterYSize dv) (geoTransform dv));
      h ← alloc warpedVRT;
      set_vrt h
  end.

(** ** export *)

(** The table that maps a GDAL data type to a netCDF data type. *)
Definition netcdf_dataType : gmap string string :=
  {[ "UInt16" := "Int16"; "CInt16" := "Int16"; "UInt32" := "Int32";
     "CFloat32" := "Float32"; "CFloat64" := "Float64" ]}.

(** [{...}.get(dataType, dataType)] *)
Definition narrow (dataType : string) : string :=
  default dataType (netcdf_dataType !! dataType).

Definition narrow_band (b : Band) : Band := with_dataType (narrow (dataType b)) b.

(** [s.replace(a, b)] for single characters *)
Fixpoint replace_char (a b : Ascii.ascii) (s : string) : string :=
  match s with
  | EmptyString => EmptyString
  | String c s' => String (if Ascii.eqb c a then b else c) (replace_char a b s')
  end.

(** The subset branch: one fresh descriptor per requested band.  [allBands]
    is the dict returned by [self.bands()]; [pop] edits its entries in place. *)
Definition export_band `{Engine} (exportVRT : handle) (wv : VRT)
    (allBands : gmap Z (gmap string string)) (bandID : BandID)
    : M (gmap Z (gmap string string)) :=
  bandNumber ← _get_band_number bandID;
  match allBands !! bandNumber with
  | None => raise (KeyError (pretty bandNumber))
  | Some bandMetadata =>
      bandMetadata ← lift (dict_pop "SourceFilename" bandMetadata);
      bandMetadata ← lift (dict_pop "SourceBand" bandMetadata);
      _ ← _create_band exportVRT (mkSrc (fileName wv) bandNumber) bandMetadata;
      mret (<[bandNumber := bandMetadata]> allBands)
  end.

(** Metadata of one band of the export tree: [NETCDF_VARNAME] is set from
    [BandName], unwanted keys are removed; a missing key is logged. *)
Fixpoint remove_metadata (lvl : LogLevel) (msg : string → string)
    (rmMetadata : list string) (m : gmap string string)
    : list (LogLevel * string) * gmap string string :=
  match rmMetadata with
  | [] => ([], m)
  | rmMeta :: rest =>
      match m !! rmMeta with
      | Some _ => remove_metadata lvl msg rest (delete rmMeta m)
      | None =>
          let '(l, m') := remove_metadata lvl msg rest m in
          ((lvl, msg rmMeta) :: l, m')
      end
  end.

Definition export_band_metadata (rmMetadata : list string) (iBand : Z) (b : Band)
    : list (LogLevel * string) * Band :=
  let bandMetadata := bandMeta b in
  let '(l1, bandMetadata) :=
    match bandMetadata !! "BandName" with
    | Some name => ([], <["NETCDF_VARNAME" := name]> bandMetadata)
    | None =>
        ([(WARNING, "Unable to set NETCDF_VARNAME for band " +:+ pretty (iBand + 1))],
         bandMetadata)
    end in
  let '(l2, bandMetadata) :=
    remove_metadata INFO
      (λ rmMeta, "Unable to remove metadata " +:+ rmMeta +:+ " from band " +:+
                 pretty (iBand + 1))
      rmMetadata bandMetadata in
  (l1 ++ l2, with_bandMeta bandMetadata b).

Fixpoint export_bands_metadata (rmMetadata : list string) (iBand : Z)
    (bs : list Band) : list (LogLevel * string) * list Band :=
  match bs with
  | [] => ([], [])
  | b :: rest =>
      let '(l, b') := export_band_metadata rmMetadata iBand b in
      let '(l', rest') := export_bands_metadata rmMetadata (iBand + 1) rest in
      (l ++ l', b' :: rest')
  end.

Definition emit (l : list (LogLevel * string)) : M unit := λ w, (w, l, inr tt).

(** Create new VRT object which will be used for export. *)
Definition export_build `{Engine} (bands_ : option (list BandID)) : M handle :=
  s ← get_self; wv ← deref (vrt s);
  match bands_ with
  | None =>
      (* if <bands> are not specified use all bands and make full copy *)
      copy (vrt s)
  | Some ids =>
      e ← alloc (VRT_from_dataset wv (geoloc wv));
      _ ← foldM (export_band e wv) ids (list_to_map (bands wv));
      mret e
  end.

(** Change the element from GDAL datatype to NetCDF data type. *)
Definition export_narrow (exportVRT : handle) : M unit :=
  ev ← deref exportVRT;
  store exportVRT (with_bands (narrow_band <$> vrtBands ev) ev).

(** The rest of [export], up to the call of the netCDF driver. *)
Definition export_finish `{Engine} (exportVRT : handle)
    (rmMetadata : list string) : M unit :=
  s ← get_self;
  (* add bands with geolocation to the VRT *)
  ev ← deref exportVRT;
  _ ← match geoloc ev with
      | Some _ =>
          wv ← deref (vrt s);
          match geoloc wv with
          | Some g =>
              _ ← _create_band exportVRT (mkSrc (X_DATASET g) (X_BAND g))
                    {[ "wkv" := "longitude"; "BandName" := "GEOLOCATION_X_DATASET" ]};
              _ ← _create_band exportVRT (mkSrc (Y_DATASET g) (Y_BAND g))
                    {[ "wkv" := "latitude"; "BandName" := "GEOLOCATION_Y_DATASET" ]};
              mret tt
          | None => raise (KeyError "X_DATASET")
          end
      | None => mret tt
      end;
  ev ← deref exportVRT;
  _ ← store exportVRT (with_vrtMeta (_add_gcp_metadata ev) ev);
  (* add projection metadata *)
  wv ← deref (vrt s);
  let srs := projection wv in
  ev ← deref exportVRT;
  _ ← store exportVRT
        (with_vrtMeta
           (<["NANSAT_Projection" :=
                replace_char "034"%char "&"%char
                  (replace_char ","%char "|"%char srs)]>
              (vrtMeta ev)) ev);
  (* add GeoTransform metadata *)
  wv ← deref (vrt s);
  let geoTransformStr :=
    replace_char ","%char "|"%char (str_geoTransform (geoTransform wv)) in
  ev ← deref exportVRT;
  _ ← store exportVRT
        (with_vrtMeta (<["NANSAT_GeoTransform" := geoTransformStr]> (vrtMeta ev))
           ev);
  (* manage metadata for each band *)
  ev ← deref exportVRT;
  let '(l, bs) := export_bands_metadata rmMetadata 0 (vrtBands ev) in
  _ ← emit l;
  _ ← store exportVRT (with_bands bs ev);
  (* remove unwanted global metadata *)
  ev ← deref exportVRT;
  let '(l, globMetadata) :=
    remove_metadata INFO (λ rmMeta, "Global metadata " +:+ rmMeta +:+ " not found")
      rmMetadata (vrtMeta ev) in
  _ ← emit l;
  store exportVRT (with_vrtMeta globMetadata ev).

(** [export] up to the call of the netCDF driver: the result is the tree
    that is handed to [CreateCopy].  The arguments [addGeoloc] and [addGCPs]
    of the method are not read by its body. *)
Definition export `{Engine} (bands_ : option (list BandID))
    (rmMetadata : list string) : M handle :=
  exportVRT ← export_build bands_;
  _ ← export_narrow exportVRT;
  _ ← export_finish exportVRT rmMetadata;
  mret exportVRT.

(** ** mosaic *)

#[global] Instance ndarray_inhabited : Inhabited ndarray :=
  populate (mkArray (0, 0) (λ _ _, 0%Q)).

(** [np.zeros(sh)] *)
Definition zeros (sh : Z * Z) : ndarray := mkArray sh (λ _ _, 0%Q).

(** [128 * np.ones(sh)] *)
Definition ones128 (sh : Z * Z) : ndarray := mkArray sh (λ _ _, 128%Q).

(** element-wise operations *)
Definition arr_map (f : Q → Q) (a : ndarray) : ndarray :=
  mkArray (shape a) (λ i j, f (px a i j)).

Definition arr_zip (f : Q → Q → Q) (a b : ndarray) : ndarray :=
  mkArray (shape a) (λ i j, f (px a i j) (px b i j)).

(** [np.square] *)
Definition square (x : Q) : Q := (x * x)%Q.

(** [t = np.zeros(...); t[mask == 128] = 1] *)
Definition valid_pixels (mask : ndarray) : ndarray :=
  arr_map (λ m, if Qeq_bool m 128 then 1%Q else 0%Q) mask.

(** [a[mask < 128] = 0] *)
Definition mask_invalid (mask a : ndarray) : ndarray :=
  arr_zip (λ m x, if Qle_bool 128 m then x else 0%Q) mask a.

(** maximum of two layers *)
Definition Qmax2 (x y : Q) : Q := if Qle_bool x y then y else x.

(** The matrices that [mosaic] accumulates: count, the two layers of the
    mask matrix, and per band the sum and the sum of squares. *)
Record Acc := mkAcc {
  cntMat : ndarray;
  maskMat0 : ndarray;
  maskMat1 : ndarray;
  avgMat : gmap string ndarray;
  stdMat : gmap string ndarray }.

(** preallocation *)
Definition mosaic_alloc (dstShape : Z * Z) (bands_ : list string) : Acc :=
  let z := foldl (λ m b, <[b := zeros dstShape]> m) ∅ bands_ in
  mkAcc (zeros dstShape) (zeros dstShape) (zeros dstShape) z z.

(** add data of one band of one file to the summation matrices; numpy
    refuses operands whose shapes do not fit (broadcasting of a dimension
    of length 1 is not modelled) *)
Definition mosaic_band `{Engine} (n : Obj) (mask : ndarray) (acc : Acc)
    (b : string) : M Acc :=
  _ ← logger DEBUG ("    Adding " +:+ b +:+ " to sum");
  a ← lift (obj_getitem n b);
  if negb (bool_decide (shape a = shape mask))
  then raise (ValueError "shape mismatch")
  else
    let a := mask_invalid mask a in
    mret (mkAcc (cntMat acc) (maskMat0 acc) (maskMat1 acc)
            (<[b := arr_zip Qplus (avgMat acc !!! b) a]> (avgMat acc))
            (<[b := arr_zip Qplus (stdMat acc !!! b) (arr_map square a)]>
               (stdMat acc))).

(** add mask band: [try: mask = n['mask']  except: n.add_band(mask, ...)] *)
Definition ensure_mask `{Engine} (n : Obj) : Error + Obj :=
  match obj_getitem n "mask" with
  | inr _ => inr n
  | inl _ =>
      obj_add_band_positional n (ones128 (obj_shape n)) {[ "BandName" := "mask" ]}
  end.

(** the body of the loop over the input files *)
Definition mosaic_file `{Engine} (dstShape : Z * Z) (bands_ : list string)
    (acc : Acc) (f : string) : M Acc :=
  _ ← logger INFO ("Processing " +:+ f);
  (* open file using Nansat or its child class *)
  n ← lift (nClass f);
  (* add mask band *)
  n ← lift (ensure_mask n);
  s ← get_self; wv ← deref (vrt s);
  n ← lift (obj_reproject n wv);
  match obj_getitem n "mask" with
  | inl _ =>
      (* if 'mask' cannot be fetched, skip the file *)
      _ ← logger ERROR ("Cannot reproject " +:+ f +:+ "!");
      mret acc
  | inr mask =>
      if negb (bool_decide (shape mask = dstShape))
      then raise (ValueError "shape mismatch")
      else
        (* add data to counting matrix and to mask matrix *)
        let acc := mkAcc (arr_zip Qplus (cntMat acc) (valid_pixels mask))
                     mask (arr_zip Qmax2 mask (maskMat1 acc))
                     (avgMat acc) (stdMat acc) in
        (* add data to summation matrix *)
        foldM (mosaic_band n mask) bands_ acc
  end.

(** average products: one step of the loop over the bands *)
Definition mosaic_average (cnt : ndarray)
    (ms : gmap string ndarray * gmap string ndarray) (b : string)
    : M (gmap string ndarray * gmap string ndarray) :=
  _ ← logger DEBUG ("    Averaging " +:+ b);
  let '(avgM, stdM) := ms in
  let avg := arr_zip Qdiv (avgM !!! b) cnt in
  let std :=
    arr_map square
      (arr_zip Qdiv
         (arr_zip Qplus
            (arr_zip Qminus (stdM !!! b)
               (arr_zip Qmult (arr_map (Qmult 2) avg) (avgM !!! b)))
            (arr_map square avg))
         cnt) in
  mret (<[b := avg]> avgM, <[b := std]> stdM).

(** The first part of [mosaic], up to "Adding bands": the count matrix, the
    combined mask and per band the mean and the matrix stored as std. *)
Definition mosaic_compute `{Engine} (files : list string) (bands_ : list string)
    : M (ndarray * ndarray * (gmap string ndarray * gmap string ndarray)) :=
  (* get desired shape *)
  s ← get_self; wv ← deref (vrt s);
  let dstShape := shape_of wv in
  _ ← logger DEBUG "dstShape";
  (* preallocate 2D matrices *)
  _ ← logger DEBUG "Allocating 2D matrices";
  let acc := mosaic_alloc dstShape bands_ in
  (* for all input files *)
  acc ← foldM (mosaic_file dstShape bands_) files acc;
  (* average products *)
  ms ← foldM (mosaic_average (cntMat acc)) bands_ (avgMat acc, stdMat acc);
  (* calculate mask (max of 0, 1, 2, 128) *)
  let maskMat := arr_zip Qmax2 (maskMat0 acc) (maskMat1 acc) in
  mret (cntMat acc, maskMat, ms).

(** The second part of [mosaic]: the bands are added to the object. *)
Definition mosaic_emit `{Engine} (bands_ : list string) (maskMat : ndarray)
    (ms : gmap string ndarray * gmap string ndarray) : M unit :=
  _ ← logger DEBUG "Adding bands";
  (* add mask band *)
  _ ← logger DEBUG "    mask";
  _ ← add_band None None (BInt 1) (Some maskMat)
        (Some {[ "BandName" := "mask" ]}) 1;
  (* add averaged bands *)
  foldM (λ _ b,
           _ ← logger DEBUG ("    " +:+ b);
           _ ← add_band None None (BInt 1) (Some (ms.1 !!! b))
                 (Some {[ "BandName" := b ]}) 1;
           add_band None None (BInt 1) (Some (ms.2 !!! b))
             (Some {[ "BandName" := b +:+ "_std" ]}) 1)
    bands_ tt.

Definition mosaic `{Engine} (files : list string) (bands_ : list string) : M unit :=
  r ← mosaic_compute files bands_;
  mosaic_emit bands_ r.1.2 r.2.

(** ** The constructor *)

Definition set_raw_vrt (r v : handle) : M unit := λ w,
  (mkWorld (heap w) (mkNansat r v ∅), [], inr tt).

(** [Nansat(fileName, mapperName, domain, array, parameters)]; [domain] is
    given by the handle of its working tree. *)
Definition __init__ `{Engine} (fileName_ mapperName : string)
    (domain : option handle) (array : option ndarray)
    (parameters : option (gmap string string)) : M unit :=
  if String.eqb fileName_ "" && bool_decide (domain = None)
  then raise (OptionError "Either fileName or domain is required.")
  else if negb (String.eqb fileName_ "")
  then
    match _get_mapper fileName_ mapperName with
    | None => raise (AttributeError "NoneType")
    | Some v =>
        r ← alloc v;
        h ← copy r;
        set_raw_vrt r h
    end
  else
    match domain with
    | None => raise (AttributeError "NoneType")
    | Some d =>
        dv ← deref d;
        r ← alloc (VRT_from_dataset dv None);
        h ← alloc (VRT_from_dataset dv None);
        _ ← set_raw_vrt r h;
        match array with
        | Some a => add_band None None (BInt 1) (Some a) parameters 1
        | None => mret tt
        end
    end.

(** ** Sample collaborators and objects, used by the examples

    Input files: ["a.nc"] holds the band [sst] = 0 everywhere, ["b.nc"] holds
    [sst] = 2 everywhere, every other file [sst] = 5/2; all carry an all-valid
    mask.  The mask of ["swath.nc"] cannot be read once the file is
    reprojected.  ["missing.nc"] cannot be opened. *)

Definition sample_sst (f : string) : Q :=
  if String.eqb f "a.nc" then 0%Q
  else if String.eqb f "b.nc" then 2%Q else (5 # 2)%Q.

Definition sample_tree (x y : Z) (names : list (option string)) : VRT :=
  mkVRT "" x y "WGS84" [0; 1; 0; 0; 0; -1]%Q [] ""
    ((λ o, mkBand "Float32" ComplexSource "in.nc" 1
             match o with Some s => {[ "BandName" := s ]} | None => ∅ end)
       <$> names)
    ∅ None None.

Definition sample_engine : Engine := {|
  band_dataType := λ _ _, "Float32";
  array_dataType := λ _, "Float64";
  create_warped_vrt := λ rv dstSRS dstGCPs alg x y gt,
    if String.eqb dstSRS "" then inl (ProjectionError "empty projection")
    else inr (mkVRT "" x y dstSRS gt dstGCPs dstSRS (vrtBands rv) (vrtMeta rv)
                None None);
  resized := λ a x y alg, mkArray (y, x) (px a);
  _get_mapper := λ f m,
    if String.eqb f "missing.nc" then None
    else Some (sample_tree 4 4 [Some "sst"; Some "mask"]);
  _add_gcp_metadata := vrtMeta;
  str_geoTransform := λ _, "(0.0, 1.0, 0.0, 0.0, 0.0, -1.0)";
  Obj := string * bool * (Z * Z);
  Nansat_open := λ f,
    if String.eqb f "missing.nc" then inl (AttributeError "NoneType")
    else inr (f, false, (4, 4));
  nClass := λ f,
    if String.eqb f "missing.nc" then inl (AttributeError "NoneType")
    else inr (f, false, (4, 4));
  obj_vrt := λ n, sample_tree n.2.2 n.2.1 [Some "sst"; Some "mask"];
  obj_shape := λ n, n.2;
  obj_getitem := λ n b,
    if String.eqb b "mask"
    then (if String.eqb n.1.1 "swath.nc" && n.1.2
          then inl (OptionError "Cannot find band mask")
          else inr (ones128 n.2))
    else if String.eqb b "sst"
    then inr (mkArray n.2 (λ _ _, sample_sst n.1.1))
    else inl (OptionError "Cannot find band");
  obj_reproject := λ n dst, inr (n.1.1, true, shape_of dst);
  obj_add_band_positional := λ n a p, inl (TypeError "fileName")
|}.

(** A 4×4 object with one band [A], neither resized nor reprojected. *)
Definition sample_world : World :=
  mkWorld [with_fileName (vsi_name 0) (sample_tree 4 4 [Some "A"]);
           with_fileName (vsi_name 1) (sample_tree 4 4 [Some "A"])]
    (mkNansat 0%nat 1%nat ∅).

(** A 4×5 object (width 4, height 5) with two ground control points. *)
Definition sample_world_gcps : World :=
  mkWorld [with_fileName (vsi_name 0) (sample_tree 4 5 [Some "A"]);
           with_gcps [mkGCP "1" 0 0 10 60 0; mkGCP "2" 4 5 11 59 0]%Q
             (with_fileName (vsi_name 1) (sample_tree 4 5 [Some "A"]))]
    (mkNansat 0%nat 1%nat ∅).

(** An object whose second band has no [BandName]. *)
Definition sample_world_unnamed : World :=
  mkWorld [with_fileName (vsi_name 0) (sample_tree 4 4 [Some "A"; None]);
           with_fileName (vsi_name 1) (sample_tree 4 4 [Some "A"; None])]
    (mkNansat 0%nat 1%nat ∅).

(** A 4×4 object whose bands have the element types UInt16, CInt32, Byte
    and CFloat32. *)
Definition sample_typed_tree : VRT :=
  with_bands
    [mkBand "UInt16" ComplexSource "in.nc" 1 {[ "BandName" := "a" ]};
     mkBand "CInt32" ComplexSource "in.nc" 2 {[ "BandName" := "b" ]};
     mkBand "Byte" ComplexSource "in.nc" 3 {[ "BandName" := "c" ]};
     mkBand "CFloat32" ComplexSource "in.nc" 4 {[ "BandName" := "d" ]}]
    (sample_tree 4 4 []).

Definition sample_world_typed : World :=
  mkWorld [with_fileName (vsi_name 0) sample_typed_tree;
           with_fileName (vsi_name 1) sample_typed_tree]
    (mkNansat 0%nat 1%nat ∅).

(** A 4×4 array of ones. *)
Definition sample_ones : ndarray := mkArray (4, 4) (λ _ _, 1%Q).

(** ** The arithmetic of the averaging step in binary64

    The same expression as in [mosaic_average], for one pixel, on
    floating-point numbers: [s2] is the sum of squares, [s] the sum and [n]
    the count. *)
Definition std_pixel_binary64 (s2 s n : float) : float :=
  let avg := (s / n)%float in
  let t := ((s2 - 2 * avg * s + avg * avg) / n)%float in
  (t * t)%float.

(** ** What the specification says, for comparison *)

(** Rounding to the nearest integer, halves away from zero. *)
Definition spec_round (x : Q) : Z :=
  if Qle_bool 0 x then Qfloor (x + (1 # 2)) else Qceiling (x - (1 # 2)).

(** The methods of [resize] according to the specification. *)
Definition spec_method_ok (method : string) : bool :=
  String.eqb method "average" || String.eqb method "nearest".

(** The variance estimator of the specification. *)
Definition spec_variance (sumSq sum count : Q) : Q :=
  let mean := (sum / count)%Q in
  ((sumSq - 2 * mean * sum + count * (mean * mean)) / count)%Q.

(** The table of [export], entry by entry. *)
Definition narrow_cases (t : string) : string :=
  if String.eqb t "UInt16" then "Int16"
  else if String.eqb t "CInt16" then "Int16"
  else if String.eqb t "UInt32" then "Int32"
  else if String.eqb t "CFloat32" then "Float32"
  else if String.eqb t "CFloat64" then "Float64"
  else t.

(** The element types of the raster engine (GDAL's [GDALDataType] names). *)
Definition gdal_unsigned : list string := ["Byte"; "UInt16"; "UInt32"].
Definition gdal_complex : list string := ["CInt16"; "CInt32"; "CFloat32"; "CFloat64"].
Definition gdal_real : list string :=
  ["Byte"; "UInt16"; "Int16"; "UInt32"; "Int32"; "Float32"; "Float64"].

(** ** Predicates used in the statements *)

(** The band has a [BandName]. *)
Definition named (b : Band) : Prop := is_Some (bandMeta b !! "BandName").

(** The band carries the name [s] as its [BandName]. *)
Definition carries (s : string) (b : Band) : Prop :=
  bandMeta b !! "BandName" = Some s.

(** The handle refers to an object. *)
Definition live (w : World) (h : handle) : Prop := is_Some (heap w !! h).

(** The state of an object between two method calls: the raw and the
    working tree are two different objects. *)
Definition wf (w : World) : Prop :=
  raw (self w) ≠ vrt (self w) ∧ live w (raw (self w)) ∧ live w (vrt (self w)).

(** The raw tree of [w'] is the raw tree of [w], unmodified. *)
Definition raw_untouched (w w' : World) : Prop :=
  raw (self w') = raw (self w) ∧
  heap w' !! raw (self w') = heap w !! raw (self w).

(** The call is the reset call [resize()]. *)
Definition is_reset (factor : Q) (width height : option Z) : bool :=
  Qeq_bool factor 1 && bool_decide (width = None) && bool_decide (height = None).

(** The factor that a call of [resize] works with: the height wins over
    the width, the width over the factor. *)
Definition effective_factor (factor : Q) (width height : option Z) (v : VRT) : Q :=
  match height, width with
  | Some ht, _ => (inject_Z ht / inject_Z (rasterYSize v))%Q
  | None, Some wd => (inject_Z wd / inject_Z (rasterXSize v))%Q
  | None, None => factor
  end.

(** No division by zero when the factor is computed. *)
Definition sizes_ok (width height : option Z) (v : VRT) : Prop :=
  (is_Some width → rasterXSize v ≠ 0) ∧ (is_Some height → rasterYSize v ≠ 0).

(** Weakest precondition for normal return: if [m] returns [a] from [w] and
    leaves [w'], then [Q a w']. *)
Definition wp {A} (m : M A) (Q : A → World → Prop) (w : World) : Prop :=
  ∀ w' l a, m w = (w', l, inr a) → Q a w'.

(** The element types of the bands that [ev] has are still there in [ev']. *)
Definition keeps_dataTypes (ev ev' : VRT) : Prop :=
  ∀ (i : nat) t, dataType <$> vrtBands ev !! i = Some t →
                 dataType <$> vrtBands ev' !! i = Some t.

(** Two runs leave the same world and return or raise the same; what they
    log may differ. *)
Definition agree {A} (x y : World * list (LogLevel * string) * (Error + A))
    : Prop :=
  x.1.1 = y.1.1 ∧ x.2 = y.2.

(** The file is opened, gets its mask band and is reprojected onto the
    working tree [wv], and then its mask cannot be fetched. *)
Definition mask_unreadable `{Engine} (wv : VRT) (f : string) : Prop :=
  ∃ n n1 n2 e,
    nClass f = inr n ∧ ensure_mask n = inr n1 ∧
    obj_reproject n1 wv = inr n2 ∧ obj_getitem n2 "mask" = inl e.

(** After reprojection onto the working tree [wv] the file [f] has a mask
    that is 128 at every pixel and a band [b] that is [c] at every pixel. *)
Definition constant_input `{Engine} (wv : VRT) (f b : string) (c : Q) : Prop :=
  ∃ n n1 n2 mask a,
    nClass f = inr n ∧ ensure_mask n = inr n1 ∧
    obj_reproject n1 wv = inr n2 ∧
    obj_getitem n2 "mask" = inr mask ∧ shape mask = shape_of wv ∧
    (∀ i j, px mask i j == 128)%Q ∧
    obj_getitem n2 b = inr a ∧ shape a = shape_of wv ∧
    (∀ i j, px a i j == c)%Q.

(** The computation keeps the raw and the working tree apart, whether it
    returns or raises. *)
Definition keeps_wf {A} (m : M A) : Prop :=
  ∀ w w' l r, wf w → m w = (w', l, r) → wf w'.

(** The states of an object: what the constructor leaves, and what the
    methods make of it, returning or raising. *)
Inductive reachable `{Engine} : World → Prop :=
| reach_init fileName_ mapperName domain array parameters w0 w l :
    __init__ fileName_ mapperName domain array parameters w0 = (w, l, inr tt) →
    reachable w
| reach_add_band fileName_ vrt_ bandID array parameters alg w w' l r :
    reachable w →
    add_band fileName_ vrt_ bandID array parameters alg w = (w', l, r) →
    reachable w'
| reach_resize factor width height method w w' l r :
    reachable w →
    resize factor width height method w = (w', l, r) →
    reachable w'
| reach_reproject dstDomain alg w w' l r :
    reachable w →
    reproject dstDomain alg w = (w', l, r) →
    reachable w'
| reach_export bands_ rmMetadata w w' l r :
    reachable w →
    export bands_ rmMetadata w = (w', l, r) →
    reachable w'
| reach_mosaic files bands_ w w' l r :
    reachable w →
    mosaic files bands_ w = (w', l, r) →
    reachable w'.

(** * The other methods of the class

    The accessors around the band resolver: [get_GDALRasterBand],
    [get_metadata], [bands] as the method is written, [set_metadata] and
    [get_time]. *)

(** ** Bands and metadata *)

(** [get_GDALRasterBand(bandID)]: GDAL's [GetRasterBand] answers a number
    without a band with [None]. *)
Definition get_GDALRasterBand (bandID : BandID) : M (option Band) :=
  (* get band number *)
  bandNumber ← _get_band_number bandID;
  (* the GDAL RasterBand of the corresponding band is returned *)
  s ← get_self; v ← deref (vrt s);
  mret (GetRasterBand v bandNumber).

(** What [get_metadata] returns: a dict when no key is given, else the
    value of the key, [None] when the dict has no such key. *)
Definition Metadata (key : option string) : Type :=
  match key with
  | Some _ => option string
  | None => gmap string string
  end.

Definition get_metadata (key : option string) (bandID : option BandID)
    : M (Metadata key) :=
  (* get all metadata from dataset or from band *)
  metadata ← match bandID with
             | None => s ← get_self; v ← deref (vrt s); mret (vrtMeta v)
             | Some bandID =>
                 band ← get_GDALRasterBand bandID;
                 match band with
                 | Some b => mret (bandMeta b)
                 | None => raise (AttributeError "NoneType")
                 end
             end;
  (* get all metadata or from a key *)
  match key return M (Metadata key) with
  | Some k => mret (metadata !! k)
  | None => mret metadata
  end.

(** [bands] as the method is written: one call of [get_metadata] for every
    band number.  ([bands], above, is what the loop amounts to.) *)
Definition Nansat_bands : M (list (Z * gmap string string)) :=
  s ← get_self; v ← deref (vrt s);
  foldM (λ b iBand,
           m ← get_metadata None (Some (BInt (iBand + 1)));
           mret (b ++ [(iBand + 1, m)]))
    (seqZ 0 (RasterCount v)) [].

(** [SetMetadataItem(k, v)] on the dataset of the tree behind [h]
    ([band = None]) or on its band [n] ([band = Some n]).  The band is looked
    up when it is written to: between the moment at which [set_metadata]
    fetches its receivers and the writes no band is added or removed.  A
    number without a band gives the receiver [None]. *)
Definition SetMetadataItem (h : handle) (band : option Z) (k v : string)
    : M unit :=
  t ← deref h;
  match band with
  | None => store h (with_vrtMeta (<[k:=v]> (vrtMeta t)) t)
  | Some n =>
      match GetRasterBand t n with
      | Some b =>
          store h
            (with_bands
               (<[Z.to_nat (n - 1) := with_bandMeta (<[k:=v]> (bandMeta b)) b]>
                  (vrtBands t))
               t)
      | None => raise (AttributeError "NoneType")
      end
  end.

(** The argument [key] of [set_metadata]: a name, or a dict of names and
    values.  The keys of a dict are distinct, so the order in which the loop
    visits them does not show in the result; the model takes the order of
    [map_to_list]. *)
Inductive MetadataKey := Key (key : string) | Keys (d : gmap string string).

Definition set_metadata (key : MetadataKey) (value : string)
    (bandID : option BandID) : M unit :=
  s ← get_self;
  (* set all metadata to the dataset or to the band *)
  band ← match bandID with
         | None => mret None
         | Some bandID => bandNumber ← _get_band_number bandID; mret (Some bandNumber)
         end;
  _ ← deref (raw s); _ ← deref (vrt s);
  (* set metadata from dictionary or from single pair key,value *)
  match key with
  | Keys d =>
      foldM (λ _ kv,
               _ ← SetMetadataItem (raw s) band kv.1 kv.2;
               SetMetadataItem (vrt s) band kv.1 kv.2)
        (map_to_list d) tt
  | Key k =>
      _ ← SetMetadataItem (raw s) band k value;
      SetMetadataItem (vrt s) band k value
  end.

(** ** get_time *)

(** The parser of time strings ([dateutil.parser.parse]): a date, or an
    exception. *)
Class DateParser := {
  datetime : Type;
  parse : string → Error + datetime }.

(** The time of a band: [dateutil.parser.parse(band.GetMetadataItem("time"))]
    inside [try]; [None] when the band has no such item or it cannot be
    parsed. *)
Definition band_time `{DateParser} (band : option Band) : option datetime :=
  b ← band;
  s ← bandMeta b !! "time";
  match parse s with
  | inr d => Some d
  | inl _ => None
  end.

(** What [get_time] returns: the list with the time of every band, or the
    entry [time[bandNumber - 1]] of one band.  The entry is a lookup in the
    list; [None] for the lookup stands for Python's IndexError. *)
Inductive Times `{DateParser} :=
| AllTimes (time : list (option datetime))
| TimeOf (t : option (option datetime)).

Definition get_time `{DateParser} (bandID : option BandID) : M Times :=
  s ← get_self; v ← deref (vrt s);
  time ← foldM (λ time i,
                  band ← get_GDALRasterBand (BInt (i + 1));
                  match band_time band with
                  | Some d => mret (time ++ [Some d])
                  | None =>
                      _ ← logger DEBUG ("Band " +:+ pretty (i + 1) +:+ " has no time");
                      mret (time ++ [None])
                  end)
           (seqZ 0 (RasterCount v)) [];
  match bandID with
  | Some bandID =>
      bandNumber ← _get_band_number bandID;
      mret (TimeOf (time !! Z.to_nat (bandNumber - 1)))
  | None => mret (AllTimes time)
  end.

(** ** Objects and notions used in the statements about these methods *)

(** A 4×4 object with three bands, two of which carry the name [A]. *)
Definition sample_world_twins : World :=
  mkWorld [with_fileName (vsi_name 0) (sample_tree 4 4 [Some "A"; Some "A"; Some "B"]);
           with_fileName (vsi_name 1) (sample_tree 4 4 [Some "A"; Some "A"; Some "B"])]
    (mkNansat 0%nat 1%nat ∅).

(** The metadata that [get_metadata] reads and [SetMetadataItem] writes: of
    the dataset ([band = None]) or of band [n]; [None] when there is no such
    band. *)
Definition metadata_at (band : option Z) (v : VRT) : option (gmap string string) :=
  match band with
  | None => Some (vrtMeta v)
  | Some n => bandMeta <$> GetRasterBand v n
  end.

(** The names of the bands, in order. *)
Definition band_names (v : VRT) : list (option string) :=
  (λ b, bandMeta b !! "BandName") <$> vrtBands v.

(** The tree after [SetMetadataItem(k, v)] on its dataset or on its band
    [n]. *)
Definition set_item (band : option Z) (k v : string) (t : VRT) : VRT :=
  match band with
  | None => with_vrtMeta (<[k:=v]> (vrtMeta t)) t
  | Some n =>
      match GetRasterBand t n with
      | Some b =>
          with_bands
            (<[Z.to_nat (n - 1) := with_bandMeta (<[k:=v]> (bandMeta b)) b]>
               (vrtBands t))
            t
      | None => t
      end
  end.

(** The receiver that [set_metadata] and [get_metadata] address on the
    working tree [v]: the dataset, or the band that [bandID] resolves to. *)
Definition receiver (v : VRT) (bandID : option BandID) : Error + option Z :=
  match bandID with
  | None => inr None
  | Some bandID => n ← band_number_of v bandID; mret (Some n)
  end.

(** [w] is [w0] with new objects, if any: the object refers to the same
    trees, and every object that [w0] has is in [w] as it was. *)
Definition extends (w0 w : World) : Prop :=
  self w = self w0 ∧ ∃ new, heap w = heap w0 ++ new.

(** The computation only adds objects to [w0], whether it returns or
    raises, and what it returns satisfies [Q]. *)
Definition only_adds {A} (w0 : World) (m : M A) (Q : A → Prop) : Prop :=
  ∀ w w' l r, extends w0 w → m w = (w', l, r) →
    extends w0 w' ∧ ∀ a, r = inr a → Q a.

(** When the computation raises, it has only added objects to [w0]. *)
Definition raises_clean {A} (w0 : World) (m : M A) : Prop :=
  ∀ w w' l e, extends w0 w → m w = (w', l, inl e) → extends w0 w'.

(** The handle is not one of the objects of [w0]. *)
Definition unallocated (w0 : World) (h : handle) : Prop := (length (heap w0) ≤ h)%nat.

(** The computation raises when it is run in [w]. *)
Definition fails {A} (m : M A) (w : World) : Prop :=
  ∃ w' l e, m w = (w', l, inl e).

(** The characters of a string. *)
Definition chars (s : string) : list Ascii.ascii := String.list_ascii_of_string s.

(** The entry of band [n] in the dict of [export], if there is one, has
    lost its [SourceFilename]. *)
Definition popped (n : Z) (allBands : gmap Z (gmap string string)) : Prop :=
  ∀ m, allBands !! n = Some m → m !! "SourceFilename" = None.

(** ** What mosaic accumulates

    What [mosaic] reads from one input file for the band [b]: the mask and
    the band, both on the grid of the working tree [wv]. *)
Definition readable `{Engine} (wv : VRT) (b : string) (f : string)
    (x : ndarray * ndarray) : Prop :=
  ∃ n n1 n2,
    nClass f = inr n ∧ ensure_mask n = inr n1 ∧
    obj_reproject n1 wv = inr n2 ∧
    obj_getitem n2 "mask" = inr x.1 ∧ shape x.1 = shape_of wv ∧
    obj_getitem n2 b = inr x.2 ∧ shape x.2 = shape_of wv.

(** The value of a pixel of one file as it enters the sums: 0 where the
    mask is below 128. *)
Definition masked_value (x : ndarray * ndarray) (i j : Z) : Q :=
  if Qle_bool 128 (px x.1 i j) then px x.2 i j else 0%Q.

(** Per pixel, over the files: the number of files whose mask is 128, the
    sum and the sum of squares of the masked values, and the largest mask
    value (0 when there is no file). *)
Definition valid_count (inputs : list (ndarray * ndarray)) (i j : Z) : Q :=
  foldr (λ x n, ((if Qeq_bool (px x.1 i j) 128 then 1 else 0) + n)%Q) 0%Q inputs.

Definition masked_sum (inputs : list (ndarray * ndarray)) (i j : Z) : Q :=
  foldr (λ x s, (masked_value x i j + s)%Q) 0%Q inputs.

Definition masked_sumsq (inputs : list (ndarray * ndarray)) (i j : Z) : Q :=
  foldr (λ x s, (square (masked_value x i j) + s)%Q) 0%Q inputs.

Definition mask_max (inputs : list (ndarray * ndarray)) (i j : Z) : Q :=
  foldl (λ m x, Qmax2 (px x.1 i j) m) 0%Q inputs.

(** The names that [mosaic] gives to the bands it adds. *)
Definition mosaic_names (bands_ : list string) : list (option string) :=
  Some "mask" :: (bands_ ≫= λ b, [Some b; Some (b +:+ "_std")]).

(** What is read from the sample files ["a.nc"] and ["b.nc"]: an all-valid
    mask and the band [sst]. *)
Definition sample_inputs : list (ndarray * ndarray) :=
  [(ones128 (4, 4), mkArray (4, 4) (λ _ _, sample_sst "a.nc"));
   (ones128 (4, 4), mkArray (4, 4) (λ _ _, sample_sst "b.nc"))].

(** A parser for the examples: every string but the empty one is a date. *)
Definition sample_parser : DateParser := {|
  datetime := string;
  parse := λ s, if String.eqb s "" then inl (ValueError "no date") else inr s |}.

(** A 4×4 object with three bands; the first and the third have a time. *)
Definition sample_world_times : World :=
  let t :=
    with_bands
      [mkBand "Float32" ComplexSource "in.nc" 1
         {[ "BandName" := "a"; "time" := "2012-01-27" ]};
       mkBand "Float32" ComplexSource "in.nc" 2 {[ "BandName" := "b" ]};
       mkBand "Float32" ComplexSource "in.nc" 3
         {[ "BandName" := "c"; "time" := "2012-01-28" ]}]
      (sample_tree 4 4 []) in
  mkWorld [with_fileName (vsi_name 0) t; with_fileName (vsi_name 1) t]
    (mkNansat 0%nat 1%nat ∅).

(** * Properties *)

(** ** Band resolver *)

Section Resolver.

Implicit Types (v : VRT) (s : string) (l : list Band).

Lemma scan_names_unnamed s l b k acc :
  b ∈ l → bandMeta b !! "BandName" = None →
  scan_names s (bands_from k l) acc = inl (KeyError "BandName").
Proof.
  intros Hin Hb. revert k acc.
  induction l as [|x l IH]; intros k acc; [by apply elem_of_nil in Hin|].
  simpl. destruct (bandMeta x !! "BandName") as [name|] eqn:Hx; [|done].
  apply elem_of_cons in Hin as [->|Hin]; [congruence|]. by apply IH.
Qed.

Lemma scan_names_no_match s l k acc :
  Forall named l → Forall (λ b, ¬ carries s b) l →
  scan_names s (bands_from k l) acc = inr acc.
Proof.
  intros Hn Hc. revert k acc.
  induction l as [|x l IH]; intros k acc; [done|].
  inversion Hn as [|?? [name Hx] Hn']; inversion Hc as [|?? Hcx Hc']; subst.
  simpl. rewrite Hx.
  destruct (String.eqb s name) eqn:E.
  - apply String.eqb_eq in E as ->. by destruct Hcx.
  - by apply IH.
Qed.

(** The scan returns the last band that carries the name. *)
Lemma scan_names_last s l1 b l2 k acc :
  Forall named l1 → carries s b →
  Forall named l2 → Forall (λ b, ¬ carries s b) l2 →
  scan_names s (bands_from k (l1 ++ b :: l2)) acc = inr (k + Z.of_nat (length l1)).
Proof.
  intros Hn1 Hb Hn2 Hc2. revert k acc.
  induction Hn1 as [|x l1 [name Hx] Hn1 IH]; intros k acc; simpl.
  - rewrite Hb, String.eqb_refl, scan_names_no_match by done. f_equal. lia.
  - rewrite Hx, IH. f_equal. lia.
Qed.

Lemma band_number_of_int v n :
  1 ≤ n ≤ RasterCount v → band_number_of v (BInt n) = inr n.
Proof.
  intros [H1 H2]. unfold band_number_of. simpl.
  rewrite (proj2 (Z.leb_le 1 n)), (proj2 (Z.leb_le n _)) by done. simpl.
  destruct (n =? 0) eqn:E; [lia|done].
Qed.

Lemma band_number_of_int_out v n :
  ¬ (1 ≤ n ≤ RasterCount v) →
  ∃ msg, band_number_of v (BInt n) = inl (OptionError msg).
Proof.
  intros Hn. unfold band_number_of. simpl.
  destruct (1 <=? n) eqn:E1; destruct (n <=? RasterCount v) eqn:E2; simpl;
    try (eexists; reflexivity).
  apply Z.leb_le in E1, E2. lia.
Qed.

Lemma band_number_of_name_last v s l1 b l2 :
  vrtBands v = l1 ++ b :: l2 →
  Forall named l1 → carries s b →
  Forall named l2 → Forall (λ b, ¬ carries s b) l2 →
  band_number_of v (BStr s) = inr (Z.of_nat (length l1) + 1).
Proof.
  intros Hv ????. unfold band_number_of, bands. simpl.
  rewrite Hv, scan_names_last by done. simpl.
  destruct (1 + Z.of_nat (length l1) =? 0) eqn:E.
  - apply Z.eqb_eq in E. lia.
  - f_equal. lia.
Qed.

(** A name that exactly one band carries resolves to that band, provided
    every band has a name. *)
Lemma band_number_of_name_unique v s (i : nat) b :
  Forall named (vrtBands v) →
  vrtBands v !! i = Some b → carries s b →
  (∀ j b', vrtBands v !! j = Some b' → carries s b' → j = i) →
  band_number_of v (BStr s) = inr (Z.of_nat i + 1).
Proof.
  intros Hn Hi Hb Huniq.
  pose proof (take_drop_middle _ _ _ Hi) as Hsplit.
  assert (Hlen : length (take i (vrtBands v)) = i).
  { apply length_take_le. apply lookup_lt_Some in Hi. lia. }
  rewrite <- Hlen.
  apply (band_number_of_name_last v s _ b (drop (S i) (vrtBands v)));
    [done| by apply Forall_take | done | by apply Forall_drop |].
  apply Forall_lookup. intros j b' Hj Hc.
  rewrite lookup_drop in Hj. specialize (Huniq _ _ Hj Hc). lia.
Qed.

Lemma band_number_of_name_absent v s :
  Forall named (vrtBands v) → Forall (λ b, ¬ carries s b) (vrtBands v) →
  ∃ msg, band_number_of v (BStr s) = inl (OptionError msg).
Proof.
  intros Hn Hc. unfold band_number_of, bands. simpl.
  rewrite scan_names_no_match by done. simpl. eexists; reflexivity.
Qed.

Lemma band_number_of_unnamed v s b :
  b ∈ vrtBands v → bandMeta b !! "BandName" = None →
  band_number_of v (BStr s) = inl (KeyError "BandName").
Proof.
  intros Hin Hb. unfold band_number_of, bands. simpl.
  by rewrite (scan_names_unnamed s _ b).
Qed.

(** C1: resolving a name among the bands of the working tree.  Whenever one
    band of the working tree has no BandName, resolving any name - one that
    exactly one band carries, or one that no band carries - raises KeyError:
    it neither returns the ordinal nor raises the error of the resolver. *)
Theorem get_band_number_KeyError (w : World) (v : VRT) (s : string) (b : Band) :
  heap w !! vrt (self w) = Some v →
  b ∈ vrtBands v → bandMeta b !! "BandName" = None →
  _get_band_number (BStr s) w = (w, [], inl (KeyError "BandName")).
Proof.
  intros Hv Hin Hb. unfold _get_band_number.
  unfold mbind, M_bind, get_self, deref, lift. rewrite Hv.
  by rewrite (band_number_of_unnamed v s b).
Qed.

Lemma get_band_number_KeyError_witness :
  heap sample_world_unnamed !! vrt (self sample_world_unnamed)
    = Some (with_fileName (vsi_name 1) (sample_tree 4 4 [Some "A"; None])) ∧
  bandMeta (mkBand "Float32" ComplexSource "in.nc" 1 ∅) !! "BandName" = None ∧
  _get_band_number (BStr "A") sample_world_unnamed
    = (sample_world_unnamed, [], inl (KeyError "BandName")).
Proof.
  split; [reflexivity|]. split; [reflexivity|].
  apply (get_band_number_KeyError sample_world_unnamed
           (with_fileName (vsi_name 1) (sample_tree 4 4 [Some "A"; None])) "A"
           (mkBand "Float32" ComplexSource "in.nc" 1 ∅)).
  - reflexivity.
  - apply list_elem_of_further, list_elem_of_here.
  - reflexivity.
Defined.

(** The resolver on a tree where every band has a name. *)
Lemma get_band_number_run w v bandID :
  heap w !! vrt (self w) = Some v →
  _get_band_number bandID w = (w, [], band_number_of v bandID).
Proof.
  intros Hv. unfold _get_band_number.
  unfold mbind, M_bind, get_self, deref, lift. by rewrite Hv.
Qed.

Example resolve_ordinal :
  band_number_of (sample_tree 4 4 [Some "A"; Some "B"]) (BInt 2) = inr 2.
Proof. reflexivity. Qed.

Example resolve_name :
  band_number_of (sample_tree 4 4 [Some "A"; Some "B"]) (BStr "B") = inr 2.
Proof. reflexivity. Qed.

Example resolve_absent_name :
  band_number_of (sample_tree 4 4 [Some "A"; Some "B"]) (BStr "C")
  = inl (OptionError "Cannot find band C! bandNumber is from 1 to 2").
Proof. reflexivity. Qed.

Example resolve_out_of_range :
  band_number_of (sample_tree 4 4 [Some "A"; Some "B"]) (BInt 3)
  = inl (OptionError "Cannot find band 3! bandNumber is from 1 to 2").
Proof. reflexivity. Qed.

End Resolver.

(** ** The method monad *)

Ltac mred := cbv beta iota; cbn [heap self raw vrt addedBands fst snd app].

Ltac munfold :=
  unfold copy, float_div in *;
  unfold mbind, mret, M_bind, M_ret, lift, raise, get_self, set_vrt,
    set_addedBands, logger, emit, deref, store, alloc in *;
  cbv beta iota in *.

Lemma copy_live w h v :
  heap w !! h = Some v →
  copy h w =
    (mkWorld (heap w ++ [with_fileName (vsi_name (length (heap w))) v]) (self w),
     [], inr (length (heap w))).
Proof. intros Hv. munfold. by rewrite Hv. Qed.

Lemma copy_dead w h :
  heap w !! h = None → copy h w = (w, [], inl (AttributeError "NoneType")).
Proof. intros Hv. munfold. by rewrite Hv. Qed.

(** [self.vrt = self.raw.copy()] *)
Lemma reset_live w rv :
  heap w !! raw (self w) = Some rv →
  (s ← get_self; h ← copy (raw s); set_vrt h) w =
    (mkWorld (heap w ++ [with_fileName (vsi_name (length (heap w))) rv])
       (mkNansat (raw (self w)) (length (heap w)) (addedBands (self w))),
     [], inr tt).
Proof. intros Hv. munfold. by rewrite Hv. Qed.

(** Rules for [wp]. *)

Lemma wp_ret {A} (a : A) Q w : Q a w → wp (mret a) Q w.
Proof. intros HQ w' l a' Hrun. unfold mret, M_ret in Hrun. by simplify_eq. Qed.

Lemma wp_bind {A B} (m : M A) (k : A → M B) Q w :
  wp m (λ a w', wp (k a) Q w') w → wp (m ≫= k) Q w.
Proof.
  intros Hm w' l b Hrun. unfold mbind, M_bind in Hrun.
  destruct (m w) as [[w1 l1] [e|a]] eqn:E; [done|].
  destruct (k a w1) as [[w2 l2] r] eqn:E2. simplify_eq.
  by eapply (Hm _ _ _ E).
Qed.

Lemma wp_raise {A} e (Q : A → World → Prop) w : wp (raise e) Q w.
Proof. intros w' l a Hrun. unfold raise in Hrun. by simplify_eq. Qed.

Lemma wp_lift {A} (r : Error + A) Q w :
  (∀ a, r = inr a → Q a w) → wp (lift r) Q w.
Proof. intros HQ w' l a Hrun. unfold lift in Hrun. simplify_eq. by apply HQ. Qed.

Lemma wp_get_self Q w : Q (self w) w → wp get_self Q w.
Proof. intros HQ w' l a Hrun. unfold get_self in Hrun. by simplify_eq. Qed.

Lemma wp_logger lvl msg Q w : Q tt w → wp (logger lvl msg) Q w.
Proof. intros HQ w' l [] Hrun. unfold logger in Hrun. by simplify_eq. Qed.

Lemma wp_emit l0 Q w : Q tt w → wp (emit l0) Q w.
Proof. intros HQ w' l [] Hrun. unfold emit in Hrun. by simplify_eq. Qed.

Lemma wp_deref h Q w :
  (∀ v, heap w !! h = Some v → Q v w) → wp (deref h) Q w.
Proof.
  intros HQ w' l a. unfold deref. destruct (heap w !! h) eqn:E; [|done].
  intros Hrun. simplify_eq. by apply HQ.
Qed.

Lemma wp_store h v Q w :
  Q tt (mkWorld (<[h:=v]> (heap w)) (self w)) → wp (store h v) Q w.
Proof. by intros HQ w' l [] [= <- <-]. Qed.

Lemma wp_alloc v Q w :
  Q (length (heap w))
    (mkWorld (heap w ++ [with_fileName (vsi_name (length (heap w))) v]) (self w)) →
  wp (alloc v) Q w.
Proof. intros HQ w' l a Hrun. unfold alloc in Hrun. by simplify_eq. Qed.

Lemma wp_set_vrt h Q w :
  Q tt (mkWorld (heap w) (mkNansat (raw (self w)) h (addedBands (self w)))) →
  wp (set_vrt h) Q w.
Proof. intros HQ w' l [] Hrun. unfold set_vrt in Hrun. by simplify_eq. Qed.

Lemma wp_mono {A} (m : M A) (Q Q' : A → World → Prop) w :
  wp m Q w → (∀ a w', Q a w' → Q' a w') → wp m Q' w.
Proof. intros Hm HQ w' l a Hrun. by eapply HQ, Hm. Qed.

(** A loop keeps what every round keeps. *)
Lemma wp_foldM {A S} (body : S → A → M S) (I : S → World → Prop) l s w :
  I s w →
  (∀ s x w, x ∈ l → I s w → wp (body s x) I w) →
  wp (foldM body l s) I w.
Proof.
  revert s w. induction l as [|x l IH]; intros s w HI Hbody; simpl.
  - by apply wp_ret.
  - apply wp_bind. eapply wp_mono; [apply Hbody; [left|done]|].
    intros s' w' HI'. apply IH; [done|].
    intros ?????. apply Hbody; [by right|done].
Qed.

Ltac wp_step :=
  lazymatch goal with
  | |- wp (mbind _ _) _ _ => apply wp_bind
  | |- wp (mret _) _ _ => apply wp_ret
  | |- wp (deref _) _ _ => apply wp_deref; intros ? ?
  | |- wp (store _ _) _ _ => apply wp_store
  | |- wp (alloc _) _ _ => apply wp_alloc
  | |- wp (set_vrt _) _ _ => apply wp_set_vrt
  | |- wp (raise _) _ _ => apply wp_raise
  | |- wp (lift _) _ _ => apply wp_lift; intros ? ?
  | |- wp get_self _ _ => apply wp_get_self
  | |- wp (logger _ _) _ _ => apply wp_logger
  | |- wp (emit _) _ _ => apply wp_emit
  | |- wp (match ?x with _ => _ end) _ _ => destruct x eqn:?
  end; cbv beta; cbn [heap self raw vrt addedBands].

Lemma bind_inv {A B} (m : M A) (k : A → M B) w w' l b :
  (m ≫= k) w = (w', l, inr b) →
  ∃ w1 l1 a l2, m w = (w1, l1, inr a) ∧ k a w1 = (w', l2, inr b) ∧ l = l1 ++ l2.
Proof.
  unfold mbind, M_bind. intros Hrun.
  destruct (m w) as [[w1 l1] [e|a]]; [done|].
  destruct (k a w1) as [[w2 l2] r] eqn:E. simplify_eq. by eexists _, _, _, _.
Qed.

Lemma bind_run {A B} (m : M A) (k : A → M B) w w1 l1 a :
  m w = (w1, l1, inr a) →
  (m ≫= k) w = ((k a w1).1.1, l1 ++ (k a w1).1.2, (k a w1).2).
Proof.
  unfold mbind, M_bind. intros ->. by destruct (k a w1) as [[??]?].
Qed.

Lemma append_std_ne (b : string) : b +:+ "_std" ≠ b.
Proof. induction b as [|a b IH]; simpl; [done|]. intros [= Hb]. by apply IH. Qed.

(** Rules for [keeps_wf]. *)

Lemma keeps_wf_ret {A} (a : A) : keeps_wf (mret a).
Proof. intros w w' l r Hwf Hrun. unfold mret, M_ret in Hrun. by simplify_eq. Qed.

Lemma keeps_wf_raise {A} e : keeps_wf (@raise A e).
Proof. intros w w' l r Hwf Hrun. unfold raise in Hrun. by simplify_eq. Qed.

Lemma keeps_wf_lift {A} (x : Error + A) : keeps_wf (lift x).
Proof. intros w w' l r Hwf Hrun. unfold lift in Hrun. by simplify_eq. Qed.

Lemma keeps_wf_get_self : keeps_wf get_self.
Proof. intros w w' l r Hwf Hrun. unfold get_self in Hrun. by simplify_eq. Qed.

Lemma keeps_wf_logger lvl msg : keeps_wf (logger lvl msg).
Proof. intros w w' l r Hwf Hrun. unfold logger in Hrun. by simplify_eq. Qed.

Lemma keeps_wf_emit l0 : keeps_wf (emit l0).
Proof. intros w w' l r Hwf Hrun. unfold emit in Hrun. by simplify_eq. Qed.

Lemma keeps_wf_deref h : keeps_wf (deref h).
Proof.
  intros w w' l r Hwf Hrun. unfold deref in Hrun.
  destruct (heap w !! h); by simplify_eq.
Qed.

Lemma keeps_wf_store h v : keeps_wf (store h v).
Proof.
  intros w w' l r (Hne & Hr & Hv) Hrun. unfold store in Hrun. simplify_eq.
  unfold wf, live in *. cbn [raw self heap vrt].
  split_and!; [done|..]; by apply list_lookup_insert_is_Some.
Qed.

Lemma keeps_wf_alloc v : keeps_wf (alloc v).
Proof.
  intros w w' l r (Hne & [rv Hr] & [wv Hv]) Hrun. unfold alloc in Hrun.
  simplify_eq. unfold wf, live. cbn [raw self heap vrt].
  split_and!; [done|..]; eexists; by apply lookup_app_l_Some.
Qed.

Lemma keeps_wf_set_addedBands k h : keeps_wf (set_addedBands k h).
Proof.
  intros w w' l r Hwf Hrun. unfold set_addedBands in Hrun. by simplify_eq.
Qed.

Lemma keeps_wf_bind {A B} (m : M A) (k : A → M B) :
  keeps_wf m → (∀ a, keeps_wf (k a)) → keeps_wf (m ≫= k).
Proof.
  intros Hm Hk w w' l r Hwf Hrun. unfold mbind, M_bind in Hrun.
  destruct (m w) as [[w1 l1] [e|a]] eqn:E.
  - simplify_eq. by eapply Hm.
  - destruct (k a w1) as [[w2 l2] r2] eqn:E2. simplify_eq.
    eapply Hk; [|done]. by eapply Hm.
Qed.

(** A new object becomes the working tree: it is not the raw tree. *)
Lemma keeps_wf_alloc_set_vrt v : keeps_wf (h ← alloc v; set_vrt h).
Proof.
  intros w w' l r (Hne & [rv Hr] & [wv Hv]) Hrun.
  unfold mbind, M_bind, alloc, set_vrt in Hrun. simplify_eq.
  pose proof (lookup_lt_Some _ _ _ Hr).
  unfold wf, live. cbn [raw self heap vrt]. split_and!.
  - lia.
  - eexists. by apply lookup_app_l_Some.
  - rewrite list_lookup_middle by done. by eexists.
Qed.

Lemma keeps_wf_reset r0 : keeps_wf (h ← copy r0; set_vrt h).
Proof.
  intros w w' l r Hwf Hrun. unfold copy in Hrun.
  unfold mbind at 1 2, M_bind at 1 2 in Hrun. unfold deref at 1 in Hrun.
  destruct (heap w !! r0) as [v|]; [|by simplify_eq].
  apply (keeps_wf_alloc_set_vrt v w w' l r Hwf).
  unfold mbind, M_bind. by destruct (alloc v w) as [[??][?|?]].
Qed.

Lemma keeps_wf_foldM {A S} (body : S → A → M S) l s :
  (∀ s x, keeps_wf (body s x)) → keeps_wf (foldM body l s).
Proof.
  intros Hbody. revert s. induction l as [|x l IH]; intros s; simpl.
  - apply keeps_wf_ret.
  - apply keeps_wf_bind; [apply Hbody | apply IH].
Qed.

Ltac keeps_wf_step :=
  lazymatch goal with
  | |- keeps_wf (mbind (λ h, set_vrt h) (copy _)) => apply keeps_wf_reset
  | |- keeps_wf (mbind (λ h, set_vrt h) (alloc _)) => apply keeps_wf_alloc_set_vrt
  | |- keeps_wf (mbind _ _) => apply keeps_wf_bind; [|intros ?]
  | |- keeps_wf (mret _) => apply keeps_wf_ret
  | |- keeps_wf (raise _) => apply keeps_wf_raise
  | |- keeps_wf (lift _) => apply keeps_wf_lift
  | |- keeps_wf get_self => apply keeps_wf_get_self
  | |- keeps_wf (logger _ _) => apply keeps_wf_logger
  | |- keeps_wf (emit _) => apply keeps_wf_emit
  | |- keeps_wf (deref _) => apply keeps_wf_deref
  | |- keeps_wf (store _ _) => apply keeps_wf_store
  | |- keeps_wf (alloc _) => apply keeps_wf_alloc
  | |- keeps_wf (set_addedBands _ _) => apply keeps_wf_set_addedBands
  | |- keeps_wf (foldM _ _ _) => apply keeps_wf_foldM; intros ? ?
  | |- keeps_wf (match ?x with _ => _ end) => destruct x
  end.

(** ** resize and reproject *)

Section Resize.

Lemma resize_reset_path factor width height method :
  is_reset factor width height = true →
  resize factor width height method =
    (s ← get_self; h ← copy (raw s); set_vrt h).
Proof. unfold resize, is_reset. by intros ->. Qed.

Lemma resize_raw_untouched w factor width height method w' l r :
  wf w → resize factor width height method w = (w', l, r) → raw_untouched w w'.
Proof.
  intros (Hne & [rv Hr] & [wv Hw]) Hrun. unfold resize in Hrun.
  destruct (_ && _) in Hrun.
  - rewrite (reset_live _ _ Hr) in Hrun. simplify_eq. split; [done|]. simpl.
    apply lookup_app_l. by eapply lookup_lt_Some.
  - destruct width, height; munfold; rewrite ?Hw in Hrun;
      cbv beta iota in Hrun;
      repeat (case_match; simplify_eq/=); try (by split).
    all: split; [done|]; simpl; by rewrite list_lookup_insert_ne.
Qed.

Lemma reproject_raw_untouched `{Engine} w dstDomain resamplingAlg w' l r :
  wf w → reproject dstDomain resamplingAlg w = (w', l, r) → raw_untouched w w'.
Proof.
  intros (Hne & [rv Hr] & [wv Hw]) Hrun. unfold reproject in Hrun.
  destruct dstDomain as [d|].
  - munfold.
    repeat (case_match; simplify_eq/=); try (by split).
    all: split; [done|]; simpl; apply lookup_app_l; by eapply lookup_lt_Some.
  - rewrite (reset_live _ _ Hr) in Hrun. simplify_eq. split; [done|]. simpl.
    apply lookup_app_l. by eapply lookup_lt_Some.
Qed.

(** C4: every call of resize and every call of reproject, returning or
    raising, leaves the raw tree as it was: the object still refers to the
    same raw tree, and its size, geotransform, GCPs, band list and metadata
    are identical before and after the call. *)
Theorem resize_reproject_leave_raw `{Engine} (w : World) :
  wf w →
  (∀ factor width height method w' l r,
     resize factor width height method w = (w', l, r) → raw_untouched w w') ∧
  (∀ dstDomain resamplingAlg w' l r,
     reproject dstDomain resamplingAlg w = (w', l, r) → raw_untouched w w').
Proof.
  intros Hwf. split; intros.
  - by eapply resize_raw_untouched.
  - by eapply reproject_raw_untouched.
Qed.

(** Both methods keep the raw and the working tree apart. *)
Lemma resize_wf factor width height method :
  keeps_wf (resize factor width height method).
Proof.
  unfold resize, float_div.
  destruct (_ && _); [repeat keeps_wf_step|].
  repeat first [keeps_wf_step | destruct (_ =? _) | destruct (negb _)].
Qed.

Lemma reproject_wf `{Engine} dstDomain resamplingAlg :
  keeps_wf (reproject dstDomain resamplingAlg).
Proof. unfold reproject. cbv zeta. repeat keeps_wf_step. Qed.

(** C10: resize with factor 1 and neither width nor height takes the reset
    path for every value of method: the working tree is replaced by a fresh
    copy of the raw tree, the raw tree stays, nothing is raised and the
    method argument is not looked at. *)
Theorem resize_reset_any_method (w : World) (rv : VRT) (factor : Q)
    (method : string) :
  heap w !! raw (self w) = Some rv →
  (factor == 1)%Q →
  resize factor None None method w =
    (mkWorld (heap w ++ [with_fileName (vsi_name (length (heap w))) rv])
       (mkNansat (raw (self w)) (length (heap w)) (addedBands (self w))),
     [], inr tt).
Proof.
  intros Hr Hf. rewrite resize_reset_path.
  - by apply reset_live.
  - unfold is_reset. apply Qeq_bool_iff in Hf. by rewrite Hf.
Qed.

Lemma method_ok_iff method :
  method_ok method = true ↔ method = "average" ∨ method = "subsample".
Proof.
  unfold method_ok. rewrite orb_true_iff, !String.eqb_eq. done.
Qed.

(** What a call that is not the reset call does, step by step. *)
Lemma resize_run w v factor width height method :
  heap w !! vrt (self w) = Some v →
  is_reset factor width height = false →
  sizes_ok width height v →
  resize factor width height method w =
    if method_ok method
    then (mkWorld
            (<[vrt (self w) :=
                 resize_edit (effective_factor factor width height v) method v]>
               (heap w))
            (self w),
          [(INFO, "New size/factor")], inr tt)
    else (w, [], inl (OptionError "method should be 'average' or 'subsample'")).
Proof.
  intros Hv Hreset [HX HY]. unfold resize, is_reset in *. rewrite Hreset.
  assert (HX' : is_Some width → (rasterXSize v =? 0) = false)
    by (intros ?; apply Z.eqb_neq; auto).
  assert (HY' : is_Some height → (rasterYSize v =? 0) = false)
    by (intros ?; apply Z.eqb_neq; auto).
  destruct width as [wd|], height as [ht|]; munfold;
    destruct (method_ok method); simpl;
    repeat (first [rewrite Hv | rewrite HX' by (by eexists)
                  | rewrite HY' by (by eexists)]; cbv beta iota);
    done.
Qed.

(** C6, amended: for every call that requests an actual resize, a method
    outside {average, subsample} makes the call raise OptionError before
    anything is written, so that the working and the raw tree are unchanged;
    the methods average and subsample are accepted.  (The factor is computed
    from the width or the height before the method is looked at; the
    statement is for calls in which that division is defined.) *)
Theorem resize_method_validation (w : World) (v : VRT) (factor : Q)
    (width height : option Z) (method : string) :
  heap w !! vrt (self w) = Some v →
  is_reset factor width height = false →
  sizes_ok width height v →
  (method ≠ "average" → method ≠ "subsample" →
   ∃ msg, resize factor width height method w = (w, [], inl (OptionError msg))) ∧
  (method = "average" ∨ method = "subsample" →
   ∃ w' l, resize factor width height method w = (w', l, inr tt)).
Proof.
  intros Hv Hreset Hsz. rewrite (resize_run _ _ _ _ _ _ Hv Hreset Hsz).
  split.
  - intros H1 H2. destruct (method_ok method) eqn:E; [|by eexists].
    apply method_ok_iff in E as [?|?]; done.
  - intros Hm. apply method_ok_iff in Hm as ->. by do 2 eexists.
Qed.

Lemma resize_gcp_pixel f X Y g :
  (gcpPixel (resize_gcp f X Y g) == Qmin (gcpPixel g * f) (inject_Z X))%Q.
Proof.
  unfold resize_gcp. simpl.
  destruct (Qle_bool (gcpPixel g * f) (inject_Z X)) eqn:E.
  - apply Qle_bool_iff in E. symmetry. by apply Q.min_l.
  - symmetry. apply Q.min_r. apply Qlt_le_weak, Qnot_le_lt.
    intros Hle. apply Qle_bool_iff in Hle. congruence.
Qed.

Lemma resize_gcp_line f X Y g :
  (gcpLine (resize_gcp f X Y g) == Qmin (gcpLine g * f) (inject_Z Y))%Q.
Proof.
  unfold resize_gcp. simpl.
  destruct (Qle_bool (gcpLine g * f) (inject_Z Y)) eqn:E.
  - apply Qle_bool_iff in E. symmetry. by apply Q.min_l.
  - symmetry. apply Q.min_r. apply Qlt_le_weak, Qnot_le_lt.
    intros Hle. apply Qle_bool_iff in Hle. congruence.
Qed.


Lemma triple_eta {A B C} (x : A * B * C) : x = (x.1.1, x.1.2, x.2).
Proof. by destruct x as [[??]?]. Qed.

Lemma sample_world_wf : wf sample_world.
Proof. split_and!; [done | by eexists | by eexists]. Qed.

Lemma resize_reproject_leave_raw_witness :
  wf sample_world ∧
  raw_untouched sample_world
    (resize 2 None None "average" sample_world).1.1 ∧
  raw_untouched sample_world
    (@reproject sample_engine (Some 1%nat) 0 sample_world).1.1.
Proof.
  assert (Hwf : wf sample_world)
    by (split_and!; [done | by eexists | by eexists]).
  destruct (@resize_reproject_leave_raw sample_engine sample_world Hwf)
    as [H1 H2].
  split_and!; [done | eapply H1 | eapply H2]; apply triple_eta.
Defined.

Lemma resize_reset_any_method_witness :
  heap sample_world !! raw (self sample_world)
    = Some (with_fileName (vsi_name 0) (sample_tree 4 4 [Some "A"])) ∧
  resize 1 None None "no such method" sample_world =
    (mkWorld
       (heap sample_world ++
          [with_fileName (vsi_name 2) (sample_tree 4 4 [Some "A"])])
       (mkNansat 0%nat 2%nat ∅),
     [], inr tt).
Proof.
  split; [reflexivity|].
  apply (resize_reset_any_method sample_world
           (with_fileName (vsi_name 0) (sample_tree 4 4 [Some "A"])) 1
           "no such method"); reflexivity.
Defined.

(** The claim C6 fails at the method nearest, which the specification accepts
    and the code rejects, and at the method subsample, which is outside the
    set of the specification and which the code accepts. *)
Lemma resize_method_counterexample :
  spec_method_ok "nearest" = true ∧
  resize 2 None None "nearest" sample_world =
    (sample_world, [],
     inl (OptionError "method should be 'average' or 'subsample'")) ∧
  spec_method_ok "subsample" = false ∧
  (resize 2 None None "subsample" sample_world).2 = inr tt.
Proof. split_and!; reflexivity. Qed.

Lemma resize_method_validation_witness :
  heap sample_world !! vrt (self sample_world)
    = Some (with_fileName (vsi_name 1) (sample_tree 4 4 [Some "A"])) ∧
  is_reset 2 None None = false ∧
  (∃ msg, resize 2 None None "nearest" sample_world
          = (sample_world, [], inl (OptionError msg))) ∧
  (∃ w' l, resize 2 None None "subsample" sample_world = (w', l, inr tt)).
Proof.
  split; [reflexivity|]. split; [reflexivity|].
  destruct (resize_method_validation sample_world
              (with_fileName (vsi_name 1) (sample_tree 4 4 [Some "A"]))
              2 None None "nearest") as [H1 _];
    [reflexivity | reflexivity | split; intros [? [=]] |].
  destruct (resize_method_validation sample_world
              (with_fileName (vsi_name 1) (sample_tree 4 4 [Some "A"]))
              2 None None "subsample") as [_ H2];
    [reflexivity | reflexivity | split; intros [? [=]] |].
  split; [apply H1; discriminate | apply H2; by right].
Defined.



End Resize.

(** ** add_band *)

Section AddBand.

Context `{Engine}.

(** The merge of the parameters of the caller over the inherited metadata:
    the keys of the caller win. *)
Lemma lookup_dict_update (p q : gmap string string) k :
  dict_update p q !! k = match q !! k with Some x => Some x | None => p !! k end.
Proof.
  unfold dict_update. rewrite lookup_union. destruct (q !! k), (p !! k); done.
Qed.

Lemma dict_update_empty (q : gmap string string) : dict_update ∅ q = q.
Proof. unfold dict_update. apply (right_id_L ∅ (∪)). Qed.

(** What [add_band(array=a, parameters=p)] does, step by step.  [pre] is the
    tree that wraps the array at its native shape when it has to be resampled;
    [k] is the handle of the tree that backs the new band. *)
Lemma add_band_array_run w rv wv a p bandID alg :
  heap w !! raw (self w) = Some rv →
  heap w !! vrt (self w) = Some wv →
  let L := length (heap w) in
  let fits := bool_decide (shape a = shape_of wv) in
  let pre := if fits then []
             else [with_fileName (vsi_name L) (VRT_from_array a)] in
  let a' := if fits then a
            else resized a (shape_of wv).2 (shape_of wv).1 alg in
  let k := (L + length pre)%nat in
  let p2add := default ∅ p in
  let rv' := with_bands (vrtBands rv ++ [new_band (mkSrc (vsi_name k) 1) p2add]) rv in
  add_band None None bandID (Some a) p alg w =
    (mkWorld
       (<[raw (self w) := rv']>
          (heap w ++ pre ++ [with_fileName (vsi_name k) (VRT_from_array a')])
        ++ [with_fileName (vsi_name (S k)) rv'])
       (mkNansat (raw (self w)) (S k)
          (<[default "" (p2add !! "BandName") := k]> (addedBands (self w)))),
     [], inr tt).
Proof.
  intros Hr Hw L fits pre a' k p2add rv'.
  pose proof (lookup_lt_Some _ _ _ Hr) as Hlt.
  unfold add_band, _create_band. munfold. mred. rewrite Hw. mred.
  subst pre a' k fits. destruct (bool_decide (shape a = shape_of wv)); mred.
  - rewrite (list_lookup_middle (heap w) [] _ (length (heap w)) eq_refl). mred.
    rewrite (lookup_app_l (heap w)), Hr by done. mred.
    rewrite list_lookup_insert_eq by (rewrite length_app; simpl; lia). mred.
    rewrite length_insert, length_app, !dict_update_empty.
    subst rv' p2add L. simpl.
    rewrite !Nat.add_0_r, Nat.add_1_r. done.
  - rewrite (list_lookup_middle (heap w ++ [_]) [] _ (length (heap w ++ [_])) eq_refl).
    mred.
    rewrite <- !app_assoc. cbn [app].
    rewrite (lookup_app_l (heap w)), Hr by done. mred.
    rewrite list_lookup_insert_eq by (rewrite length_app; simpl; lia). mred.
    rewrite length_insert, !length_app, !dict_update_empty.
    subst rv' p2add L. simpl.
    replace (length (heap w) + 2)%nat with (S (length (heap w) + 1)) by lia.
    done.
Qed.

Lemma new_band_BandName (src : Src) (dst : gmap string string) :
  bandMeta (new_band src dst) !! "BandName" = dst !! "BandName".
Proof. unfold new_band. simpl. by rewrite !lookup_insert_ne. Qed.

(** The metadata of the new descriptor: the metadata handed to
    [_create_band], and the source pair. *)
Lemma new_band_metadata (src : Src) (dst : gmap string string) key :
  key ≠ "SourceFilename" → key ≠ "SourceBand" →
  bandMeta (new_band src dst) !! key = dst !! key.
Proof. intros. unfold new_band. simpl. by rewrite !lookup_insert_ne. Qed.

(** [add_band(array=a, parameters=p)] on an object whose raw tree has the
    bands [vrtBands rv]: the call returns; the raw tree is the same object
    and has exactly one more descriptor, which carries the metadata [p]; the
    working tree is a new object, a copy of the raw tree; the tree that backs
    the band is kept in [addedBands]. *)
Lemma add_band_array_spec w rv wv a p bandID alg :
  heap w !! raw (self w) = Some rv →
  heap w !! vrt (self w) = Some wv →
  ∃ w' k rv',
    add_band None None bandID (Some a) (Some p) alg w = (w', [], inr tt) ∧
    raw (self w') = raw (self w) ∧
    heap w' !! raw (self w') = Some rv' ∧
    rv' = with_bands (vrtBands rv ++ [new_band (mkSrc (vsi_name k) 1) p]) rv ∧
    RasterCount rv' = RasterCount rv + 1 ∧
    (length (heap w) ≤ vrt (self w'))%nat ∧
    heap w' !! vrt (self w') = Some (with_fileName (vsi_name (vrt (self w'))) rv') ∧
    addedBands (self w') !! default "" (p !! "BandName") = Some k ∧
    heap w' !! k =
      Some (with_fileName (vsi_name k)
              (VRT_from_array
                 (if bool_decide (shape a = shape_of wv) then a
                  else resized a (shape_of wv).2 (shape_of wv).1 alg))) ∧
    addedBands (self w') =
      <[default "" (p !! "BandName") := k]> (addedBands (self w)) ∧
    (length (heap w) ≤ k)%nat ∧
    length (heap w') = S (vrt (self w')) ∧
    (∀ h, (h < length (heap w))%nat → h ≠ raw (self w) →
          heap w' !! h = heap w !! h).
Proof.
  intros Hr Hw. pose proof (lookup_lt_Some _ _ _ Hr) as Hlt.
  rewrite (add_band_array_run _ _ _ _ _ _ _ Hr Hw). cbv zeta. simpl default.
  set (pre := if bool_decide (shape a = shape_of wv) then [] else [_]).
  set (k := (length (heap w) + length pre)%nat).
  eexists _, k, _. split; [done|]. cbn [raw self heap vrt addedBands].
  assert (Hlen : length (<[raw (self w) :=
              with_bands (vrtBands rv ++ [new_band (mkSrc (vsi_name k) 1) p]) rv]>
              (heap w ++ pre ++
               [with_fileName (vsi_name k)
                  (VRT_from_array
                     (if bool_decide (shape a = shape_of wv) then a
                      else resized a (shape_of wv).2 (shape_of wv).1 alg))]))
          = S k).
  { rewrite length_insert, !length_app. simpl. subst k. lia. }
  split_and!.
  - done.
  - rewrite lookup_app_l by (rewrite Hlen; subst k; lia).
    apply list_lookup_insert_eq. rewrite length_app. lia.
  - done.
  - unfold RasterCount. simpl. rewrite length_app. simpl. lia.
  - subst k. lia.
  - rewrite <- Hlen at 1. by rewrite list_lookup_middle.
  - apply lookup_insert_eq.
  - rewrite lookup_app_l by (rewrite Hlen; lia).
    rewrite list_lookup_insert_ne by (subst k; lia).
    rewrite app_assoc. rewrite list_lookup_middle by (rewrite length_app; done).
    done.
  - done.
  - subst k. lia.
  - rewrite length_app, Hlen. simpl. lia.
  - intros h Hh Hne.
    rewrite lookup_app_l by (rewrite Hlen; subst k; lia).
    rewrite list_lookup_insert_ne by done. by apply lookup_app_l.
Qed.

(** After the call the name of the new band resolves to the last ordinal,
    provided every band that the raw tree had carries a name. *)
Lemma add_band_array_resolve w rv wv a p s bandID alg w' l r :
  heap w !! raw (self w) = Some rv →
  heap w !! vrt (self w) = Some wv →
  Forall named (vrtBands rv) →
  p !! "BandName" = Some s →
  add_band None None bandID (Some a) (Some p) alg w = (w', l, r) →
  _get_band_number (BStr s) w' = (w', [], inr (RasterCount rv + 1)).
Proof.
  intros Hr Hw Hn Hp Hrun.
  destruct (add_band_array_spec w rv wv a p bandID alg Hr Hw)
    as (w1 & k & rv' & Hrun' & _ & _ & -> & _ & _ & Hv & _).
  rewrite Hrun in Hrun'. simplify_eq.
  rewrite (get_band_number_run _ _ _ Hv). do 2 f_equal.
  unfold RasterCount.
  eapply (band_number_of_name_last _ s (vrtBands rv) _ []);
    [simpl; reflexivity | done | | done | done].
  unfold carries. by rewrite new_band_BandName.
Qed.

(** C5: add_band(array=a, parameters=p) on an object with k bands, followed
    by resolving the BandName of the new band.  When a band that the raw tree
    already had carries no BandName, the call itself returns and appends the
    descriptor, but resolving the name of the new band raises KeyError: it
    does not return k+1. *)
Theorem add_band_resolve_KeyError (w : World) (rv wv : VRT) (a : ndarray)
    (p : gmap string string) (s : string) (b : Band) (bandID : BandID) (alg : Z)
    (w' : World) (l : list (LogLevel * string)) (r : Error + ()) :
  heap w !! raw (self w) = Some rv →
  heap w !! vrt (self w) = Some wv →
  b ∈ vrtBands rv → bandMeta b !! "BandName" = None →
  p !! "BandName" = Some s →
  add_band None None bandID (Some a) (Some p) alg w = (w', l, r) →
  r = inr tt ∧
  _get_band_number (BStr s) w' = (w', [], inl (KeyError "BandName")).
Proof.
  intros Hr Hw Hin Hb Hp Hrun.
  destruct (add_band_array_spec w rv wv a p bandID alg Hr Hw)
    as (w1 & k & rv' & Hrun' & _ & _ & -> & _ & _ & Hv & _).
  rewrite Hrun in Hrun'. simplify_eq. split; [done|].
  rewrite (get_band_number_run _ _ _ Hv). do 2 f_equal.
  apply (band_number_of_unnamed _ s b); [|done].
  simpl. apply elem_of_app. by left.
Qed.

(** Adding a band keeps the raw and the working tree apart. *)
Lemma add_band_wf fileName_ vrt_ bandID array parameters alg :
  keeps_wf (add_band fileName_ vrt_ bandID array parameters alg).
Proof. unfold add_band, _create_band. cbv zeta. repeat keeps_wf_step. Qed.

Lemma fresh_pair_wf (hp : list VRT) (v1 v2 : VRT) ab :
  wf (mkWorld ((hp ++ [v1]) ++ [v2])
        (mkNansat (length hp) (length (hp ++ [v1])) ab)).
Proof.
  unfold wf, live. cbn [raw self heap vrt]. rewrite length_app. simpl.
  split_and!.
  - lia.
  - rewrite lookup_app_l by (rewrite length_app; simpl; lia).
    rewrite list_lookup_middle by done. by eexists.
  - rewrite list_lookup_middle by (rewrite length_app; done). by eexists.
Qed.

(** The constructor leaves an object whose raw and working tree are two
    different objects. *)
Lemma init_wf fileName_ mapperName domain array parameters w0 w l :
  __init__ fileName_ mapperName domain array parameters w0 = (w, l, inr tt) →
  wf w.
Proof.
  unfold __init__, set_raw_vrt. intros Hrun.
  destruct (_ && _); [by unfold raise in Hrun|].
  destruct (negb _).
  - destruct (_get_mapper fileName_ mapperName) as [v|];
      [|by unfold raise in Hrun].
    munfold. mred. cbv beta iota in Hrun. cbn [heap self] in Hrun.
    rewrite (list_lookup_middle (heap w0) [] _ (length (heap w0)) eq_refl) in Hrun.
    cbv beta iota in Hrun. simplify_eq. apply fresh_pair_wf.
  - destruct domain as [d|]; [|by unfold raise in Hrun].
    apply bind_inv in Hrun as (w1 & l1 & dv & l2 & Hd & Hrun & _).
    apply bind_inv in Hrun as (w2 & l3 & r & l4 & Hr & Hrun & _).
    apply bind_inv in Hrun as (w3 & l5 & h & l6 & Hh & Hrun & _).
    apply bind_inv in Hrun as (w4 & l7 & [] & l8 & Hs & Hrun & _).
    unfold deref in Hd. destruct (heap w0 !! d); [|done].
    unfold alloc in Hr, Hh. simplify_eq. cbn [heap self] in *.
    destruct array as [a|].
    + eapply add_band_wf; [|exact Hrun]. apply fresh_pair_wf.
    + unfold mret, M_ret in Hrun. simplify_eq. apply fresh_pair_wf.
Qed.

End AddBand.

Lemma add_band_resolve_KeyError_witness :
  heap sample_world_unnamed !! raw (self sample_world_unnamed)
    = Some (with_fileName (vsi_name 0) (sample_tree 4 4 [Some "A"; None])) ∧
  bandMeta (mkBand "Float32" ComplexSource "in.nc" 1 ∅) !! "BandName" = None ∧
  ({[ "BandName" := "B" ]} : gmap string string) !! "BandName" = Some "B" ∧
  (@add_band sample_engine None None (BInt 1) (Some sample_ones)
     (Some {[ "BandName" := "B" ]}) 1 sample_world_unnamed).2 = inr tt ∧
  _get_band_number (BStr "B")
    (@add_band sample_engine None None (BInt 1) (Some sample_ones)
       (Some {[ "BandName" := "B" ]}) 1 sample_world_unnamed).1.1
  = ((@add_band sample_engine None None (BInt 1) (Some sample_ones)
        (Some {[ "BandName" := "B" ]}) 1 sample_world_unnamed).1.1,
     [], inl (KeyError "BandName")).
Proof.
  split; [reflexivity|]. split; [reflexivity|]. split; [reflexivity|].
  apply (@add_band_resolve_KeyError sample_engine sample_world_unnamed
           (with_fileName (vsi_name 0) (sample_tree 4 4 [Some "A"; None]))
           (with_fileName (vsi_name 1) (sample_tree 4 4 [Some "A"; None]))
           sample_ones {[ "BandName" := "B" ]} "B"
           (mkBand "Float32" ComplexSource "in.nc" 1 ∅) (BInt 1) 1 _
           (@add_band sample_engine None None (BInt 1) (Some sample_ones)
              (Some {[ "BandName" := "B" ]}) 1 sample_world_unnamed).1.2).
  - reflexivity.
  - reflexivity.
  - apply list_elem_of_further, list_elem_of_here.
  - reflexivity.
  - reflexivity.
  - apply triple_eta.
Defined.

(** The scenario of the specification: a tree with the band A, size 4×4;
    adding an array of ones under the name B gives two bands in the raw and
    in the working tree, the size stays, and B resolves to 2. *)
Example add_band_scenario :
  let w' := (@add_band sample_engine None None (BInt 1) (Some sample_ones)
               (Some {[ "BandName" := "B" ]}) 1 sample_world).1.1 in
  RasterCount <$> heap w' !! raw (self w') = Some 2 ∧
  RasterCount <$> heap w' !! vrt (self w') = Some 2 ∧
  shape_of <$> heap w' !! vrt (self w') = Some (4, 4) ∧
  (_get_band_number (BStr "B") w').2 = inr 2.
Proof. split_and!; reflexivity. Qed.

(** ** export *)

Section ExportTree.

Context `{Engine}.

Lemma narrow_cases_eq t : narrow t = narrow_cases t.
Proof.
  unfold narrow, netcdf_dataType, narrow_cases.
  repeat match goal with
    | |- context [String.eqb t ?k] =>
        destruct (String.eqb_spec t k) as [->|?]; [reflexivity|]
    end.
  by rewrite !lookup_insert_ne, lookup_singleton_ne.
Qed.

Lemma export_band_metadata_dataType rm i b :
  dataType (export_band_metadata rm i b).2 = dataType b.
Proof.
  unfold export_band_metadata.
  destruct (bandMeta b !! "BandName"); by destruct (remove_metadata _ _ _ _).
Qed.

Lemma export_bands_metadata_dataType rm i l :
  dataType <$> (export_bands_metadata rm i l).2 = dataType <$> l.
Proof.
  revert i. induction l as [|b l IH]; intros i; [done|]. simpl.
  specialize (IH (i + 1)).
  pose proof (export_band_metadata_dataType rm i b) as Hb.
  destruct (export_band_metadata rm i b), (export_bands_metadata rm (i + 1) l).
  simpl in *. f_equal; [exact Hb | exact IH].
Qed.

Lemma keeps_dataTypes_refl ev : keeps_dataTypes ev ev.
Proof. by intros i t. Qed.

Lemma keeps_dataTypes_trans ev1 ev2 ev3 :
  keeps_dataTypes ev1 ev2 → keeps_dataTypes ev2 ev3 → keeps_dataTypes ev1 ev3.
Proof. intros H1 H2 i t Hi. by apply H2, H1. Qed.

Lemma keeps_dataTypes_vrtMeta ev m : keeps_dataTypes ev (with_vrtMeta m ev).
Proof. by intros i t. Qed.

Lemma keeps_dataTypes_snoc ev b :
  keeps_dataTypes ev (with_bands (vrtBands ev ++ [b]) ev).
Proof.
  intros i t Hi. simpl.
  destruct (vrtBands ev !! i) as [b'|] eqn:E; [|done].
  by rewrite (lookup_app_l_Some _ _ _ _ E).
Qed.

Lemma keeps_dataTypes_metadata ev rm bs l :
  export_bands_metadata rm 0 (vrtBands ev) = (l, bs) →
  keeps_dataTypes ev (with_bands bs ev).
Proof.
  intros Hbs i t Hi. simpl.
  pose proof (export_bands_metadata_dataType rm 0 (vrtBands ev)) as Hdt.
  rewrite Hbs in Hdt. simpl in Hdt.
  rewrite <- list_lookup_fmap in *. by rewrite Hdt.
Qed.

(** The rest of [export] keeps the element type of every band that the
    export tree has when it is narrowed. *)
Lemma export_finish_dataTypes w e ev rm :
  heap w !! e = Some ev →
  wp (export_finish e rm)
    (λ _ w', ∃ ev', heap w' !! e = Some ev' ∧ keeps_dataTypes ev ev') w.
Proof.
  intros He. pose proof (lookup_lt_Some _ _ _ He) as Hlt.
  unfold export_finish, _create_band.
  repeat (wp_step; cbn [heap self] in *;
          repeat match goal with
            | H : <[e:=_]> _ !! e = Some _ |- _ =>
                rewrite list_lookup_insert_eq in H
                  by (by rewrite ?length_insert); simplify_eq
            | H : heap w !! e = Some ?x |- _ =>
                assert_fails (constr_eq x ev); rewrite He in H; simplify_eq
            end).
  all: eexists; split;
    [apply list_lookup_insert_eq; by rewrite ?length_insert|].
  all: repeat first
    [ apply keeps_dataTypes_refl
    | eapply keeps_dataTypes_trans; [|apply keeps_dataTypes_vrtMeta]
    | eapply keeps_dataTypes_trans; [|eapply keeps_dataTypes_metadata; eassumption]
    | eapply keeps_dataTypes_trans; [|apply keeps_dataTypes_snoc] ].
Qed.

Lemma export_narrow_inv e w w' l :
  export_narrow e w = (w', l, inr tt) →
  ∃ ev, heap w !! e = Some ev ∧
        w' = mkWorld (<[e := with_bands (narrow_band <$> vrtBands ev) ev]> (heap w))
               (self w).
Proof.
  unfold export_narrow. munfold. intros Hrun.
  destruct (heap w !! e) as [ev|]; [|done]. simplify_eq. by eexists.
Qed.

(** C9, amended: for every export call that returns, each band of the
    export tree as it is built has its element type mapped through the
    table before the output is written: UInt16 and CInt16 become Int16,
    UInt32 becomes Int32, CFloat32 becomes Float32, CFloat64 becomes Float64,
    and every other element type - Byte and CInt32 among them - is left
    unchanged. *)
Theorem export_narrows_dataTypes (w : World) (bands_ : option (list BandID))
    (rmMetadata : list string) (w2 : World) (l : list (LogLevel * string))
    (e : handle) :
  export bands_ rmMetadata w = (w2, l, inr e) →
  ∃ w1 l1 ev ev',
    export_build bands_ w = (w1, l1, inr e) ∧
    heap w1 !! e = Some ev ∧
    heap w2 !! e = Some ev' ∧
    ∀ (i : nat) b, vrtBands ev !! i = Some b →
      dataType <$> vrtBands ev' !! i = Some (narrow_cases (dataType b)).
Proof.
  unfold export. intros Hrun.
  apply bind_inv in Hrun as (w1 & l1 & e0 & la & Hb & Hrun & _).
  apply bind_inv in Hrun as (wn & ln & [] & lb & Hn & Hrun & _).
  apply bind_inv in Hrun as (wk & lf & [] & lc & Hf & Hrun & _).
  unfold mret, M_ret in Hrun. simplify_eq.
  apply export_narrow_inv in Hn as (ev & Hev & ->).
  pose proof (lookup_lt_Some _ _ _ Hev) as Hlt.
  destruct (export_finish_dataTypes
              (mkWorld (<[e:=with_bands (narrow_band <$> vrtBands ev) ev]> (heap w1))
                 (self w1))
              e (with_bands (narrow_band <$> vrtBands ev) ev) rmMetadata
              (list_lookup_insert_eq _ _ _ Hlt) _ _ _ Hf) as (ev' & Hev' & Hkeep).
  exists w1, l1, ev, ev'. split_and!; [done..|].
  intros i b Hi. apply Hkeep. simpl.
  rewrite list_lookup_fmap, Hi. simpl. by rewrite narrow_cases_eq.
Qed.

(** [export] builds a tree of its own and leaves the object as it is. *)
Lemma export_wf bands_ rmMetadata : keeps_wf (export bands_ rmMetadata).
Proof.
  unfold export, export_build, export_narrow, export_finish, export_band,
    _get_band_number, _create_band, copy.
  cbv zeta.
  repeat first [keeps_wf_step | destruct (export_bands_metadata _ _ _)
               | destruct (remove_metadata _ _ _ _)].
Qed.

End ExportTree.

Lemma export_narrows_dataTypes_witness :
  ∃ w1 l1 ev ev',
    @export_build sample_engine None sample_world_typed = (w1, l1, inr 2%nat) ∧
    heap w1 !! 2%nat = Some ev ∧
    heap (@export sample_engine None [] sample_world_typed).1.1 !! 2%nat
      = Some ev' ∧
    ∀ (i : nat) b, vrtBands ev !! i = Some b →
      dataType <$> vrtBands ev' !! i = Some (narrow_cases (dataType b)).
Proof.
  apply (@export_narrows_dataTypes sample_engine sample_world_typed None []
           (@export sample_engine None [] sample_world_typed).1.1
           (@export sample_engine None [] sample_world_typed).1.2 2%nat).
  vm_compute. reflexivity.
Defined.

(** The claim C9 fails at the element types CInt32 and Byte: CInt32 is a
    complex type and stays CInt32, which is not a real type; Byte is an
    unsigned integer type and stays Byte. *)
Lemma export_dataType_counterexample :
  "CInt32" ∈ gdal_complex ∧ ("CInt32" ∉ gdal_real) ∧ "Byte" ∈ gdal_unsigned ∧
  (λ v, dataType <$> vrtBands v) <$>
    heap (@export sample_engine None [] sample_world_typed).1.1 !! 2%nat
  = Some ["Int16"; "CInt32"; "Byte"; "Float32"].
Proof.
  split_and!; [| | | vm_compute; reflexivity];
    apply (bool_decide_unpack _); vm_compute; exact I.
Qed.

(** ** mosaic *)

Section Mosaic.

Context `{Engine}.

Lemma agree_refl {A} (x : World * list (LogLevel * string) * (Error + A)) :
  agree x x.
Proof. by split. Qed.

(** Runs that agree continue in agreement. *)
Lemma agree_bind_l {A B} (m1 m2 : M A) (k : A → M B) w :
  agree (m1 w) (m2 w) → agree ((m1 ≫= k) w) ((m2 ≫= k) w).
Proof.
  unfold agree, mbind, M_bind.
  destruct (m1 w) as [[w1 l1] r1], (m2 w) as [[w2 l2] r2]. simpl.
  intros [-> ->]. destruct r2 as [e|a]; [done|].
  by destruct (k a w2) as [[??]?].
Qed.

Lemma agree_bind_r {A B} (m : M A) (k1 k2 : A → M B) w :
  (∀ a w' l, m w = (w', l, inr a) → agree (k1 a w') (k2 a w')) →
  agree ((m ≫= k1) w) ((m ≫= k2) w).
Proof.
  unfold agree, mbind, M_bind. intros Hk.
  destruct (m w) as [[w1 l1] [e|a]]; [done|].
  specialize (Hk a w1 l1 eq_refl).
  by destruct (k1 a w1) as [[??]?], (k2 a w1) as [[??]?].
Qed.

(** What a run logs stays in the log of a longer run. *)
Lemma logged_bind_l {A B} (m : M A) (k : A → M B) w x :
  x ∈ (m w).1.2 → x ∈ ((m ≫= k) w).1.2.
Proof.
  unfold mbind, M_bind. destruct (m w) as [[w1 l1] [e|a]]; [done|]. simpl.
  destruct (k a w1) as [[??]?]. simpl. intros. apply elem_of_app. by left.
Qed.

Lemma logged_bind_r {A B} (m : M A) (k : A → M B) w w' l a x :
  m w = (w', l, inr a) → x ∈ (k a w').1.2 → x ∈ ((m ≫= k) w).1.2.
Proof.
  unfold mbind, M_bind. intros ->.
  destruct (k a w') as [[??]?]. simpl. intros. apply elem_of_app. by right.
Qed.

(** The loop over the files reads the world and does not write it. *)
Lemma foldM_world {A S} (body : S → A → M S) l :
  (∀ s x w w' lg r, body s x w = (w', lg, r) → w' = w) →
  ∀ s w w' lg r, foldM body l s w = (w', lg, r) → w' = w.
Proof.
  intros Hbody. induction l as [|x l IH]; intros s w w' lg r Hrun; simpl in Hrun.
  - unfold mret, M_ret in Hrun. by simplify_eq.
  - unfold mbind, M_bind in Hrun.
    destruct (body s x w) as [[w1 l1] [e|s']] eqn:E.
    + apply Hbody in E. by simplify_eq.
    + apply Hbody in E as ->.
      destruct (foldM body l s' w) as [[w2 l2] r2] eqn:E2.
      apply IH in E2. by simplify_eq.
Qed.

Lemma mosaic_band_world n mask acc b w w' lg r :
  mosaic_band n mask acc b w = (w', lg, r) → w' = w.
Proof.
  unfold mosaic_band. munfold. intros Hrun.
  repeat (case_match; simplify_eq/=); done.
Qed.

Lemma mosaic_file_world dstShape bands_ acc f w w' lg r :
  mosaic_file dstShape bands_ acc f w = (w', lg, r) → w' = w.
Proof.
  unfold mosaic_file. munfold. intros Hrun.
  repeat (case_match; simplify_eq/=); try done.
  match goal with
  | E : foldM _ _ _ _ = _ |- _ =>
      apply (foldM_world _ _ (mosaic_band_world _ _)) in E
  end.
  by simplify_eq.
Qed.

(** A file whose mask cannot be fetched after reprojection is logged and
    skipped: the matrices are as before. *)
Lemma mosaic_file_skip dstShape bands_ acc f w wv :
  heap w !! vrt (self w) = Some wv →
  mask_unreadable wv f →
  mosaic_file dstShape bands_ acc f w =
    (w, [(INFO, "Processing " +:+ f); (ERROR, "Cannot reproject " +:+ f +:+ "!")],
     inr acc).
Proof.
  intros Hv (n & n1 & n2 & e & Hn & Hn1 & Hn2 & He).
  unfold mosaic_file. munfold. rewrite Hn. mred. rewrite Hn1. mred.
  rewrite Hv. mred. rewrite Hn2. mred. rewrite He. done.
Qed.

Lemma foldM_skip dstShape bands_ wv f l1 l2 acc w :
  heap w !! vrt (self w) = Some wv →
  mask_unreadable wv f →
  agree (foldM (mosaic_file dstShape bands_) (l1 ++ f :: l2) acc w)
        (foldM (mosaic_file dstShape bands_) (l1 ++ l2) acc w) ∧
  ((ERROR, "Cannot reproject " +:+ f +:+ "!")
     ∈ (foldM (mosaic_file dstShape bands_) (l1 ++ f :: l2) acc w).1.2 ∨
   ∃ e, (foldM (mosaic_file dstShape bands_) l1 acc w).2 = inl e).
Proof.
  intros Hv Hf. revert acc. induction l1 as [|x l1 IH]; intros acc; simpl.
  - unfold mbind, M_bind. rewrite (mosaic_file_skip _ _ _ _ _ _ Hv Hf).
    destruct (foldM _ l2 acc w) as [[w2 lg2] r2]. split; [by split|].
    left. simpl. apply list_elem_of_further, list_elem_of_here.
  - split.
    + apply agree_bind_r. intros acc1 w1 lg1 Hx.
      apply mosaic_file_world in Hx as ->. apply IH.
    + unfold mbind, M_bind.
      destruct (mosaic_file dstShape bands_ acc x w) as [[w1 lg1] [e|acc1]] eqn:Hx;
        [right; by eexists|].
      apply mosaic_file_world in Hx as ->.
      destruct (IH acc1) as [_ [Hin|[e He]]].
      * left. destruct (foldM _ (l1 ++ f :: l2) acc1 w) as [[??]?].
        simpl in *. apply elem_of_app. by right.
      * right. exists e. by destruct (foldM _ l1 acc1 w) as [[??]?].
Qed.


(** One file with an all-valid mask and a constant band: what the first
    part of [mosaic] computes. *)
Lemma mosaic_compute_constant w wv f b c :
  heap w !! vrt (self w) = Some wv →
  constant_input wv f b c →
  ∃ lg cnt maskMat ms,
    mosaic_compute [f] [b] w = (w, lg, inr (cnt, maskMat, ms)) ∧
    shape maskMat = shape_of wv ∧
    shape (ms.1 !!! b) = shape_of wv ∧
    shape (ms.2 !!! b) = shape_of wv ∧
    (∀ i j, px cnt i j == 1)%Q ∧
    (∀ i j, px (ms.1 !!! b) i j == c)%Q ∧
    (∀ i j, px (ms.2 !!! b) i j == 0)%Q.
Proof.
  intros Hv (n & n1 & n2 & mask & a & Hn & Hn1 & Hn2 & Hmask & Hsm & Hm & Ha & Hsa & Hc).
  unfold mosaic_compute, mosaic_file, mosaic_band, mosaic_average. simpl foldM.
  munfold. mred. rewrite Hv. mred. rewrite Hn. mred. rewrite Hn1. mred.
  rewrite Hv. mred. rewrite Hn2. mred. rewrite Hmask. mred.
  rewrite Hsm, bool_decide_eq_true_2 by done. mred.
  rewrite Ha. mred. rewrite Hsa, bool_decide_eq_true_2 by done. mred.
  cbn [negb]. mred. unfold mosaic_alloc.
  cbn [foldl cntMat maskMat0 maskMat1 avgMat stdMat].
  eexists _, _, _, _. split; [reflexivity|]. cbn [fst snd].
  rewrite !lookup_total_insert_eq.
  assert (Hvalid : ∀ i j, (px (valid_pixels mask) i j == 1)%Q).
  { intros i j. unfold valid_pixels. simpl.
    by rewrite (proj2 (Qeq_bool_iff _ _) (Hm i j)). }
  assert (Hinv : ∀ i j, (px (mask_invalid mask a) i j == c)%Q).
  { intros i j. unfold mask_invalid. simpl.
    rewrite (proj2 (Qle_bool_iff 128 (px mask i j))); [apply Hc|].
    rewrite (Hm i j). apply Qle_refl. }
  split_and!; [done | done | done | | |]; intros i j;
    cbn [px arr_zip arr_map zeros]; unfold square;
    rewrite ?Hvalid, ?Hinv; field.
Qed.


Lemma mosaic_wf files bands_ : keeps_wf (mosaic files bands_).
Proof.
  unfold mosaic, mosaic_compute, mosaic_emit, mosaic_file, mosaic_band,
    mosaic_average.
  cbv zeta.
  repeat first [keeps_wf_step | apply add_band_wf | destruct (negb _)].
Qed.

(** In every state that an object can be in, the raw and the working tree
    are two different objects. *)
Lemma reachable_wf w : reachable w → wf w.
Proof.
  induction 1.
  - by eapply init_wf.
  - by eapply add_band_wf.
  - by eapply resize_wf.
  - by eapply reproject_wf.
  - by eapply export_wf.
  - by eapply mosaic_wf.
Qed.

End Mosaic.




(** What the averaging step stores as std, pixel by pixel: with S the sum,
    S2 the sum of squares and n the count, it is the square of
    (S2 - 2*(S/n)*S + (S/n)^2) / n. *)
Lemma mosaic_average_px `{Engine} cnt avgM stdM b w :
  ∃ std,
    mosaic_average cnt (avgM, stdM) b w =
      (w, [(DEBUG, "    Averaging " +:+ b)],
       inr (<[b := arr_zip Qdiv (avgM !!! b) cnt]> avgM, <[b := std]> stdM)) ∧
    ∀ i j,
      px std i j =
        square ((px (stdM !!! b) i j
                 - 2 * (px (avgM !!! b) i j / px cnt i j) * px (avgM !!! b) i j
                 + square (px (avgM !!! b) i j / px cnt i j))
                / px cnt i j)%Q.
Proof. eexists. split; [reflexivity|]. intros i j. reflexivity. Qed.

(** C2: the band emitted as std, at a pixel with a positive valid-count.
    Two input files, both valid at the pixel, with the values 0 and 2: the
    count is 2, the sum is 2 and the sum of squares is 4; the matrix that
    mosaic stores and emits under the name sst_std holds 1/4 there, and the
    estimator of the specification is 1. *)
Theorem mosaic_std_two_files :
  match (foldM (@mosaic_file sample_engine (4, 4) ["sst"]) ["a.nc"; "b.nc"]
           (mosaic_alloc (4, 4) ["sst"]) sample_world).2 with
  | inr acc =>
      Qred (px (cntMat acc) 0 0) = 2%Q ∧
      Qred (px (avgMat acc !!! "sst") 0 0) = 2%Q ∧
      Qred (px (stdMat acc !!! "sst") 0 0) = 4%Q
  | inl _ => False
  end ∧
  match (@mosaic_compute sample_engine ["a.nc"; "b.nc"] ["sst"] sample_world).2 with
  | inr (cnt, _, ms) =>
      Qred (px cnt 0 0) = 2%Q ∧ Qred (px (ms.2 !!! "sst") 0 0) = (1 # 4)%Q
  | inl _ => False
  end ∧
  (let w' := (@mosaic sample_engine ["a.nc"; "b.nc"] ["sst"] sample_world).1.1 in
   h ← addedBands (self w') !! "sst_std";
   v ← heap w' !! h;
   a ← payload v;
   Some (Qred (px a 0 0))) = Some (1 # 4)%Q ∧
  Qred (spec_variance 4 2 2) = 1%Q.
Proof. vm_compute. split_and!; reflexivity. Qed.

(** ** Cross-checks *)

(** The values of the example for C2 are exact in binary64: on floats the
    averaging step gives 0.25 as well, and the estimator of the
    specification gives 1. *)
Example std_two_files_binary64 :
  std_pixel_binary64 4 2 2 = 0.25%float ∧
  ((4 - 2 * (2 / 2) * 2 + 2 * ((2 / 2) * (2 / 2))) / 2)%float = 1%float.
Proof. split; reflexivity. Qed.

(** One valid file with the constant 2.5: sum 2.5, sum of squares 6.25,
    count 1; the std pixel is 0 on floats as well. *)
Example std_constant_binary64 :
  std_pixel_binary64 (2.5 * 2.5) 2.5 1 = 0%float.
Proof. reflexivity. Qed.

(** The scenario of the specification for resize: a 4×4 object after
    resize(width=2) has the size (2, 2); resize() restores (4, 4). *)
Example resize_scenario :
  let w1 := (resize 1 (Some 2) None "average" sample_world).1.1 in
  let w2 := (resize 1 None None "average" w1).1.1 in
  shape_of <$> heap w1 !! vrt (self w1) = Some (2, 2) ∧
  shape_of <$> heap w2 !! vrt (self w2) = Some (4, 4).
Proof. split; reflexivity. Qed.

(** * Further properties *)

(** ** The band resolver and the accessors built on it *)

Section Accessors.

Implicit Types (v : VRT) (s : string) (w : World).

(** A step that only reads: the rest runs in the same world. *)
Lemma bind_pure {A B} (m : M A) (k : A → M B) w a :
  m w = (w, [], inr a) → (m ≫= k) w = k a w.
Proof.
  unfold mbind, M_bind. intros ->. by destruct (k a w) as [[??]?].
Qed.

Lemma deref_live w h v : heap w !! h = Some v → deref h w = (w, [], inr v).
Proof. intros Hv. unfold deref. by rewrite Hv. Qed.

(** What the scan returns is the number it started with or the number of a
    band that carries the name. *)
Lemma scan_names_sound s (l : list Band) k acc n :
  scan_names s (bands_from k l) acc = inr n →
  n = acc ∨ ∃ (i : nat) b, l !! i = Some b ∧ carries s b ∧ n = k + Z.of_nat i.
Proof.
  revert k acc. induction l as [|x l IH]; intros k acc Hrun; simpl in Hrun.
  - left. by simplify_eq.
  - destruct (bandMeta x !! "BandName") as [name|] eqn:Hx; [|done].
    apply IH in Hrun as [->|(i & b & Hi & Hb & ->)].
    + destruct (String.eqb_spec s name) as [->|_]; [|by left].
      right. exists 0%nat, x. split_and!; [done | done | lia].
    + right. exists (S i), b. split_and!; [done | done | lia].
Qed.

Lemma band_number_of_sound v bandID n :
  band_number_of v bandID = inr n →
  1 ≤ n ≤ RasterCount v ∧
  ∃ b, GetRasterBand v n = Some b ∧
       match bandID with BInt m => n = m | BStr s => carries s b end.
Proof.
  unfold band_number_of, GetRasterBand, RasterCount. destruct bandID as [m|s]; simpl.
  - destruct (1 <=? m) eqn:E1; destruct (m <=? _) eqn:E2; simpl;
      try discriminate.
    apply Z.leb_le in E1, E2.
    destruct (m =? 0) eqn:E0; [discriminate|]. intros [= <-].
    split; [lia|].
    destruct (lookup_lt_is_Some_2 (vrtBands v) (Z.to_nat (m - 1))) as [b Hb];
      [lia|].
    rewrite (proj2 (Z.leb_le 1 m)) by done. by exists b.
  - unfold bands.
    destruct (scan_names s (bands_from 1 (vrtBands v)) 0) as [e|k] eqn:Hscan;
      simpl; [discriminate|].
    destruct (k =? 0) eqn:E0; [discriminate|]. intros [= <-].
    apply Z.eqb_neq in E0.
    apply scan_names_sound in Hscan as [->|(i & b & Hi & Hb & ->)]; [done|].
    pose proof (lookup_lt_Some _ _ _ Hi).
    split; [lia|]. exists b.
    rewrite (proj2 (Z.leb_le 1 (1 + Z.of_nat i))) by lia.
    replace (Z.to_nat (1 + Z.of_nat i - 1)) with i by lia. done.
Qed.

(** X1: whenever the resolver returns a number, the object is as before, the
    number is one of 1..N for the N bands of the working tree, and the band
    with that number is the one asked for: for a number, the number itself;
    for a name, a band that carries this name as its BandName. *)
Theorem get_band_number_sound (w w' : World) (bandID : BandID)
    (l : list (LogLevel * string)) (n : Z) :
  _get_band_number bandID w = (w', l, inr n) →
  w' = w ∧
  ∃ v b, heap w !! vrt (self w) = Some v ∧ 1 ≤ n ≤ RasterCount v ∧
         GetRasterBand v n = Some b ∧
         match bandID with BInt m => n = m | BStr s => carries s b end.
Proof.
  intros Hrun.
  destruct (heap w !! vrt (self w)) as [v|] eqn:Hv.
  - rewrite (get_band_number_run _ _ _ Hv) in Hrun. simplify_eq.
    split; [done|].
    match goal with H : band_number_of _ _ = _ |- _ =>
      apply band_number_of_sound in H as (Hn & b & Hb & Hid) end.
    by exists v, b.
  - unfold _get_band_number in Hrun. munfold. by rewrite Hv in Hrun.
Qed.

(** X2: the scan has no break: when several bands carry the name, the
    resolver returns the number of the last of them. *)
Theorem get_band_number_last_match (w : World) (v : VRT) (s : string)
    (l1 l2 : list Band) (b : Band) :
  heap w !! vrt (self w) = Some v →
  vrtBands v = l1 ++ b :: l2 →
  Forall named (vrtBands v) →
  carries s b →
  Forall (λ b', ¬ carries s b') l2 →
  _get_band_number (BStr s) w = (w, [], inr (Z.of_nat (length l1) + 1)).
Proof.
  intros Hv Hsplit Hn Hb Hl2.
  rewrite (get_band_number_run _ _ _ Hv). do 2 f_equal.
  rewrite Hsplit in Hn. apply Forall_app in Hn as [Hn1 Hn2].
  apply Forall_cons in Hn2 as [_ Hn2].
  by apply (band_number_of_name_last v s l1 b l2).
Qed.

Lemma get_GDALRasterBand_run w v bandID :
  heap w !! vrt (self w) = Some v →
  get_GDALRasterBand bandID w =
    (w, [], match band_number_of v bandID with
            | inl e => inl e
            | inr n => inr (GetRasterBand v n)
            end).
Proof.
  intros Hv. unfold get_GDALRasterBand.
  unfold mbind at 1, M_bind at 1. rewrite (get_band_number_run _ _ _ Hv).
  destruct (band_number_of v bandID) as [e|n]; [done|].
  munfold. by rewrite Hv.
Qed.

(** [get_metadata] of a band, on a given working tree. *)
Lemma get_metadata_band_run w v key bandID :
  heap w !! vrt (self w) = Some v →
  get_metadata key (Some bandID) w =
    (w, [],
     match band_metadata_of v bandID with
     | inl e => inl e
     | inr m => inr (match key return Metadata key with
                     | Some k => m !! k
                     | None => m
                     end)
     end).
Proof.
  intros Hv. unfold get_metadata, band_metadata_of.
  unfold mbind at 1 2, M_bind at 1 2. rewrite (get_GDALRasterBand_run _ _ _ Hv).
  unfold mbind, exc_bind.
  destruct (band_number_of v bandID) as [e|n]; [done|].
  destruct (GetRasterBand v n) as [b|]; [|done].
  munfold. by destruct key.
Qed.

Lemma get_metadata_global_run w v key :
  heap w !! vrt (self w) = Some v →
  get_metadata key None w =
    (w, [], inr (match key return Metadata key with
                 | Some k => vrtMeta v !! k
                 | None => vrtMeta v
                 end)).
Proof.
  intros Hv. unfold get_metadata. munfold. rewrite Hv. by destruct key.
Qed.

Lemma band_metadata_of_int v (i : nat) b :
  vrtBands v !! i = Some b →
  band_metadata_of v (BInt (Z.of_nat i + 1)) = inr (bandMeta b).
Proof.
  intros Hi. pose proof (lookup_lt_Some _ _ _ Hi).
  unfold band_metadata_of.
  rewrite band_number_of_int by (unfold RasterCount; lia).
  unfold mbind, exc_bind, GetRasterBand.
  rewrite (proj2 (Z.leb_le 1 _)) by lia.
  replace (Z.to_nat (Z.of_nat i + 1 - 1)) with i by lia. by rewrite Hi.
Qed.

Lemma Nansat_bands_loop w v (l1 l2 : list Band) acc :
  heap w !! vrt (self w) = Some v →
  vrtBands v = l1 ++ l2 →
  foldM (λ b iBand,
           m ← get_metadata None (Some (BInt (iBand + 1)));
           mret (b ++ [(iBand + 1, m)]))
    (seqZ (Z.of_nat (length l1)) (Z.of_nat (length l2))) acc w =
  (w, [], inr (acc ++ bands_from (Z.of_nat (length l1) + 1) l2)).
Proof.
  intros Hv. revert l1 acc. induction l2 as [|x l2 IH]; intros l1 acc Hsplit.
  - simpl. by rewrite app_nil_r.
  - rewrite seqZ_cons by (simpl; lia). simpl foldM.
    assert (Hbody :
      (m ← get_metadata None (Some (BInt (Z.of_nat (length l1) + 1)));
       mret (acc ++ [(Z.of_nat (length l1) + 1, m)])) w
      = (w, [], inr (acc ++ [(Z.of_nat (length l1) + 1, bandMeta x)]))).
    { unfold mbind, M_bind. rewrite (get_metadata_band_run _ _ _ _ Hv).
      rewrite (band_metadata_of_int v (length l1) x)
        by (rewrite Hsplit; by apply list_lookup_middle).
      done. }
    rewrite (bind_run _ _ _ _ _ _ Hbody).
    replace (Z.succ (Z.of_nat (length l1))) with (Z.of_nat (length (l1 ++ [x])))
      by (rewrite length_app; simpl; lia).
    replace (Z.pred (Z.of_nat (S (length l2)))) with (Z.of_nat (length l2))
      by lia.
    rewrite (IH (l1 ++ [x])) by (by rewrite <- app_assoc).
    rewrite <- app_assoc. simpl. do 5 f_equal.
    rewrite length_app. simpl. lia.
Qed.

(** X3: bands() does not raise, leaves the object as it is and returns one
    entry for every band of the working tree, under the numbers 1..N in this
    order, each holding the metadata of its band - also when bands have no
    BandName. *)
Theorem Nansat_bands_spec (w : World) (v : VRT) :
  heap w !! vrt (self w) = Some v →
  Nansat_bands w = (w, [], inr (bands v)) ∧
  length (bands v) = length (vrtBands v) ∧
  ∀ (i : nat) b, vrtBands v !! i = Some b →
    bands v !! i = Some (Z.of_nat i + 1, bandMeta b).
Proof.
  intros Hv. split_and!.
  - unfold Nansat_bands.
    rewrite (bind_pure get_self _ w (self w)) by done.
    rewrite (bind_pure (deref _) _ w v) by (by apply deref_live).
    apply (Nansat_bands_loop w v [] (vrtBands v) [] Hv eq_refl).
  - unfold bands. generalize 1. induction (vrtBands v) as [|x l IH]; intros k;
      simpl; [done|]. by rewrite IH.
  - unfold bands. intros i b.
    replace (Z.of_nat i + 1) with (1 + Z.of_nat i) by lia. generalize 1.
    revert i. induction (vrtBands v) as [|x l IH]; intros i k Hi; [done|].
    destruct i as [|i]; simpl in *.
    + simplify_eq. do 2 f_equal. lia.
    + rewrite (IH i (k + 1) Hi). do 2 f_equal. lia.
Qed.

(** X4: asking the band found under a name for its BandName gives the name
    back: whenever get_metadata('BandName', bandID=s) returns, it returns
    s. *)
Theorem get_metadata_BandName (w w' : World) (s : string)
    (l : list (LogLevel * string)) (r : option string) :
  get_metadata (Some "BandName") (Some (BStr s)) w = (w', l, inr r) →
  w' = w ∧ r = Some s.
Proof.
  intros Hrun.
  destruct (heap w !! vrt (self w)) as [v|] eqn:Hv.
  - rewrite (get_metadata_band_run _ _ _ _ Hv) in Hrun.
    unfold band_metadata_of, mbind, exc_bind in Hrun.
    destruct (band_number_of v (BStr s)) as [e|n] eqn:Hn; [by simplify_eq|].
    apply band_number_of_sound in Hn as (_ & b & Hb & Hc).
    rewrite Hb in Hrun. by simplify_eq.
  - unfold get_metadata, get_GDALRasterBand, _get_band_number in Hrun.
    munfold. by rewrite Hv in Hrun.
Qed.

End Accessors.

Lemma get_band_number_sound_witness :
  _get_band_number (BStr "A") sample_world = (sample_world, [], inr 1) ∧
  ∃ v b, heap sample_world !! vrt (self sample_world) = Some v ∧
         1 ≤ 1 ≤ RasterCount v ∧ GetRasterBand v 1 = Some b ∧ carries "A" b.
Proof.
  split; [reflexivity|].
  apply (get_band_number_sound sample_world sample_world (BStr "A") [] 1).
  reflexivity.
Defined.

Lemma get_band_number_last_match_witness :
  _get_band_number (BStr "A") sample_world_twins
  = (sample_world_twins, [], inr 2).
Proof.
  apply (get_band_number_last_match sample_world_twins
           (with_fileName (vsi_name 1)
              (sample_tree 4 4 [Some "A"; Some "A"; Some "B"]))
           "A"
           [mkBand "Float32" ComplexSource "in.nc" 1 {[ "BandName" := "A" ]}]
           [mkBand "Float32" ComplexSource "in.nc" 1 {[ "BandName" := "B" ]}]
           (mkBand "Float32" ComplexSource "in.nc" 1 {[ "BandName" := "A" ]})).
  - reflexivity.
  - reflexivity.
  - repeat constructor; by eexists.
  - reflexivity.
  - repeat constructor. intros Hc. vm_compute in Hc. discriminate.
Defined.

Lemma Nansat_bands_spec_witness :
  Nansat_bands sample_world_unnamed =
    (sample_world_unnamed, [], inr [(1, {[ "BandName" := "A" ]}); (2, ∅)]).
Proof.
  apply (Nansat_bands_spec sample_world_unnamed
           (with_fileName (vsi_name 1) (sample_tree 4 4 [Some "A"; None]))).
  reflexivity.
Defined.

Lemma get_metadata_BandName_witness :
  get_metadata (Some "BandName") (Some (BStr "A")) sample_world
    = (sample_world, [], inr (Some "A")) ∧
  sample_world = sample_world ∧ Some "A" = Some "A".
Proof.
  split; [reflexivity|].
  apply (get_metadata_BandName sample_world sample_world "A" [] (Some "A")).
  reflexivity.
Defined.

(** ** set_metadata *)

Section SetMetadata.

Implicit Types (v t : VRT) (w : World) (band : option Z).

Lemma GetRasterBand_Some t n b :
  GetRasterBand t n = Some b → 1 ≤ n ∧ vrtBands t !! Z.to_nat (n - 1) = Some b.
Proof.
  unfold GetRasterBand. destruct (1 <=? n) eqn:E; [|done].
  apply Z.leb_le in E. done.
Qed.

Lemma metadata_at_set_item band k x t :
  metadata_at band (set_item band k x t) = <[k:=x]> <$> metadata_at band t.
Proof.
  destruct band as [n|]; [|done]. simpl.
  destruct (GetRasterBand t n) as [b|] eqn:Hb; simpl; [|by rewrite Hb].
  apply GetRasterBand_Some in Hb as [Hn Hb].
  unfold GetRasterBand. rewrite (proj2 (Z.leb_le 1 n)) by done. simpl.
  rewrite list_lookup_insert_eq by (by eapply lookup_lt_Some). done.
Qed.

Lemma metadata_at_set_item_ne band band' k x t :
  band' ≠ band → metadata_at band' (set_item band k x t) = metadata_at band' t.
Proof.
  intros Hne. destruct band as [n|], band' as [n'|]; try done; simpl.
  - destruct (GetRasterBand t n) as [b|] eqn:Hb; [|done].
    apply GetRasterBand_Some in Hb as [Hn Hb].
    unfold GetRasterBand. destruct (1 <=? n') eqn:E; [|done].
    apply Z.leb_le in E. simpl.
    rewrite list_lookup_insert_ne; [done|]. intros Heq. apply Hne. f_equal. lia.
  - by destruct (GetRasterBand t n).
Qed.

Lemma set_item_length band k x t :
  length (vrtBands (set_item band k x t)) = length (vrtBands t).
Proof.
  destruct band as [n|]; [|done]. simpl.
  destruct (GetRasterBand t n); [|done]. simpl. by rewrite length_insert.
Qed.

(** Writing a key other than BandName, or writing to the dataset, leaves
    the names of the bands as they are. *)
Lemma band_names_set_item band k x t :
  k ≠ "BandName" ∨ band = None →
  band_names (set_item band k x t) = band_names t.
Proof.
  intros Hk. destruct band as [n|]; [|done]. simpl.
  destruct Hk as [Hk|?]; [|done].
  destruct (GetRasterBand t n) as [b|] eqn:Hb; [|done].
  apply GetRasterBand_Some in Hb as [Hn Hb].
  unfold band_names. simpl. rewrite list_fmap_insert. simpl.
  rewrite lookup_insert_ne by done.
  apply list_insert_id. by rewrite list_lookup_fmap, Hb.
Qed.

Lemma scan_names_band_names s (l1 l2 : list Band) k acc :
  (λ b, bandMeta b !! "BandName") <$> l1 = (λ b, bandMeta b !! "BandName") <$> l2 →
  scan_names s (bands_from k l1) acc = scan_names s (bands_from k l2) acc.
Proof.
  revert l2 k acc. induction l1 as [|x l1 IH]; intros [|y l2] k acc Heq;
    simpl in *; try done.
  injection Heq as Hxy Heq. rewrite Hxy.
  destruct (bandMeta y !! "BandName"); [|done]. by apply IH.
Qed.

(** The resolver looks at the number of bands and at their names only. *)
Lemma band_number_of_band_names v1 v2 bandID :
  band_names v1 = band_names v2 →
  band_number_of v1 bandID = band_number_of v2 bandID.
Proof.
  intros Heq. unfold band_number_of, bands, RasterCount.
  assert (Hlen : length (vrtBands v1) = length (vrtBands v2)).
  { apply (f_equal length) in Heq. unfold band_names in Heq.
    by rewrite !length_fmap in Heq. }
  rewrite Hlen. destruct bandID as [n|s]; [done|].
  by rewrite (scan_names_band_names s _ (vrtBands v2)).
Qed.

Lemma receiver_band_names v1 v2 bandID :
  band_names v1 = band_names v2 → receiver v1 bandID = receiver v2 bandID.
Proof.
  intros Heq. destruct bandID as [id|]; [|done]. simpl.
  by rewrite (band_number_of_band_names v1 v2).
Qed.

(** The band that a band identifier resolves to exists. *)
Lemma receiver_metadata_at v bandID band :
  receiver v bandID = inr band → is_Some (metadata_at band v).
Proof.
  destruct bandID as [id|]; simpl.
  - unfold mbind, exc_bind.
    destruct (band_number_of v id) as [e|n] eqn:Hn; [done|]. intros [= <-].
    apply band_number_of_sound in Hn as (_ & b & Hb & _). simpl.
    rewrite Hb. by eexists.
  - intros [= <-]. by eexists.
Qed.

Lemma SetMetadataItem_run w h band k x t :
  heap w !! h = Some t →
  SetMetadataItem h band k x w =
    match metadata_at band t with
    | Some _ => (mkWorld (<[h := set_item band k x t]> (heap w)) (self w), [], inr tt)
    | None => (w, [], inl (AttributeError "NoneType"))
    end.
Proof.
  intros Ht. unfold SetMetadataItem. rewrite (bind_pure _ _ _ _ (deref_live _ _ _ Ht)).
  destruct band as [n|]; simpl; [|done].
  by destruct (GetRasterBand t n).
Qed.

(** One [SetMetadataItem] on the raw tree and one on the working tree. *)
Lemma set_pair_run w hr hv band k x rv wv :
  hr ≠ hv →
  heap w !! hr = Some rv → heap w !! hv = Some wv →
  is_Some (metadata_at band wv) →
  (_ ← SetMetadataItem hr band k x; SetMetadataItem hv band k x) w =
    match metadata_at band rv with
    | Some _ =>
        (mkWorld (<[hv := set_item band k x wv]>
                    (<[hr := set_item band k x rv]> (heap w))) (self w),
         [], inr tt)
    | None => (w, [], inl (AttributeError "NoneType"))
    end.
Proof.
  intros Hne Hr Hv [mw Hmw]. unfold mbind, M_bind.
  rewrite (SetMetadataItem_run _ _ _ _ _ _ Hr).
  destruct (metadata_at band rv); [|done].
  rewrite (SetMetadataItem_run _ _ _ _ _ wv)
    by (simpl; by rewrite list_lookup_insert_ne).
  by rewrite Hmw.
Qed.

(** The trees after a list of items was written, one after the other. *)
Lemma set_items_run w hr hv band (kvs : list (string * string)) rv wv :
  hr ≠ hv →
  heap w !! hr = Some rv → heap w !! hv = Some wv →
  is_Some (metadata_at band rv) → is_Some (metadata_at band wv) →
  ∃ w',
    foldM (λ _ kv,
             _ ← SetMetadataItem hr band kv.1 kv.2;
             SetMetadataItem hv band kv.1 kv.2) kvs tt w = (w', [], inr tt) ∧
    self w' = self w ∧
    heap w' !! hr = Some (foldl (λ t kv, set_item band kv.1 kv.2 t) rv kvs) ∧
    heap w' !! hv = Some (foldl (λ t kv, set_item band kv.1 kv.2 t) wv kvs) ∧
    (∀ h, h ≠ hr → h ≠ hv → heap w' !! h = heap w !! h).
Proof.
  intros Hne. revert w rv wv.
  induction kvs as [|[k x] kvs IH]; intros w rv wv Hr Hv Hmr Hmv; simpl.
  - by exists w.
  - pose proof (set_pair_run w hr hv band k x rv wv Hne Hr Hv Hmv) as Hstep.
    destruct Hmr as [mr Hmr]. rewrite Hmr in Hstep.
    rewrite (bind_run _ _ _ _ _ _ Hstep).
    pose proof (lookup_lt_Some _ _ _ Hr) as Hlr.
    pose proof (lookup_lt_Some _ _ _ Hv) as Hlv.
    edestruct (IH (mkWorld (<[hv := set_item band k x wv]>
                              (<[hr := set_item band k x rv]> (heap w))) (self w))
                 (set_item band k x rv) (set_item band k x wv))
      as (w' & Hrun & Hself & Hr' & Hv' & Hframe); simpl.
    + rewrite list_lookup_insert_ne by done. by apply list_lookup_insert_eq.
    + apply list_lookup_insert_eq; by rewrite ?length_insert.
    + rewrite metadata_at_set_item, Hmr. by eexists.
    + rewrite metadata_at_set_item. destruct Hmv as [? ->]. by eexists.
    + exists w'. rewrite Hrun. split_and!; try done.
      intros h H1 H2. rewrite Hframe by done. simpl.
      by rewrite !list_lookup_insert_ne.
Qed.

Lemma set_item_foldl_metadata band (kvs : list (string * string)) t :
  metadata_at band (foldl (λ t kv, set_item band kv.1 kv.2 t) t kvs) =
  (λ m, foldl (λ m kv, <[kv.1 := kv.2]> m) m kvs) <$> metadata_at band t.
Proof.
  revert t. induction kvs as [|[k x] kvs IH]; intros t; simpl.
  - by destruct (metadata_at band t).
  - rewrite IH, metadata_at_set_item. by destruct (metadata_at band t).
Qed.

Lemma foldl_insert_lookup (kvs : list (string * string)) (m0 : gmap string string) k :
  NoDup kvs.*1 →
  foldl (λ m kv, <[kv.1 := kv.2]> m) m0 kvs !! k
  = (list_to_map kvs ∪ m0 : gmap string string) !! k.
Proof.
  revert m0. induction kvs as [|[k1 x1] kvs IH]; intros m0 Hnd; simpl.
  - by rewrite (left_id_L ∅ (∪)).
  - apply NoDup_cons in Hnd as [Hk1 Hnd]. rewrite IH by done.
    assert (Hnone : (list_to_map kvs : gmap string string) !! k1 = None)
      by (by apply not_elem_of_list_to_map_1).
    rewrite !lookup_union. destruct (decide (k = k1)) as [->|Hk].
    + rewrite Hnone, !lookup_insert_eq. by destruct (m0 !! k1).
    + by rewrite !lookup_insert_ne.
Qed.

(** Writing the items of a dict one by one gives the dict merged over what
    was there, in whatever order the dict is walked. *)
Lemma foldl_insert_dict (d m0 : gmap string string) :
  foldl (λ m kv, <[kv.1 := kv.2]> m) m0 (map_to_list d) = d ∪ m0.
Proof.
  apply map_eq. intros k.
  rewrite foldl_insert_lookup by apply NoDup_fst_map_to_list.
  by rewrite list_to_map_to_list.
Qed.

(** The first step of [set_metadata]: the band that is addressed. *)
Lemma receiver_step {B} w wv bandID (k : option Z → M B) :
  heap w !! vrt (self w) = Some wv →
  ((match bandID with
    | None => mret None
    | Some bandID => bandNumber ← _get_band_number bandID; mret (Some bandNumber)
    end) ≫= k) w =
  match receiver wv bandID with
  | inl e => (w, [], inl e)
  | inr band => k band w
  end.
Proof.
  intros Hv. destruct bandID as [id|]; simpl.
  - unfold mbind at 1 2, M_bind at 1 2.
    rewrite (get_band_number_run _ _ _ Hv). unfold mbind, exc_bind.
    destruct (band_number_of wv id) as [e|n]; [done|].
    unfold mret, M_ret. simpl. by destruct (k (Some n) w) as [[??]?].
  - by apply bind_pure.
Qed.

(** What [set_metadata] does, given the two trees. *)
Lemma set_metadata_run w rv wv key value bandID :
  raw (self w) ≠ vrt (self w) →
  heap w !! raw (self w) = Some rv → heap w !! vrt (self w) = Some wv →
  let kvs := match key with Key k => [(k, value)] | Keys d => map_to_list d end in
  match receiver wv bandID with
  | inl e => set_metadata key value bandID w = (w, [], inl e)
  | inr band =>
      match metadata_at band rv with
      | None =>
          set_metadata key value bandID w =
            (w, [], match kvs with
                    | [] => inr tt
                    | _ => inl (AttributeError "NoneType")
                    end)
      | Some _ =>
          ∃ w',
            set_metadata key value bandID w = (w', [], inr tt) ∧
            self w' = self w ∧
            heap w' !! raw (self w)
              = Some (foldl (λ t kv, set_item band kv.1 kv.2 t) rv kvs) ∧
            heap w' !! vrt (self w)
              = Some (foldl (λ t kv, set_item band kv.1 kv.2 t) wv kvs) ∧
            (∀ h, h ≠ raw (self w) → h ≠ vrt (self w) → heap w' !! h = heap w !! h)
      end
  end.
Proof.
  intros Hne Hr Hv kvs. unfold set_metadata.
  rewrite (bind_pure get_self _ w (self w)) by done.
  rewrite (receiver_step w wv) by done.
  destruct (receiver wv bandID) as [e|band] eqn:Hrec; [done|].
  apply receiver_metadata_at in Hrec as Hmv.
  rewrite (bind_pure _ _ _ _ (deref_live _ _ _ Hr)).
  rewrite (bind_pure _ _ _ _ (deref_live _ _ _ Hv)).
  destruct (metadata_at band rv) as [mr|] eqn:Hmr.
  - destruct key as [k|d]; subst kvs.
    + pose proof (set_pair_run w _ _ band k value rv wv Hne Hr Hv Hmv) as Hstep.
      rewrite Hmr in Hstep. rewrite Hstep. eexists. split; [done|]. simpl.
      pose proof (lookup_lt_Some _ _ _ Hr). pose proof (lookup_lt_Some _ _ _ Hv).
      split_and!; try done.
      * rewrite list_lookup_insert_ne by done. by apply list_lookup_insert_eq.
      * apply list_lookup_insert_eq; by rewrite ?length_insert.
      * intros h H1 H2. by rewrite !list_lookup_insert_ne.
    + apply set_items_run; try done.
  - destruct key as [k|d]; subst kvs.
    + pose proof (set_pair_run w _ _ band k value rv wv Hne Hr Hv Hmv) as Hstep.
      by rewrite Hmr in Hstep.
    + destruct (map_to_list d) as [|[k x] kvs]; [done|]. simpl.
      pose proof (set_pair_run w _ _ band k x rv wv Hne Hr Hv Hmv) as Hstep.
      rewrite Hmr in Hstep. unfold mbind at 1, M_bind at 1.
      by rewrite Hstep.
Qed.

Lemma set_metadata_dead w key value bandID :
  heap w !! raw (self w) = None ∨ heap w !! vrt (self w) = None →
  ∃ e, set_metadata key value bandID w = (w, [], inl e).
Proof.
  intros Hdead. unfold set_metadata.
  rewrite (bind_pure get_self _ w (self w)) by done.
  destruct (heap w !! vrt (self w)) as [wv|] eqn:Hv.
  - destruct Hdead as [Hr|]; [|done].
    rewrite (receiver_step w wv) by done.
    destruct (receiver wv bandID) as [e|band]; [by eexists|].
    munfold. rewrite Hr. by eexists.
  - destruct bandID as [id|].
    + unfold _get_band_number. munfold. rewrite Hv. by eexists.
    + munfold. destruct (heap w !! raw (self w)); rewrite ?Hv; by eexists.
Qed.

(** What a call of [set_metadata] that returns has done. *)
Lemma set_metadata_returns w w' l key value bandID :
  raw (self w) ≠ vrt (self w) →
  set_metadata key value bandID w = (w', l, inr tt) →
  let kvs := match key with Key k => [(k, value)] | Keys d => map_to_list d end in
  ∃ rv wv band,
    heap w !! raw (self w) = Some rv ∧ heap w !! vrt (self w) = Some wv ∧
    receiver wv bandID = inr band ∧
    is_Some (metadata_at band wv) ∧
    (kvs ≠ [] → is_Some (metadata_at band rv)) ∧
    l = [] ∧ self w' = self w ∧
    heap w' !! raw (self w)
      = Some (foldl (λ t kv, set_item band kv.1 kv.2 t) rv kvs) ∧
    heap w' !! vrt (self w)
      = Some (foldl (λ t kv, set_item band kv.1 kv.2 t) wv kvs) ∧
    (∀ h, h ≠ raw (self w) → h ≠ vrt (self w) → heap w' !! h = heap w !! h).
Proof.
  intros Hne Hrun kvs.
  destruct (heap w !! raw (self w)) as [rv|] eqn:Hr;
    [|destruct (set_metadata_dead w key value bandID) as [e He];
      [by left | by rewrite He in Hrun]].
  destruct (heap w !! vrt (self w)) as [wv|] eqn:Hv;
    [|destruct (set_metadata_dead w key value bandID) as [e He];
      [by right | by rewrite He in Hrun]].
  pose proof (set_metadata_run w rv wv key value bandID Hne Hr Hv) as Hspec.
  cbv zeta in Hspec. fold kvs in Hspec.
  destruct (receiver wv bandID) as [e|band] eqn:Hrec;
    [by rewrite Hspec in Hrun|].
  exists rv, wv, band.
  pose proof (receiver_metadata_at _ _ _ Hrec) as Hmv.
  destruct (metadata_at band rv) as [mr|] eqn:Hmr.
  - destruct Hspec as (w1 & Hrun1 & Hself & Hr1 & Hv1 & Hframe).
    rewrite Hrun in Hrun1. simplify_eq.
    by split_and!.
  - rewrite Hspec in Hrun. destruct kvs as [|kv kvs'] eqn:Hk; [|done].
    simplify_eq. by split_and!.
Qed.

(** [get_metadata], given the working tree. *)
Lemma get_metadata_run w v key bandID :
  heap w !! vrt (self w) = Some v →
  get_metadata key bandID w =
    (w, [],
     match receiver v bandID with
     | inl e => inl e
     | inr band =>
         match metadata_at band v with
         | Some m => inr (match key return Metadata key with
                          | Some k => m !! k
                          | None => m
                          end)
         | None => inl (AttributeError "NoneType")
         end
     end).
Proof.
  intros Hv. destruct bandID as [id|]; simpl.
  - rewrite (get_metadata_band_run _ _ _ _ Hv). unfold band_metadata_of.
    unfold mbind, exc_bind. destruct (band_number_of v id) as [e|n]; [done|].
    simpl. by destruct (GetRasterBand v n).
  - by rewrite (get_metadata_global_run _ _ _ Hv).
Qed.

Lemma band_number_of_int_length v1 v2 n :
  length (vrtBands v1) = length (vrtBands v2) →
  band_number_of v1 (BInt n) = band_number_of v2 (BInt n).
Proof. intros Hlen. unfold band_number_of, RasterCount. by rewrite Hlen. Qed.

(** Writing an item does not change what a band identifier resolves to,
    unless the item is the BandName of a band and the identifier is a
    name. *)
Lemma receiver_set_item band k x t bandID :
  match bandID with Some (BStr _) => k ≠ "BandName" ∨ band = None | _ => True end →
  receiver (set_item band k x t) bandID = receiver t bandID.
Proof.
  intros Hk. destruct bandID as [[n|s]|]; simpl; [| |done].
  - by rewrite (band_number_of_int_length _ t) by apply set_item_length.
  - by rewrite (band_number_of_band_names _ t) by (by apply band_names_set_item).
Qed.

Lemma receiver_set_items band (kvs : list (string * string)) t bandID :
  match bandID with
  | Some (BStr _) => "BandName" ∉ kvs.*1 ∨ band = None
  | _ => True
  end →
  receiver (foldl (λ t kv, set_item band kv.1 kv.2 t) t kvs) bandID
  = receiver t bandID.
Proof.
  revert t. induction kvs as [|[k x] kvs IH]; intros t Hk; simpl; [done|].
  rewrite IH.
  - apply receiver_set_item. destruct bandID as [[n|s]|]; try done.
    destruct Hk as [Hk|Hk]; [left|by right].
    intros ->. apply Hk. simpl. left.
  - destruct bandID as [[n|s]|]; try done.
    destruct Hk as [Hk|Hk]; [left|by right].
    intros Hin. apply Hk. simpl. by right.
Qed.

(** A band number resolves to itself. *)
Lemma receiver_int v (n band : option Z) :
  receiver v (BInt <$> n) = inr band → band = n.
Proof.
  destruct n as [m|]; simpl; [|by intros [= <-]].
  unfold mbind, exc_bind.
  destruct (band_number_of v (BInt m)) as [e|k] eqn:Hk; [done|].
  apply band_number_of_sound in Hk as (_ & _ & _ & ->).
  unfold mret, exc_ret. by intros [= <-].
Qed.

(** X5: set_metadata(key, value, bandID) followed by get_metadata(key,
    bandID) gives the value back, for the dataset and for a band given by
    its number or by its name.  (Excepted is the call that renames the band
    it addresses by name.) *)
Theorem set_metadata_get_metadata (w w' : World) (l : list (LogLevel * string))
    (key value : string) (bandID : option BandID) :
  raw (self w) ≠ vrt (self w) →
  match bandID with Some (BStr _) => key ≠ "BandName" | _ => True end →
  set_metadata (Key key) value bandID w = (w', l, inr tt) →
  get_metadata (Some key) bandID w' = (w', [], inr (Some value)).
Proof.
  intros Hne Hk Hrun.
  apply set_metadata_returns in Hrun
    as (rv & wv & band & Hr & Hv & Hrec & [mw Hmw] & _ & _ & Hself & _ & Hv' & _);
    [|done].
  simpl in Hv'. rewrite <- Hself in Hv'.
  rewrite (get_metadata_run _ _ _ _ Hv').
  rewrite receiver_set_item, Hrec
    by (destruct bandID as [[?|?]|]; try done; by left).
  rewrite metadata_at_set_item, Hmw. simpl. by rewrite lookup_insert_eq.
Qed.

(** X6: set_metadata writes to the raw tree as well, so what it sets
    outlives a reset of the working tree: after set_metadata(key, value)
    for the dataset or for band n, resize() - or reproject() - returns and
    get_metadata(key) still gives the value. *)
Theorem set_metadata_survives_reset `{Engine} (w w1 : World)
    (l1 : list (LogLevel * string)) (key value : string) (n : option Z)
    (method : string) (alg : Z) :
  raw (self w) ≠ vrt (self w) →
  set_metadata (Key key) value (BInt <$> n) w = (w1, l1, inr tt) →
  ∃ w2,
    resize 1 None None method w1 = (w2, [], inr tt) ∧
    reproject None alg w1 = (w2, [], inr tt) ∧
    get_metadata (Some key) (BInt <$> n) w2 = (w2, [], inr (Some value)).
Proof.
  intros Hne Hrun.
  apply set_metadata_returns in Hrun
    as (rv & wv & band & Hr & Hv & Hrec & _ & Hmr & _ & Hself & Hr' & _ & _);
    [|done].
  destruct Hmr as [mr Hmr]; [done|].
  simpl in Hr'. rewrite <- Hself in Hr'.
  eexists. split; [|split].
  - rewrite resize_reset_path by done. by apply reset_live.
  - unfold reproject. by apply reset_live.
  - apply receiver_int in Hrec as Hband. subst band.
    erewrite get_metadata_run
      by (simpl; apply list_lookup_middle; reflexivity).
    assert (Hrec' : receiver (with_fileName (vsi_name (length (heap w1)))
                                (set_item n key value rv)) (BInt <$> n)
                    = inr n).
    { destruct n as [m|]; simpl in *; [|done].
      destruct (GetRasterBand rv m) as [b|] eqn:Hb; [|done].
      apply GetRasterBand_Some in Hb as [Hm Hb].
      pose proof (lookup_lt_Some _ _ _ Hb).
      rewrite band_number_of_int; [done|].
      unfold RasterCount. simpl. rewrite length_insert. lia. }
    rewrite Hrec'.
    change (metadata_at n (with_fileName ?f ?t)) with (metadata_at n t).
    rewrite metadata_at_set_item, Hmr. simpl. by rewrite lookup_insert_eq.
Qed.

(** X7: set_metadata is all or nothing: a call that raises - the band is
    not found, or the raw tree has no band of that number - leaves the
    object exactly as it was. *)
Theorem set_metadata_atomic (w w' : World) (l : list (LogLevel * string))
    (e : Error) (key : MetadataKey) (value : string) (bandID : option BandID) :
  raw (self w) ≠ vrt (self w) →
  set_metadata key value bandID w = (w', l, inl e) →
  w' = w ∧ l = [].
Proof.
  intros Hne Hrun.
  destruct (heap w !! raw (self w)) as [rv|] eqn:Hr;
    [|destruct (set_metadata_dead w key value bandID) as [e' He];
      [by left | rewrite He in Hrun; by simplify_eq]].
  destruct (heap w !! vrt (self w)) as [wv|] eqn:Hv;
    [|destruct (set_metadata_dead w key value bandID) as [e' He];
      [by right | rewrite He in Hrun; by simplify_eq]].
  pose proof (set_metadata_run w rv wv key value bandID Hne Hr Hv) as Hspec.
  cbv zeta in Hspec.
  destruct (receiver wv bandID) as [e'|band];
    [rewrite Hspec in Hrun; by simplify_eq|].
  destruct (metadata_at band rv) as [mr|].
  - destruct Hspec as (w1 & Hrun1 & _). by rewrite Hrun in Hrun1.
  - rewrite Hspec in Hrun. by simplify_eq.
Qed.

(** X8: set_metadata with a dict merges the dict over the metadata that is
    there, the items of the dict winning, whatever the order in which the
    dict is walked; the argument value is not used. *)
Theorem set_metadata_dict (w w' : World) (l : list (LogLevel * string))
    (d m : gmap string string) (value : string) (bandID : option BandID) :
  raw (self w) ≠ vrt (self w) →
  match bandID with Some (BStr _) => d !! "BandName" = None | _ => True end →
  get_metadata None bandID w = (w, [], inr m) →
  set_metadata (Keys d) value bandID w = (w', l, inr tt) →
  get_metadata None bandID w' = (w', [], inr (dict_update m d)).
Proof.
  intros Hne Hk Hget Hrun.
  apply set_metadata_returns in Hrun
    as (rv & wv & band & Hr & Hv & Hrec & [mw Hmw] & _ & _ & Hself & _ & Hv' & _);
    [|done].
  rewrite (get_metadata_run _ _ _ _ Hv), Hrec, Hmw in Hget. simplify_eq.
  rewrite <- Hself in Hv'. rewrite (get_metadata_run _ _ _ _ Hv').
  rewrite receiver_set_items, Hrec.
  - rewrite set_item_foldl_metadata, Hmw. simpl. by rewrite foldl_insert_dict.
  - destruct bandID as [[?|?]|]; try done. left.
    intros Hin. apply list_elem_of_fmap in Hin as ([k x] & Hkx & Hin).
    apply elem_of_map_to_list in Hin. simpl in Hkx. subst. by rewrite Hk in Hin.
Qed.

(** X9: set_metadata(key, value) for the dataset or for band n changes
    this one item only: every other item, of the dataset and of every band,
    reads as before, and the number of bands stays. *)
Theorem set_metadata_frame (w w' : World) (l : list (LogLevel * string))
    (key value key' : string) (n n' : option Z) :
  raw (self w) ≠ vrt (self w) →
  set_metadata (Key key) value (BInt <$> n) w = (w', l, inr tt) →
  key' ≠ key ∨ n' ≠ n →
  (get_metadata (Some key') (BInt <$> n') w').2
    = (get_metadata (Some key') (BInt <$> n') w).2 ∧
  RasterCount <$> heap w' !! vrt (self w') = RasterCount <$> heap w !! vrt (self w).
Proof.
  intros Hne Hrun Hother.
  apply set_metadata_returns in Hrun
    as (rv & wv & band & Hr & Hv & Hrec & [mw Hmw] & _ & _ & Hself & _ & Hv' & _);
    [|done].
  simpl in Hv'. rewrite <- Hself in Hv'.
  apply receiver_int in Hrec as Hband. subst band. split.
  - rewrite (get_metadata_run _ _ _ _ Hv'), (get_metadata_run _ _ _ _ Hv). simpl.
    rewrite receiver_set_item by (by destruct n').
    destruct (receiver wv (BInt <$> n')) as [e|band'] eqn:Hrec'; [done|].
    apply receiver_int in Hrec' as ->.
    destruct (decide (n' = n)) as [->|Hn].
    + destruct Hother as [Hkey|]; [|done].
      rewrite metadata_at_set_item, Hmw. simpl. by rewrite lookup_insert_ne.
    + by rewrite metadata_at_set_item_ne.
  - rewrite Hv', Hv. simpl. unfold RasterCount. by rewrite set_item_length.
Qed.


End SetMetadata.
Lemma set_metadata_get_metadata_witness :
  get_metadata (Some "units") (Some (BStr "A"))
    (set_metadata (Key "units") "K" (Some (BStr "A")) sample_world).1.1
  = ((set_metadata (Key "units") "K" (Some (BStr "A")) sample_world).1.1,
     [], inr (Some "K")).
Proof.
  apply (set_metadata_get_metadata sample_world _
           (set_metadata (Key "units") "K" (Some (BStr "A")) sample_world).1.2
           "units" "K" (Some (BStr "A"))).
  - discriminate.
  - discriminate.
  - vm_compute. reflexivity.
Defined.

Lemma set_metadata_survives_reset_witness :
  ∃ w2,
    resize 1 None None "average"
      (set_metadata (Key "units") "K" (Some (BInt 1)) sample_world).1.1
      = (w2, [], inr tt) ∧
    @reproject sample_engine None 0
      (set_metadata (Key "units") "K" (Some (BInt 1)) sample_world).1.1
      = (w2, [], inr tt) ∧
    get_metadata (Some "units") (Some (BInt 1)) w2 = (w2, [], inr (Some "K")).
Proof.
  apply (@set_metadata_survives_reset sample_engine sample_world _
           (set_metadata (Key "units") "K" (Some (BInt 1)) sample_world).1.2
           "units" "K" (Some 1) "average" 0).
  - discriminate.
  - vm_compute. reflexivity.
Defined.

Lemma set_metadata_atomic_witness :
  set_metadata (Key "units") "K" (Some (BStr "Z")) sample_world
    = (sample_world, [],
       inl (OptionError "Cannot find band Z! bandNumber is from 1 to 1")) ∧
  sample_world = sample_world ∧ @nil (LogLevel * string) = [].
Proof.
  split; [reflexivity|].
  apply (set_metadata_atomic sample_world sample_world []
           (OptionError "Cannot find band Z! bandNumber is from 1 to 1")
           (Key "units") "K" (Some (BStr "Z"))).
  - discriminate.
  - reflexivity.
Defined.

Lemma set_metadata_dict_witness :
  get_metadata None (Some (BStr "A"))
    (set_metadata (Keys {[ "units" := "K"; "wkv" := "sst" ]}) ""
       (Some (BStr "A")) sample_world).1.1
  = ((set_metadata (Keys {[ "units" := "K"; "wkv" := "sst" ]}) ""
        (Some (BStr "A")) sample_world).1.1,
     [],
     inr (dict_update {[ "BandName" := "A" ]}
            {[ "units" := "K"; "wkv" := "sst" ]})).
Proof.
  apply (set_metadata_dict sample_world _
           (set_metadata (Keys {[ "units" := "K"; "wkv" := "sst" ]}) ""
              (Some (BStr "A")) sample_world).1.2
           {[ "units" := "K"; "wkv" := "sst" ]} {[ "BandName" := "A" ]}
           "" (Some (BStr "A"))).
  - discriminate.
  - vm_compute. reflexivity.
  - vm_compute. reflexivity.
  - vm_compute. reflexivity.
Defined.

Lemma set_metadata_frame_witness :
  (get_metadata (Some "BandName") (Some (BInt 1))
     (set_metadata (Key "units") "K" (Some (BInt 1)) sample_world).1.1).2
    = (get_metadata (Some "BandName") (Some (BInt 1)) sample_world).2 ∧
  RasterCount <$>
    heap (set_metadata (Key "units") "K" (Some (BInt 1)) sample_world).1.1
      !! vrt (self (set_metadata (Key "units") "K" (Some (BInt 1))
                      sample_world).1.1)
    = RasterCount <$> heap sample_world !! vrt (self sample_world).
Proof.
  apply (set_metadata_frame sample_world _
           (set_metadata (Key "units") "K" (Some (BInt 1)) sample_world).1.2
           "units" "K" "BandName" (Some 1) (Some 1)).
  - discriminate.
  - vm_compute. reflexivity.
  - left. discriminate.
Defined.

(** ** What a call leaves alone *)

Section Frame.

Implicit Types (w : World).

Lemma extends_refl w : extends w w.
Proof. split; [done|]. exists []. by rewrite app_nil_r. Qed.

Lemma extends_lookup w0 w h :
  extends w0 w → (h < length (heap w0))%nat → heap w !! h = heap w0 !! h.
Proof. intros [_ [new ->]] Hh. by apply lookup_app_l. Qed.

Lemma extends_length w0 w : extends w0 w → (length (heap w0) ≤ length (heap w))%nat.
Proof. intros [_ [new ->]]. rewrite length_app. lia. Qed.

(** Rules for [only_adds]. *)

Lemma only_adds_mono {A} w0 (m : M A) (Q Q' : A → Prop) :
  only_adds w0 m Q → (∀ a, Q a → Q' a) → only_adds w0 m Q'.
Proof.
  intros Hm HQ w w' l r Hext Hrun. destruct (Hm _ _ _ _ Hext Hrun) as [? Ha].
  split; [done|]. intros a ->. by apply HQ, Ha.
Qed.

Lemma only_adds_ret {A} w0 (a : A) (Q : A → Prop) : Q a → only_adds w0 (mret a) Q.
Proof.
  intros HQ w w' l r Hext Hrun. unfold mret, M_ret in Hrun. simplify_eq.
  split; [done|]. by intros ? [= <-].
Qed.

Lemma only_adds_raise {A} w0 e (Q : A → Prop) : only_adds w0 (raise e) Q.
Proof. intros w w' l r Hext Hrun. unfold raise in Hrun. by simplify_eq. Qed.

Lemma only_adds_lift {A} w0 (x : Error + A) : only_adds w0 (lift x) (λ a, x = inr a).
Proof. intros w w' l r Hext Hrun. unfold lift in Hrun. by simplify_eq. Qed.

Lemma only_adds_get_self w0 : only_adds w0 get_self (λ s, s = self w0).
Proof.
  intros w w' l r [Hs Hh] Hrun. unfold get_self in Hrun. simplify_eq.
  split; [done|]. by intros ? [= <-].
Qed.

Lemma only_adds_logger w0 lvl msg : only_adds w0 (logger lvl msg) (λ _, True).
Proof. intros w w' l r Hext Hrun. unfold logger in Hrun. by simplify_eq. Qed.

Lemma only_adds_emit w0 l0 : only_adds w0 (emit l0) (λ _, True).
Proof. intros w w' l r Hext Hrun. unfold emit in Hrun. by simplify_eq. Qed.

Lemma only_adds_deref w0 h : only_adds w0 (deref h) (λ _, True).
Proof.
  intros w w' l r Hext Hrun. unfold deref in Hrun.
  destruct (heap w !! h); by simplify_eq.
Qed.

Lemma only_adds_alloc w0 v : only_adds w0 (alloc v) (unallocated w0).
Proof.
  intros w w' l r Hext Hrun. unfold alloc in Hrun. simplify_eq.
  pose proof (extends_length _ _ Hext). destruct Hext as [Hs [new Hh]].
  split.
  - split; [done|]. simpl. rewrite Hh, <- app_assoc. by eexists.
  - by intros ? [= <-].
Qed.

(** Writing to a new object leaves the objects of [w0] alone. *)
Lemma only_adds_store w0 h v : unallocated w0 h → only_adds w0 (store h v) (λ _, True).
Proof.
  intros Hf w w' l r [Hs [new Hh]] Hrun. unfold store in Hrun. simplify_eq.
  split; [|done]. split; [done|]. simpl. rewrite Hh.
  exists (<[(h - length (heap w0))%nat := v]> new).
  rewrite insert_app_r_alt by done. done.
Qed.

Lemma only_adds_bind {A B} w0 (m : M A) (k : A → M B) Q Q' :
  only_adds w0 m Q → (∀ a, Q a → only_adds w0 (k a) Q') →
  only_adds w0 (m ≫= k) Q'.
Proof.
  intros Hm Hk w w' l r Hext Hrun. unfold mbind, M_bind in Hrun.
  destruct (m w) as [[w1 l1] [e|a]] eqn:E.
  - simplify_eq. destruct (Hm _ _ _ _ Hext E) as [? _]. done.
  - destruct (k a w1) as [[w2 l2] r2] eqn:E2. simplify_eq.
    destruct (Hm _ _ _ _ Hext E) as [Hext1 Ha].
    by eapply (Hk a (Ha a eq_refl)).
Qed.

Lemma only_adds_copy w0 h : only_adds w0 (copy h) (unallocated w0).
Proof.
  unfold copy. eapply only_adds_bind; [apply only_adds_deref|].
  intros v _. apply only_adds_alloc.
Qed.

Lemma only_adds_foldM {A S} w0 (body : S → A → M S) (Q : S → Prop) l s :
  Q s → (∀ s x, Q s → only_adds w0 (body s x) Q) →
  only_adds w0 (foldM body l s) Q.
Proof.
  intros Hs Hbody. revert s Hs. induction l as [|x l IH]; intros s Hs; simpl.
  - by apply only_adds_ret.
  - eapply only_adds_bind; [by apply Hbody|]. intros s' Hs'. by apply IH.
Qed.

Lemma only_adds_get_band_number w0 bandID :
  only_adds w0 (_get_band_number bandID) (λ _, True).
Proof.
  unfold _get_band_number.
  eapply only_adds_bind; [apply only_adds_get_self|]. intros s _.
  eapply only_adds_bind; [apply only_adds_deref|]. intros v _.
  eapply only_adds_mono; [apply only_adds_lift|]. done.
Qed.

Lemma only_adds_create_band `{Engine} w0 h src dst :
  unallocated w0 h → only_adds w0 (_create_band h src dst) (λ _, True).
Proof.
  intros Hf. unfold _create_band.
  eapply only_adds_bind; [apply only_adds_deref|]. intros v _.
  eapply only_adds_bind; [by apply only_adds_store|]. intros _ _.
  by apply only_adds_ret.
Qed.

(** Rules for [raises_clean]. *)

Lemma raises_clean_bind {A B} w0 (m : M A) (k : A → M B) Q :
  only_adds w0 m Q → (∀ a, Q a → raises_clean w0 (k a)) →
  raises_clean w0 (m ≫= k).
Proof.
  intros Hm Hk w w' l e Hext Hrun. unfold mbind, M_bind in Hrun.
  destruct (m w) as [[w1 l1] [e1|a]] eqn:E.
  - simplify_eq. by destruct (Hm _ _ _ _ Hext E).
  - destruct (k a w1) as [[w2 l2] r2] eqn:E2. simplify_eq.
    destruct (Hm _ _ _ _ Hext E) as [Hext1 Ha].
    by eapply (Hk a (Ha a eq_refl)).
Qed.

Lemma raises_clean_only_adds {A} w0 (m : M A) Q :
  only_adds w0 m Q → raises_clean w0 m.
Proof. intros Hm w w' l e Hext Hrun. by destruct (Hm _ _ _ _ Hext Hrun). Qed.

End Frame.

Ltac only_adds_step :=
  lazymatch goal with
  | |- only_adds _ (mbind _ (alloc _)) _ =>
      eapply only_adds_bind; [apply only_adds_alloc|intros ? ?]
  | |- only_adds _ (mbind _ (copy _)) _ =>
      eapply only_adds_bind; [apply only_adds_copy|intros ? ?]
  | |- only_adds _ (mbind _ (lift _)) _ =>
      eapply only_adds_bind; [apply only_adds_lift|intros ? ?]
  | |- only_adds _ (mbind _ get_self) _ =>
      eapply only_adds_bind; [apply only_adds_get_self|intros ? ?]
  | |- only_adds _ (mbind _ (deref _)) _ =>
      eapply only_adds_bind; [apply only_adds_deref|intros ? _]
  | |- only_adds _ (mbind _ (logger _ _)) _ =>
      eapply only_adds_bind; [apply only_adds_logger|intros ? _]
  | |- only_adds _ (mbind _ (emit _)) _ =>
      eapply only_adds_bind; [apply only_adds_emit|intros ? _]
  | |- only_adds _ (mbind _ (_get_band_number _)) _ =>
      eapply only_adds_bind; [apply only_adds_get_band_number|intros ? _]
  | |- only_adds _ (mbind _ (store _ _)) _ =>
      eapply only_adds_bind; [apply only_adds_store; assumption|intros ? _]
  | |- only_adds _ (mbind _ (_create_band _ _ _)) _ =>
      eapply only_adds_bind; [apply only_adds_create_band; assumption|intros ? _]
  | |- only_adds _ (mbind _ (match ?x with _ => _ end)) _ => destruct x eqn:?
  | |- only_adds _ (mbind _ _) _ =>
      eapply (only_adds_bind _ _ _ (λ _, True)); [|intros ? _]
  | |- only_adds _ (mret _) _ => apply only_adds_ret; try done
  | |- only_adds _ (raise _) _ => apply only_adds_raise
  | |- only_adds _ (store _ _) _ =>
      eapply only_adds_mono; [apply only_adds_store; assumption|done]
  | |- only_adds _ (alloc _) _ =>
      eapply only_adds_mono; [apply only_adds_alloc|try done]
  | |- only_adds _ (copy _) _ =>
      eapply only_adds_mono; [apply only_adds_copy|try done]
  | |- only_adds _ (lift _) _ =>
      eapply only_adds_mono; [apply only_adds_lift|done]
  | |- only_adds _ (deref _) _ =>
      eapply only_adds_mono; [apply only_adds_deref|done]
  | |- only_adds _ (logger _ _) _ =>
      eapply only_adds_mono; [apply only_adds_logger|done]
  | |- only_adds _ (match ?x with _ => _ end) _ => destruct x eqn:?
  end.

Section FrameOfTheMethods.

Context `{Engine}.

Lemma export_build_only_adds w0 bands_ :
  only_adds w0 (export_build bands_) (unallocated w0).
Proof.
  unfold export_build, export_band. repeat only_adds_step.
  apply only_adds_foldM; [done|]. intros allBands bandID _.
  repeat only_adds_step.
Qed.

Lemma export_narrow_only_adds w0 e :
  unallocated w0 e → only_adds w0 (export_narrow e) (λ _, True).
Proof. intros He. unfold export_narrow. repeat only_adds_step. Qed.

Lemma export_finish_only_adds w0 e rm :
  unallocated w0 e → only_adds w0 (export_finish e rm) (λ _, True).
Proof. intros He. unfold export_finish. repeat only_adds_step. Qed.

Lemma export_only_adds w0 bands_ rm :
  only_adds w0 (export bands_ rm) (unallocated w0).
Proof.
  unfold export.
  eapply only_adds_bind; [apply export_build_only_adds|]. intros e He.
  eapply only_adds_bind; [by apply export_narrow_only_adds|]. intros _ _.
  eapply only_adds_bind; [by apply export_finish_only_adds|]. intros _ _.
  by apply only_adds_ret.
Qed.

(** X10: export works on a tree of its own: whether it returns or raises,
    the object refers to the same raw and working tree as before, every
    tree that existed is as it was, and the tree that is handed to the
    driver is a new object. *)
Theorem export_leaves_object (w w' : World) (bands_ : option (list BandID))
    (rmMetadata : list string) (l : list (LogLevel * string))
    (r : Error + handle) :
  export bands_ rmMetadata w = (w', l, r) →
  self w' = self w ∧
  (∀ h, (h < length (heap w))%nat → heap w' !! h = heap w !! h) ∧
  (∀ e, r = inr e → (length (heap w) ≤ e)%nat).
Proof.
  intros Hrun.
  destruct (export_only_adds w bands_ rmMetadata w w' l r (extends_refl w) Hrun)
    as [Hext He].
  split_and!; [by destruct Hext | | done].
  intros h Hh. by apply extends_lookup.
Qed.

(** The part of [add_band] before the raw tree is written only reads and
    creates objects; after the raw tree is written nothing raises. *)
Lemma add_band_raises_clean w0 fileName_ vrt_ bandID array parameters alg :
  raises_clean w0 (add_band fileName_ vrt_ bandID array parameters alg).
Proof.
  unfold add_band. cbv zeta.
  eapply (raises_clean_bind _ _ _ (λ _, True)); [repeat only_adds_step|].
  intros st1 _.
  eapply (raises_clean_bind _ _ _ (λ _, True)); [repeat only_adds_step|].
  intros st2 _.
  eapply (raises_clean_bind _ _ _ (λ _, True)); [repeat only_adds_step|].
  intros st3 _.
  intros w w' l e Hext Hrun.
  destruct st3.1 as [[vrt2add bandNumber]|]; [|unfold raise in Hrun; by simplify_eq].
  unfold _create_band in Hrun. munfold.
  destruct (heap w !! vrt2add) as [v2|]; [|by simplify_eq].
  destruct (heap w !! raw (self w)) as [rv|] eqn:Hr; [|by simplify_eq].
  mred. cbv beta iota in Hrun. cbn [heap self raw] in Hrun.
  rewrite list_lookup_insert_eq in Hrun by (by eapply lookup_lt_Some).
  by simplify_eq.
Qed.

(** X11: add_band is all or nothing for the object: a call that raises -
    the file cannot be opened or reprojected, the band is not found, no
    source is given - has not written to any tree: the object refers to the
    same raw and working tree, and they and every other tree are as they
    were. *)
Theorem add_band_atomic (w w' : World) (fileName_ : option string)
    (vrt_ : option handle) (bandID : BandID) (array : option ndarray)
    (parameters : option (gmap string string)) (alg : Z)
    (l : list (LogLevel * string)) (e : Error) :
  add_band fileName_ vrt_ bandID array parameters alg w = (w', l, inl e) →
  self w' = self w ∧
  ∀ h, (h < length (heap w))%nat → heap w' !! h = heap w !! h.
Proof.
  intros Hrun.
  pose proof (add_band_raises_clean w _ _ _ _ _ _ w w' l e (extends_refl w) Hrun)
    as Hext.
  split; [by destruct Hext|]. intros h Hh. by apply extends_lookup.
Qed.

(** X12: resize and reproject do nothing when they raise: after a call
    that raises - an unknown method, a division by a zero size, a warp
    that fails - the object and every tree are exactly as before, and
    nothing was logged. *)
Theorem resize_reproject_atomic (w : World) :
  (∀ factor width height method w' l e,
     resize factor width height method w = (w', l, inl e) → w' = w ∧ l = []) ∧
  (∀ dstDomain resamplingAlg w' l e,
     reproject dstDomain resamplingAlg w = (w', l, inl e) → w' = w ∧ l = []).
Proof.
  split.
  - intros factor width height method w' l e Hrun. unfold resize in Hrun.
    destruct (_ && _) in Hrun.
    + munfold. destruct (heap w !! raw (self w)); by simplify_eq.
    + destruct width, height; munfold;
        repeat (case_match; simplify_eq/=); done.
  - intros dstDomain alg w' l e Hrun. unfold reproject in Hrun.
    destruct dstDomain as [d|]; munfold;
      repeat (case_match; simplify_eq/=); done.
Qed.

(** What reproject onto a destination does, given the raw tree and the
    working tree of the destination. *)
Lemma reproject_run w d dv rv alg :
  heap w !! d = Some dv → heap w !! raw (self w) = Some rv →
  reproject (Some d) alg w =
    match create_warped_vrt rv
            (if bool_decide (0 < length (gcps dv))%nat
             then gcpProjection dv else projection dv)
            (gcps dv) alg (rasterXSize dv) (rasterYSize dv) (geoTransform dv) with
    | inl e => (w, [], inl e)
    | inr warped =>
        (mkWorld (heap w ++ [with_fileName (vsi_name (length (heap w))) warped])
           (mkNansat (raw (self w)) (length (heap w)) (addedBands (self w))),
         [], inr tt)
    end.
Proof.
  intros Hd Hr. unfold reproject. munfold. rewrite Hd. mred. rewrite Hr. mred.
  by destruct (create_warped_vrt _ _ _ _ _ _ _).
Qed.

(** resize writes to the working tree only. *)
Lemma resize_other_trees w factor width height method w' l r h :
  resize factor width height method w = (w', l, r) →
  (h < length (heap w))%nat → h ≠ vrt (self w) →
  heap w' !! h = heap w !! h.
Proof.
  intros Hrun Hh Hne. unfold resize in Hrun.
  destruct (_ && _) in Hrun.
  - munfold. destruct (heap w !! raw (self w)); simplify_eq; [|done].
    simpl. by apply lookup_app_l.
  - destruct width, height; munfold;
      repeat (case_match; simplify_eq/=); try done;
      by rewrite list_lookup_insert_ne.
Qed.

(** X13: reproject starts from the raw tree: what it gives depends on the
    raw tree and on the destination, not on the working tree.  So a resize
    before it has no effect on its result: reproject after resize returns
    or raises as reproject alone, and the working tree is the same warped
    tree. *)
Theorem reproject_forgets_resize (w w1 w2 : World) (d : handle) (alg : Z)
    (factor : Q) (width height : option Z) (method : string)
    (l1 l2 : list (LogLevel * string)) (r1 r2 : Error + ()) :
  raw (self w) ≠ vrt (self w) → d ≠ vrt (self w) →
  live w d → live w (raw (self w)) →
  resize factor width height method w = (w1, l1, r1) →
  reproject (Some d) alg w = (w2, l2, r2) →
  ∃ w3,
    reproject (Some d) alg w1 = (w3, l2, r2) ∧
    raw (self w3) = raw (self w2) ∧
    heap w3 !! raw (self w3) = heap w2 !! raw (self w2) ∧
    (r2 = inr tt →
     ∃ warped,
       heap w2 !! vrt (self w2)
         = Some (with_fileName (vsi_name (vrt (self w2))) warped) ∧
       heap w3 !! vrt (self w3)
         = Some (with_fileName (vsi_name (vrt (self w3))) warped)).
Proof.
  intros Hne Hd [dv Hdv] [rv Hrv] Hresize Hrep.
  pose proof (lookup_lt_Some _ _ _ Hdv) as Hld.
  pose proof (lookup_lt_Some _ _ _ Hrv) as Hlr.
  pose proof (resize_other_trees _ _ _ _ _ _ _ _ d Hresize Hld Hd) as Hdv1.
  pose proof (resize_other_trees _ _ _ _ _ _ _ _ _ Hresize Hlr Hne) as Hrv1.
  assert (Hraw : raw (self w1) = raw (self w)).
  { unfold resize in Hresize. destruct (_ && _) in Hresize.
    - rewrite (reset_live _ _ Hrv) in Hresize. by simplify_eq.
    - destruct width, height; munfold;
        repeat (case_match; simplify_eq/=); done. }
  rewrite Hdv in Hdv1. rewrite Hrv, <- Hraw in Hrv1.
  rewrite (reproject_run _ _ _ _ _ Hdv Hrv) in Hrep.
  rewrite (reproject_run _ _ _ _ _ Hdv1 Hrv1).
  destruct (create_warped_vrt _ _ _ _ _ _ _) as [e|warped]; simplify_eq.
  - exists w1. split_and!; [done | done | by rewrite Hrv1, Hrv | done].
  - eexists. split; [reflexivity|]. cbn [raw self heap vrt].
    pose proof (lookup_lt_Some _ _ _ Hrv1).
    split_and!; [done | |].
    + rewrite !lookup_app_l by lia. by rewrite Hrv1, Hrv.
    + intros _. exists warped. by rewrite !list_lookup_middle.
Qed.

End FrameOfTheMethods.

Lemma export_leaves_object_witness :
  self (@export sample_engine None [] sample_world_typed).1.1
    = self sample_world_typed ∧
  (∀ h, (h < length (heap sample_world_typed))%nat →
        heap (@export sample_engine None [] sample_world_typed).1.1 !! h
        = heap sample_world_typed !! h) ∧
  (∀ e, (@export sample_engine None [] sample_world_typed).2 = inr e →
        (length (heap sample_world_typed) ≤ e)%nat).
Proof.
  apply (@export_leaves_object sample_engine sample_world_typed _ None []
           (@export sample_engine None [] sample_world_typed).1.2).
  apply triple_eta.
Defined.

Lemma add_band_atomic_witness :
  @add_band sample_engine None None (BInt 1) None None 1 sample_world
    = (sample_world, [], inl (AttributeError "NoneType")) ∧
  self sample_world = self sample_world ∧
  ∀ h, (h < length (heap sample_world))%nat →
       heap sample_world !! h = heap sample_world !! h.
Proof.
  split; [reflexivity|].
  apply (@add_band_atomic sample_engine sample_world sample_world None None
           (BInt 1) None None 1 [] (AttributeError "NoneType")).
  reflexivity.
Defined.

Lemma reproject_forgets_resize_witness :
  ∃ w3,
    @reproject sample_engine (Some 0%nat) 0
      (resize 2 None None "average" sample_world).1.1
      = (w3, (@reproject sample_engine (Some 0%nat) 0 sample_world).1.2,
         (@reproject sample_engine (Some 0%nat) 0 sample_world).2) ∧
    raw (self w3) = raw (self (@reproject sample_engine (Some 0%nat) 0 sample_world).1.1) ∧
    heap w3 !! raw (self w3)
      = heap (@reproject sample_engine (Some 0%nat) 0 sample_world).1.1
          !! raw (self (@reproject sample_engine (Some 0%nat) 0 sample_world).1.1) ∧
    ((@reproject sample_engine (Some 0%nat) 0 sample_world).2 = inr tt →
     ∃ warped,
       heap (@reproject sample_engine (Some 0%nat) 0 sample_world).1.1
         !! vrt (self (@reproject sample_engine (Some 0%nat) 0 sample_world).1.1)
         = Some (with_fileName
                   (vsi_name (vrt (self (@reproject sample_engine (Some 0%nat) 0
                                           sample_world).1.1)))
                   warped) ∧
       heap w3 !! vrt (self w3)
         = Some (with_fileName (vsi_name (vrt (self w3))) warped)).
Proof.
  apply (@reproject_forgets_resize sample_engine sample_world
           (resize 2 None None "average" sample_world).1.1 _ 0%nat 0
           2%Q None None "average"
           (resize 2 None None "average" sample_world).1.2 _
           (resize 2 None None "average" sample_world).2).
  - discriminate.
  - discriminate.
  - by eexists.
  - by eexists.
  - apply triple_eta.
  - apply triple_eta.
Defined.

(** ** More on resize and on the constructor *)

Lemma resize_reproject_atomic_witness :
  resize 2 None None "nearest" sample_world
    = (sample_world, [],
       inl (OptionError "method should be 'average' or 'subsample'")) ∧
  sample_world = sample_world ∧ @nil (LogLevel * string) = [].
Proof.
  split; [reflexivity|].
  apply (proj1 (@resize_reproject_atomic sample_engine sample_world)
           2%Q None None "nearest" sample_world []
           (OptionError "method should be 'average' or 'subsample'")).
  reflexivity.
Defined.

Section ResizeBands.

(** A call of resize that is not the reset call and returns has divided by
    no zero and was given one of the two methods. *)
Lemma resize_returns w v factor width height method w' l :
  heap w !! vrt (self w) = Some v →
  is_reset factor width height = false →
  resize factor width height method w = (w', l, inr tt) →
  sizes_ok width height v ∧ method_ok method = true.
Proof.
  intros Hv Hreset Hrun.
  assert (Hsz : sizes_ok width height v).
  { unfold resize, is_reset in *. rewrite Hreset in Hrun. split.
    - intros [wd ->] HX. apply Z.eqb_eq in HX.
      destruct height; munfold; rewrite Hv in Hrun; cbv beta iota in Hrun;
        by rewrite HX in Hrun.
    - intros [ht ->] HY. apply Z.eqb_eq in HY.
      destruct width; munfold; rewrite Hv in Hrun; cbv beta iota in Hrun;
        repeat (case_match; simplify_eq/=); congruence. }
  split; [done|].
  rewrite (resize_run _ _ _ _ _ _ Hv Hreset Hsz) in Hrun.
  by destruct (method_ok method).
Qed.

Lemma resize_band_metadata method b : bandMeta (resize_band method b) = bandMeta b.
Proof.
  unfold resize_band. destruct (String.eqb _ _); [|done]. by destruct (sourceTag b).
Qed.

Lemma bands_from_resize method k l :
  bands_from k (resize_band method <$> l) = bands_from k l.
Proof.
  revert k. induction l as [|b l IH]; intros k; simpl; [done|].
  by rewrite resize_band_metadata, IH.
Qed.

(** X14: a resize that returns changes the size, the kind of source of the
    bands and the ground control points, and nothing else of the working
    tree: the bands are the same in number, keep their metadata, their
    element type and their source, so that every band identifier resolves
    as before; projection, geotransform and global metadata stay.  With the
    method average every band is read through an averaged source; with
    subsample the band descriptors are untouched. *)
Theorem resize_keeps_bands (w w' : World) (v : VRT) (factor : Q)
    (width height : option Z) (method : string) (l : list (LogLevel * string)) :
  heap w !! vrt (self w) = Some v →
  is_reset factor width height = false →
  resize factor width height method w = (w', l, inr tt) →
  ∃ v',
    self w' = self w ∧ heap w' !! vrt (self w) = Some v' ∧
    bands v' = bands v ∧
    (∀ bandID, band_number_of v' bandID = band_number_of v bandID) ∧
    dataType <$> vrtBands v' = dataType <$> vrtBands v ∧
    (λ b, (srcFilename b, srcBand b)) <$> vrtBands v'
      = (λ b, (srcFilename b, srcBand b)) <$> vrtBands v ∧
    projection v' = projection v ∧ geoTransform v' = geoTransform v ∧
    vrtMeta v' = vrtMeta v ∧
    (method = "average" →
     Forall (λ b, sourceTag b = AveragedSource) (vrtBands v')) ∧
    (method = "subsample" → vrtBands v' = vrtBands v).
Proof.
  intros Hv Hreset Hrun.
  destruct (resize_returns _ _ _ _ _ _ _ _ Hv Hreset Hrun) as [Hsz Hm].
  rewrite (resize_run _ _ _ _ _ _ Hv Hreset Hsz), Hm in Hrun. simplify_eq.
  eexists. split; [done|]. split.
  { simpl. apply list_lookup_insert_eq. by eapply lookup_lt_Some. }
  assert (Hb : bands (resize_edit (effective_factor factor width height v) method v)
               = bands v).
  { unfold bands. simpl. apply bands_from_resize. }
  split_and!; try done.
  - intros bandID. unfold band_number_of, RasterCount. rewrite Hb. simpl.
    by rewrite length_fmap.
  - simpl. rewrite <- list_fmap_compose. apply list_fmap_ext. intros i b _.
    simpl. unfold resize_band. destruct (String.eqb _ _); [|done].
    by destruct (sourceTag b).
  - simpl. rewrite <- list_fmap_compose. apply list_fmap_ext. intros i b _.
    simpl. unfold resize_band. destruct (String.eqb _ _); [|done].
    by destruct (sourceTag b).
  - intros ->. simpl. apply Forall_fmap, Forall_forall. intros b _. simpl.
    unfold resize_band. rewrite String.eqb_refl.
    by destruct (sourceTag b) eqn:E.
  - intros ->. simpl. rewrite <- (list_fmap_id (vrtBands v)) at 2.
    by apply list_fmap_ext.
Qed.

End ResizeBands.

Lemma resize_keeps_bands_witness :
  ∃ v',
    self (resize 1 (Some 3) None "average" sample_world_gcps).1.1
      = self sample_world_gcps ∧
    heap (resize 1 (Some 3) None "average" sample_world_gcps).1.1
      !! vrt (self sample_world_gcps) = Some v' ∧
    bands v' = bands (with_gcps [mkGCP "1" 0 0 10 60 0; mkGCP "2" 4 5 11 59 0]%Q
                        (with_fileName (vsi_name 1) (sample_tree 4 5 [Some "A"]))) ∧
    (∀ bandID,
       band_number_of v' bandID
       = band_number_of
           (with_gcps [mkGCP "1" 0 0 10 60 0; mkGCP "2" 4 5 11 59 0]%Q
              (with_fileName (vsi_name 1) (sample_tree 4 5 [Some "A"]))) bandID) ∧
    dataType <$> vrtBands v' = ["Float32"] ∧
    (λ b, (srcFilename b, srcBand b)) <$> vrtBands v' = [("in.nc", 1)] ∧
    projection v' = "WGS84" ∧ geoTransform v' = [0; 1; 0; 0; 0; -1]%Q ∧
    vrtMeta v' = ∅ ∧
    ("average" = "average" →
     Forall (λ b, sourceTag b = AveragedSource) (vrtBands v')) ∧
    ("average" = "subsample" →
     vrtBands v' = vrtBands (with_gcps [mkGCP "1" 0 0 10 60 0; mkGCP "2" 4 5 11 59 0]%Q
                               (with_fileName (vsi_name 1) (sample_tree 4 5 [Some "A"])))).
Proof.
  apply (resize_keeps_bands sample_world_gcps _
           (with_gcps [mkGCP "1" 0 0 10 60 0; mkGCP "2" 4 5 11 59 0]%Q
              (with_fileName (vsi_name 1) (sample_tree 4 5 [Some "A"])))
           1%Q (Some 3) None "average"
           (resize 1 (Some 3) None "average" sample_world_gcps).1.2).
  - reflexivity.
  - reflexivity.
  - reflexivity.
Defined.

Section Constructor.

Context `{Engine}.

(** The first steps of the constructor from a domain: two new trees with
    the geometry of the domain. *)
Lemma init_domain_run w0 mapperName d dv array parameters :
  heap w0 !! d = Some dv →
  __init__ "" mapperName (Some d) array parameters w0 =
    match array with
    | Some a =>
        add_band None None (BInt 1) (Some a) parameters 1
          (mkWorld
             ((heap w0 ++ [with_fileName (vsi_name (length (heap w0)))
                             (VRT_from_dataset dv None)])
              ++ [with_fileName (vsi_name (S (length (heap w0))))
                    (VRT_from_dataset dv None)])
             (mkNansat (length (heap w0)) (S (length (heap w0))) ∅))
    | None =>
        (mkWorld
           ((heap w0 ++ [with_fileName (vsi_name (length (heap w0)))
                           (VRT_from_dataset dv None)])
            ++ [with_fileName (vsi_name (S (length (heap w0))))
                  (VRT_from_dataset dv None)])
           (mkNansat (length (heap w0)) (S (length (heap w0))) ∅),
         [], inr tt)
    end.
Proof.
  intros Hd. unfold __init__. simpl.
  rewrite (bind_pure _ _ _ _ (deref_live _ _ _ Hd)).
  unfold mbind at 1, M_bind at 1. unfold alloc at 1.
  unfold mbind at 1, M_bind at 1. unfold alloc at 1. cbn [heap self].
  unfold mbind at 1, M_bind at 1. unfold set_raw_vrt at 1. cbn [heap self].
  rewrite length_app. simpl. rewrite Nat.add_1_r.
  destruct array as [a|]; [|done].
  by destruct (add_band _ _ _ _ _ _ _) as [[??]?].
Qed.


End Constructor.


(** ** More on export *)

Section ExportMetadata.

Context `{Engine}.

(** Removing metadata only removes. *)
Lemma remove_metadata_None lvl msg rm (m : gmap string string) k :
  m !! k = None → (remove_metadata lvl msg rm m).2 !! k = None.
Proof.
  revert m. induction rm as [|x rm IH]; intros m Hk; simpl; [done|].
  destruct (m !! x) eqn:Hx.
  - apply IH. destruct (decide (x = k)) as [->|?].
    + apply lookup_delete_eq.
    + by rewrite lookup_delete_ne.
  - specialize (IH m Hk). by destruct (remove_metadata lvl msg rm m).
Qed.

(** Every key of the list is gone afterwards. *)
Lemma remove_metadata_absent lvl msg rm (m : gmap string string) k :
  k ∈ rm → (remove_metadata lvl msg rm m).2 !! k = None.
Proof.
  revert m. induction rm as [|x rm IH]; intros m Hk; [by apply elem_of_nil in Hk|].
  simpl. destruct (decide (x = k)) as [->|Hne].
  - destruct (m !! k) eqn:Hx.
    + apply remove_metadata_None, lookup_delete_eq.
    + pose proof (remove_metadata_None lvl msg rm m k Hx).
      by destruct (remove_metadata lvl msg rm m).
  - apply elem_of_cons in Hk as [->|Hk]; [done|].
    destruct (m !! x).
    + by apply IH.
    + specialize (IH m Hk). by destruct (remove_metadata lvl msg rm m).
Qed.

(** A key that is not in the list stays as it is. *)
Lemma remove_metadata_other lvl msg rm (m : gmap string string) k :
  k ∉ rm → (remove_metadata lvl msg rm m).2 !! k = m !! k.
Proof.
  revert m. induction rm as [|x rm IH]; intros m Hk; simpl; [done|].
  apply not_elem_of_cons in Hk as [Hne Hk].
  destruct (m !! x).
  - rewrite IH by done. by apply lookup_delete_ne.
  - specialize (IH m Hk). by destruct (remove_metadata lvl msg rm m).
Qed.

Lemma export_bands_metadata_lookup rm k (l : list Band) (i : nat) b :
  l !! i = Some b →
  (export_bands_metadata rm k l).2 !! i
  = Some (export_band_metadata rm (k + Z.of_nat i) b).2.
Proof.
  revert k i. induction l as [|x l IH]; intros k i Hi; [done|]. simpl.
  destruct (export_band_metadata rm k x) as [lx x'] eqn:Hx.
  destruct (export_bands_metadata rm (k + 1) l) as [ll l'] eqn:Hl.
  destruct i as [|i]; simpl in *.
  - simplify_eq. rewrite Z.add_0_r, Hx. done.
  - specialize (IH (k + 1) i Hi). rewrite Hl in IH. simpl in IH. rewrite IH.
    do 3 f_equal. lia.
Qed.

Lemma export_bands_metadata_length rm k (l : list Band) :
  length (export_bands_metadata rm k l).2 = length l.
Proof.
  revert k. induction l as [|x l IH]; intros k; [done|]. simpl.
  specialize (IH (k + 1)).
  destruct (export_band_metadata rm k x), (export_bands_metadata rm (k + 1) l).
  simpl in *. by rewrite IH.
Qed.

(** The metadata of a band after the last step of export. *)
Lemma export_band_metadata_meta rm k b :
  bandMeta (export_band_metadata rm k b).2
  = (remove_metadata INFO
       (λ rmMeta, "Unable to remove metadata " +:+ rmMeta +:+ " from band " +:+
                  pretty (k + 1))
       rm
       (match bandMeta b !! "BandName" with
        | Some name => <["NETCDF_VARNAME" := name]> (bandMeta b)
        | None => bandMeta b
        end)).2.
Proof.
  unfold export_band_metadata.
  destruct (bandMeta b !! "BandName"); by destruct (remove_metadata _ _ _ _).
Qed.

(** What the part of export after the narrowing makes of the export tree:
    its bands are the bands it had, and the two geolocation bands if there
    are any, each with its metadata reworked; its global metadata are some
    metadata with the projection and the geotransform added and then the
    unwanted keys removed. *)
Lemma export_finish_spec w e ev rm :
  heap w !! e = Some ev →
  wp (export_finish e rm)
    (λ _ w', ∃ ev' extra base srs gt,
       heap w' !! e = Some ev' ∧
       vrtBands ev' = (export_bands_metadata rm 0 (vrtBands ev ++ extra)).2 ∧
       vrtMeta ev' =
         (remove_metadata INFO
            (λ rmMeta, "Global metadata " +:+ rmMeta +:+ " not found") rm
            (<["NANSAT_GeoTransform" := replace_char ","%char "|"%char gt]>
               (<["NANSAT_Projection" :=
                    replace_char "034"%char "&"%char
                      (replace_char ","%char "|"%char srs)]> base))).2) w.
Proof.
  intros He. pose proof (lookup_lt_Some _ _ _ He) as Hlt.
  unfold export_finish, _create_band.
  repeat (wp_step; cbn [heap self] in *;
          repeat match goal with
            | H : <[e:=_]> _ !! e = Some _ |- _ =>
                rewrite list_lookup_insert_eq in H
                  by (by rewrite ?length_insert); simplify_eq
            | H : heap w !! e = Some ?x |- _ =>
                assert_fails (constr_eq x ev); rewrite He in H; simplify_eq
            end).
  all: cbn [vrtBands vrtMeta with_vrtMeta with_bands] in *.
  all: eexists _, _, _, _, _; split;
    [apply list_lookup_insert_eq; by rewrite ?length_insert|].
  all: cbn [vrtBands vrtMeta with_vrtMeta with_bands].
  all: split;
    [|match goal with
      | H : remove_metadata _ _ _ _ = _ |- _ => by rewrite H
      end].
  - match goal with
    | H : export_bands_metadata _ _ _ = _ |- _ =>
        rewrite <- app_assoc in H; by rewrite H
    end.
  - match goal with
    | H : export_bands_metadata _ _ (vrtBands ?x) = _ |- _ =>
        rewrite <- (app_nil_r (vrtBands x)) in H; by rewrite H
    end.
Qed.

(** A call of export that returns: the tree that was built, and what became
    of it. *)
Lemma export_returns w bands_ rm w' l e :
  export bands_ rm w = (w', l, inr e) →
  ∃ w1 l1 ev ev' extra base srs gt,
    export_build bands_ w = (w1, l1, inr e) ∧
    heap w1 !! e = Some ev ∧
    heap w' !! e = Some ev' ∧
    vrtBands ev' =
      (export_bands_metadata rm 0 ((narrow_band <$> vrtBands ev) ++ extra)).2 ∧
    vrtMeta ev' =
      (remove_metadata INFO
         (λ rmMeta, "Global metadata " +:+ rmMeta +:+ " not found") rm
         (<["NANSAT_GeoTransform" := replace_char ","%char "|"%char gt]>
            (<["NANSAT_Projection" :=
                 replace_char "034"%char "&"%char
                   (replace_char ","%char "|"%char srs)]> base))).2.
Proof.
  unfold export. intros Hrun.
  apply bind_inv in Hrun as (w1 & l1 & e0 & la & Hb & Hrun & _).
  apply bind_inv in Hrun as (wn & ln & [] & lb & Hn & Hrun & _).
  apply bind_inv in Hrun as (wk & lf & [] & lc & Hf & Hrun & _).
  unfold mret, M_ret in Hrun. simplify_eq.
  apply export_narrow_inv in Hn as (ev & Hev & ->).
  pose proof (lookup_lt_Some _ _ _ Hev) as Hlt.
  destruct (export_finish_spec
              (mkWorld (<[e:=with_bands (narrow_band <$> vrtBands ev) ev]> (heap w1))
                 (self w1))
              e (with_bands (narrow_band <$> vrtBands ev) ev) rm
              (list_lookup_insert_eq _ _ _ Hlt) _ _ _ Hf)
    as (ev' & extra & base & srs & gt & Hev' & Hbands & Hmeta).
  by exists w1, l1, ev, ev', extra, base, srs, gt.
Qed.

(** X16: export(rmMetadata=...) removes every listed key from the global
    metadata and from the metadata of every band of the tree that is
    written, the geolocation bands included. *)
Theorem export_removes_metadata (w w' : World) (bands_ : option (list BandID))
    (rmMetadata : list string) (l : list (LogLevel * string)) (e : handle) :
  export bands_ rmMetadata w = (w', l, inr e) →
  ∃ ev',
    heap w' !! e = Some ev' ∧
    ∀ k, k ∈ rmMetadata →
      vrtMeta ev' !! k = None ∧
      Forall (λ b, bandMeta b !! k = None) (vrtBands ev').
Proof.
  intros Hrun.
  apply export_returns in Hrun
    as (w1 & l1 & ev & ev' & extra & base & srs & gt & _ & _ & Hev' & Hb & Hm).
  exists ev'. split; [done|]. intros k Hk. split.
  - rewrite Hm. by apply remove_metadata_absent.
  - rewrite Hb. apply Forall_lookup. intros i b' Hi.
    pose proof (lookup_lt_Some _ _ _ Hi) as Hlt.
    rewrite export_bands_metadata_length in Hlt.
    destruct (lookup_lt_is_Some_2 _ _ Hlt) as [b Hbi].
    rewrite (export_bands_metadata_lookup _ _ _ _ _ Hbi) in Hi. simplify_eq.
    rewrite export_band_metadata_meta. by apply remove_metadata_absent.
Qed.

(** X17: every band of the tree that export builds and that has a BandName
    is written with this name as its NETCDF_VARNAME - also when BandName
    itself is among the keys to remove - unless NETCDF_VARNAME is to be
    removed. *)
Theorem export_sets_varname (w w' : World) (bands_ : option (list BandID))
    (rmMetadata : list string) (l : list (LogLevel * string)) (e : handle) :
  export bands_ rmMetadata w = (w', l, inr e) →
  "NETCDF_VARNAME" ∉ rmMetadata →
  ∃ w1 l1 ev ev',
    export_build bands_ w = (w1, l1, inr e) ∧
    heap w1 !! e = Some ev ∧
    heap w' !! e = Some ev' ∧
    ∀ (i : nat) b s, vrtBands ev !! i = Some b → carries s b →
      ∃ b', vrtBands ev' !! i = Some b' ∧
            bandMeta b' !! "NETCDF_VARNAME" = Some s.
Proof.
  intros Hrun Hrm.
  apply export_returns in Hrun
    as (w1 & l1 & ev & ev' & extra & base & srs & gt & Hb & Hev & Hev' & Hbs & _).
  exists w1, l1, ev, ev'. split_and!; try done.
  intros i b s Hi Hs. eexists. split.
  - rewrite Hbs. apply export_bands_metadata_lookup.
    apply lookup_app_l_Some. by rewrite list_lookup_fmap, Hi.
  - rewrite export_band_metadata_meta. simpl.
    rewrite remove_metadata_other by done.
    unfold carries in Hs. rewrite Hs. apply lookup_insert_eq.
Qed.

Lemma replace_char_absent a b s :
  a ≠ b → a ∉ chars (replace_char a b s).
Proof.
  intros Hne. induction s as [|c s IH]; simpl; [apply not_elem_of_nil|].
  apply not_elem_of_cons. split; [|done].
  destruct (Ascii.eqb_spec c a) as [->|?]; congruence.
Qed.

Lemma replace_char_keeps_absent a b c s :
  c ≠ b → c ∉ chars s → c ∉ chars (replace_char a b s).
Proof.
  intros Hne. induction s as [|x s IH]; simpl; [done|].
  intros Hc. apply not_elem_of_cons in Hc as [Hx Hc].
  apply not_elem_of_cons. split; [|by apply IH].
  destruct (Ascii.eqb x a); congruence.
Qed.

(** X18: the projection and the geotransform are written into the global
    metadata in a form without commas, and the projection without double
    quotes: whatever the projection, the items NANSAT_Projection and
    NANSAT_GeoTransform of the tree that is written hold no comma, and
    NANSAT_Projection no double quote; the items are there unless they are
    to be removed. *)
Theorem export_projection_items (w w' : World) (bands_ : option (list BandID))
    (rmMetadata : list string) (l : list (LogLevel * string)) (e : handle) :
  export bands_ rmMetadata w = (w', l, inr e) →
  ∃ ev',
    heap w' !! e = Some ev' ∧
    (∀ s, vrtMeta ev' !! "NANSAT_Projection" = Some s →
          (","%char ∉ chars s) ∧ ("034"%char ∉ chars s)) ∧
    (∀ s, vrtMeta ev' !! "NANSAT_GeoTransform" = Some s →
          (","%char ∉ chars s)) ∧
    ("NANSAT_Projection" ∉ rmMetadata →
     is_Some (vrtMeta ev' !! "NANSAT_Projection")) ∧
    ("NANSAT_GeoTransform" ∉ rmMetadata →
     is_Some (vrtMeta ev' !! "NANSAT_GeoTransform")).
Proof.
  intros Hrun.
  apply export_returns in Hrun
    as (w1 & l1 & ev & ev' & extra & base & srs & gt & _ & _ & Hev' & _ & Hm).
  exists ev'. split; [done|].
  assert (Hcases : ∀ k x (m : gmap string string),
    (remove_metadata INFO
       (λ rmMeta, "Global metadata " +:+ rmMeta +:+ " not found")
       rmMetadata m).2 !! k = Some x → m !! k = Some x).
  { intros k x m Hx. destruct (decide (k ∈ rmMetadata)) as [Hin|Hin].
    - by rewrite remove_metadata_absent in Hx.
    - by rewrite remove_metadata_other in Hx. }
  rewrite Hm. split_and!.
  - intros s Hs. apply Hcases in Hs.
    rewrite lookup_insert_ne, lookup_insert_eq in Hs by done. simplify_eq. split.
    + apply replace_char_keeps_absent; [done|]. by apply replace_char_absent.
    + by apply replace_char_absent.
  - intros s Hs. apply Hcases in Hs. rewrite lookup_insert_eq in Hs. simplify_eq.
    by apply replace_char_absent.
  - intros Hrm. rewrite remove_metadata_other by done.
    rewrite lookup_insert_ne, lookup_insert_eq by done. by eexists.
  - intros Hrm. rewrite remove_metadata_other by done.
    rewrite lookup_insert_eq. by eexists.
Qed.

(** Runs that raise. *)

Lemma fails_bind_l {A B} (m : M A) (k : A → M B) w :
  fails m w → fails (m ≫= k) w.
Proof.
  intros (w' & l & e & Hm). exists w', l, e. unfold mbind, M_bind. by rewrite Hm.
Qed.

Lemma fails_bind_r {A B} (m : M A) (k : A → M B) w w1 l1 a :
  m w = (w1, l1, inr a) → fails (k a) w1 → fails (m ≫= k) w.
Proof.
  intros Hm (w' & l & e & Hk). exists w', (l1 ++ l), e.
  unfold mbind, M_bind. by rewrite Hm, Hk.
Qed.

Lemma fails_wp {A} (m : M A) (Q : A → World → Prop) w : fails m w → wp m Q w.
Proof. intros (w1 & l1 & e & Hm) w' l a Hrun. by rewrite Hm in Hrun. Qed.

(** A loop raises when, with an invariant that holds at its start and that
    every round keeps, there is a round that raises or leaves a state in
    which the rest of the loop raises. *)
Lemma foldM_fails {A S} (body : S → A → M S) (I : S → World → Prop) l1 x l2 s w :
  I s w →
  (∀ s y w, I s w → wp (body s y) I w) →
  (∀ s w, I s w → wp (body s x) (λ s' w', fails (foldM body l2 s') w') w) →
  fails (foldM body (l1 ++ x :: l2) s) w.
Proof.
  intros HI Hkeep Hx. revert s w HI.
  induction l1 as [|y l1 IH]; intros s w HI; simpl.
  - destruct (body s x w) as [[w1 lg1] [e|s1]] eqn:Hy.
    + apply fails_bind_l. by exists w1, lg1, e.
    + eapply fails_bind_r; [exact Hy|]. by eapply Hx.
  - destruct (body s y w) as [[w1 lg1] [e|s1]] eqn:Hy.
    + apply fails_bind_l. by exists w1, lg1, e.
    + eapply fails_bind_r; [exact Hy|]. apply IH. by eapply Hkeep.
Qed.

(** One round of the loop over the requested bands: it writes to the export
    tree only, and afterwards the entry of its band has lost its
    SourceFilename. *)
Lemma export_band_keeps e wv n bandID S w :
  heap w !! vrt (self w) = Some wv → e ≠ vrt (self w) →
  wp (export_band e wv S bandID)
    (λ S' w', heap w' !! vrt (self w') = Some wv ∧ e ≠ vrt (self w') ∧
              (popped n S ∨ band_number_of wv bandID = inr n → popped n S')) w.
Proof.
  intros Hv Hne w' l S' Hrun. unfold export_band, _create_band in Hrun.
  unfold mbind at 1, M_bind at 1 in Hrun.
  rewrite (get_band_number_run _ _ _ Hv) in Hrun.
  destruct (band_number_of wv bandID) as [er|k] eqn:Hk; [done|].
  destruct (S !! k) as [m|] eqn:Hm; [|unfold raise in Hrun; by simplify_eq].
  munfold. unfold dict_pop in Hrun.
  destruct (m !! "SourceFilename") eqn:H1; [|by simplify_eq].
  destruct (delete "SourceFilename" m !! "SourceBand") eqn:H2; [|by simplify_eq].
  destruct (heap w !! e) as [ev|]; [|by simplify_eq].
  simplify_eq. cbn [heap self]. rewrite list_lookup_insert_ne by done.
  split_and!; [done | done |].
  intros HJ m' Hm'. destruct (decide (k = n)) as [->|Hkn].
  - rewrite lookup_insert_eq in Hm'. simplify_eq.
    rewrite lookup_delete_ne by done. apply lookup_delete_eq.
  - rewrite lookup_insert_ne in Hm' by done.
    destruct HJ as [HJ|HJ]; [by apply HJ | congruence].
Qed.

(** A band whose entry has lost its SourceFilename cannot be exported. *)
Lemma export_band_popped e wv n bandID S w :
  heap w !! vrt (self w) = Some wv →
  popped n S → band_number_of wv bandID = inr n →
  fails (export_band e wv S bandID) w.
Proof.
  intros Hv HJ Hn. unfold export_band.
  eapply fails_bind_r;
    [rewrite (get_band_number_run _ _ _ Hv), Hn; reflexivity|]. cbv beta.
  destruct (S !! n) as [m|] eqn:Hm; [|by eexists _, _, _].
  apply fails_bind_l. unfold dict_pop. rewrite (HJ m Hm). by eexists _, _, _.
Qed.


End ExportMetadata.

Lemma export_removes_metadata_witness :
  ∃ ev',
    heap (@export sample_engine None ["BandName"] sample_world_typed).1.1 !! 2%nat
      = Some ev' ∧
    ∀ k, k ∈ ["BandName"] →
      vrtMeta ev' !! k = None ∧
      Forall (λ b, bandMeta b !! k = None) (vrtBands ev').
Proof.
  apply (@export_removes_metadata sample_engine sample_world_typed _ None
           ["BandName"]
           (@export sample_engine None ["BandName"] sample_world_typed).1.2 2%nat).
  vm_compute. reflexivity.
Defined.

Lemma export_sets_varname_witness :
  ∃ w1 l1 ev ev',
    @export_build sample_engine None sample_world_typed = (w1, l1, inr 2%nat) ∧
    heap w1 !! 2%nat = Some ev ∧
    heap (@export sample_engine None ["BandName"] sample_world_typed).1.1 !! 2%nat
      = Some ev' ∧
    ∀ (i : nat) b s, vrtBands ev !! i = Some b → carries s b →
      ∃ b', vrtBands ev' !! i = Some b' ∧
            bandMeta b' !! "NETCDF_VARNAME" = Some s.
Proof.
  apply (@export_sets_varname sample_engine sample_world_typed _ None
           ["BandName"]
           (@export sample_engine None ["BandName"] sample_world_typed).1.2 2%nat).
  - vm_compute. reflexivity.
  - apply (bool_decide_unpack _). vm_compute. exact I.
Defined.

Lemma export_projection_items_witness :
  ∃ ev',
    heap (@export sample_engine None [] sample_world_typed).1.1 !! 2%nat
      = Some ev' ∧
    (∀ s, vrtMeta ev' !! "NANSAT_Projection" = Some s →
          (","%char ∉ chars s) ∧ ("034"%char ∉ chars s)) ∧
    (∀ s, vrtMeta ev' !! "NANSAT_GeoTransform" = Some s →
          (","%char ∉ chars s)) ∧
    ("NANSAT_Projection" ∉ @nil string →
     is_Some (vrtMeta ev' !! "NANSAT_Projection")) ∧
    ("NANSAT_GeoTransform" ∉ @nil string →
     is_Some (vrtMeta ev' !! "NANSAT_GeoTransform")).
Proof.
  apply (@export_projection_items sample_engine sample_world_typed _ None []
           (@export sample_engine None [] sample_world_typed).1.2 2%nat).
  vm_compute. reflexivity.
Defined.


(** An object with the band A and an added band B: B alone is exported,
    B twice is not, and the second entry is the one that fails. *)
Example export_twice_scenario :
  let w := (@add_band sample_engine None None (BInt 1) (Some sample_ones)
              (Some {[ "BandName" := "B" ]}) 1 sample_world).1.1 in
  (∃ e, (@export sample_engine (Some [BStr "B"]) [] w).2 = inr e) ∧
  (@export sample_engine (Some [BStr "B"; BInt 2]) [] w).2
    = inl (KeyError "SourceFilename").
Proof. split; [eexists|]; vm_compute; reflexivity. Qed.

(** ** More on mosaic *)

Section MosaicBands.

Context `{Engine}.

(** The first part of mosaic reads the object and does not write it. *)
Lemma mosaic_compute_world files bands_ w w' lg r :
  mosaic_compute files bands_ w = (w', lg, r) →
  w' = w ∧ (∀ x, r = inr x → is_Some (heap w !! vrt (self w))).
Proof.
  unfold mosaic_compute. intros Hrun. munfold.
  destruct (heap w !! vrt (self w)) as [wv|] eqn:Hv;
    [|simplify_eq; split; [done|]; by intros ? [=]].
  split; [|by eexists].
  destruct (foldM (mosaic_file _ _) files _ w) as [[w1 l1] [e|acc]] eqn:Hfiles;
    apply (foldM_world _ _ (mosaic_file_world _ _)) in Hfiles as ->;
    [by simplify_eq|].
  destruct (foldM (mosaic_average _) bands_ _ w) as [[w2 l2] [e|ms]] eqn:Havg.
  - apply foldM_world in Havg; [by simplify_eq|].
    intros [a s] x w0 w0' lg0 r0. unfold mosaic_average. munfold.
    intros ?. by simplify_eq.
  - apply foldM_world in Havg; [by simplify_eq|].
    intros [a s] x w0 w0' lg0 r0. unfold mosaic_average. munfold.
    intros ?. by simplify_eq.
Qed.

Lemma band_names_snoc rv b :
  band_names (with_bands (vrtBands rv ++ [b]) rv)
  = band_names rv ++ [bandMeta b !! "BandName"].
Proof. unfold band_names. simpl. by rewrite fmap_app. Qed.

(** The loop of mosaic that adds the mean and the std band of every
    requested band. *)
Lemma mosaic_emit_loop (ms : gmap string ndarray * gmap string ndarray) bands_ :
  ∀ w rv wv,
    heap w !! raw (self w) = Some rv → heap w !! vrt (self w) = Some wv →
    ∃ w' lg rv',
      foldM (λ _ b,
               _ ← logger DEBUG ("    " +:+ b);
               _ ← add_band None None (BInt 1) (Some (ms.1 !!! b))
                     (Some {[ "BandName" := b ]}) 1;
               add_band None None (BInt 1) (Some (ms.2 !!! b))
                 (Some {[ "BandName" := b +:+ "_std" ]}) 1)
        bands_ tt w = (w', lg, inr tt) ∧
      raw (self w') = raw (self w) ∧
      heap w' !! raw (self w') = Some rv' ∧
      is_Some (heap w' !! vrt (self w')) ∧
      band_names rv'
      = band_names rv ++ (bands_ ≫= λ b, [Some b; Some (b +:+ "_std")]).
Proof.
  induction bands_ as [|b bands_ IH]; intros w rv wv Hr Hv.
  - exists w, [], rv. simpl. rewrite app_nil_r. by split_and!.
  - destruct (add_band_array_spec w rv wv (ms.1 !!! b) {[ "BandName" := b ]}
                (BInt 1) 1 Hr Hv)
      as (w1 & k1 & rv1 & Hrun1 & Hraw1 & Hrv1 & -> & _ & _ & Hv1 & _).
    destruct (add_band_array_spec w1 _ _ (ms.2 !!! b)
                {[ "BandName" := b +:+ "_std" ]} (BInt 1) 1 Hrv1 Hv1)
      as (w2 & k2 & rv2 & Hrun2 & Hraw2 & Hrv2 & -> & _ & _ & Hv2 & _).
    destruct (IH w2 _ _ Hrv2 Hv2) as (w' & lg & rv' & Hrun & Hraw & Hrv' & Hv' & Hn).
    exists w', ((DEBUG, "    " +:+ b) :: lg), rv'. split_and!; try done.
    + simpl foldM.
      erewrite bind_run; [|unfold mbind, M_bind, logger; rewrite Hrun1, Hrun2;
                           reflexivity].
      rewrite Hrun. reflexivity.
    + congruence.
    + rewrite Hn, !band_names_snoc, !new_band_BandName, !lookup_singleton_eq.
      simpl. by rewrite <- !app_assoc.
Qed.

(** The second part of mosaic: it returns, and the names of the bands of
    the raw tree are the names that were there, followed by mask and, for
    every requested band, its name and its name with the suffix _std. *)
Lemma mosaic_emit_run bands_ maskMat ms w rv wv :
  heap w !! raw (self w) = Some rv → heap w !! vrt (self w) = Some wv →
  ∃ w' lg rv',
    mosaic_emit bands_ maskMat ms w = (w', lg, inr tt) ∧
    raw (self w') = raw (self w) ∧
    heap w' !! raw (self w') = Some rv' ∧
    is_Some (heap w' !! vrt (self w')) ∧
    band_names rv' = band_names rv ++ mosaic_names bands_.
Proof.
  intros Hr Hv.
  destruct (add_band_array_spec w rv wv maskMat {[ "BandName" := "mask" ]}
              (BInt 1) 1 Hr Hv)
    as (w1 & k1 & rv1 & Hrun1 & Hraw1 & Hrv1 & -> & _ & _ & Hv1 & _).
  destruct (mosaic_emit_loop ms bands_ w1 _ _ Hrv1 Hv1)
    as (w' & lg & rv' & Hrun & Hraw & Hrv' & Hv' & Hn).
  exists w', ([(DEBUG, "Adding bands"); (DEBUG, "    mask")] ++ lg), rv'.
  split_and!; try done.
  - unfold mosaic_emit.
    erewrite bind_run; [|reflexivity]. erewrite bind_run; [|reflexivity].
    erewrite bind_run; [|exact Hrun1]. rewrite Hrun. reflexivity.
  - congruence.
  - rewrite Hn, band_names_snoc, new_band_BandName, lookup_singleton_eq.
    unfold mosaic_names. by rewrite <- app_assoc.
Qed.



End MosaicBands.

Section MosaicSums.

Context `{Engine}.

(** One readable file: what the round of the loop over the files makes of
    the matrices. *)
Lemma mosaic_file_readable w wv b f x acc :
  heap w !! vrt (self w) = Some wv →
  readable wv b f x →
  ∃ lg,
    mosaic_file (shape_of wv) [b] acc f w =
      (w, lg,
       inr (mkAcc (arr_zip Qplus (cntMat acc) (valid_pixels x.1))
              x.1 (arr_zip Qmax2 x.1 (maskMat1 acc))
              (<[b := arr_zip Qplus (avgMat acc !!! b) (mask_invalid x.1 x.2)]>
                 (avgMat acc))
              (<[b := arr_zip Qplus (stdMat acc !!! b)
                        (arr_map square (mask_invalid x.1 x.2))]>
                 (stdMat acc)))).
Proof.
  intros Hv (n & n1 & n2 & Hn & Hn1 & Hn2 & Hmask & Hsm & Ha & Hsa).
  unfold mosaic_file, mosaic_band. simpl foldM. munfold.
  rewrite Hn. mred. rewrite Hn1. mred. rewrite Hv. mred. rewrite Hn2. mred.
  rewrite Hmask. mred. rewrite Hsm, bool_decide_eq_true_2 by done. mred.
  rewrite Ha. mred. rewrite Hsa, bool_decide_eq_true_2 by done. mred.
  cbn [negb]. mred. cbn [cntMat maskMat0 maskMat1 avgMat stdMat].
  by eexists.
Qed.

Lemma Qmax2_ge x y : Qle_bool x (Qmax2 x y) = true.
Proof.
  unfold Qmax2. destruct (Qle_bool x y) eqn:E; [done|].
  apply Qle_bool_iff, Qle_refl.
Qed.

(** The loop over readable files: the matrices grow by the sums over the
    files. *)
Lemma mosaic_files_readable w wv b files inputs :
  heap w !! vrt (self w) = Some wv →
  Forall2 (readable wv b) files inputs →
  ∀ acc,
    (∀ i j, Qle_bool (px (maskMat0 acc) i j) (px (maskMat1 acc) i j) = true) →
    ∃ lg acc',
      foldM (mosaic_file (shape_of wv) [b]) files acc w = (w, lg, inr acc') ∧
      (∀ i j,
         px (cntMat acc') i j == px (cntMat acc) i j + valid_count inputs i j ∧
         px (avgMat acc' !!! b) i j
           == px (avgMat acc !!! b) i j + masked_sum inputs i j ∧
         px (stdMat acc' !!! b) i j
           == px (stdMat acc !!! b) i j + masked_sumsq inputs i j ∧
         px (maskMat1 acc') i j
           = foldl (λ m x, Qmax2 (px x.1 i j) m) (px (maskMat1 acc) i j) inputs ∧
         Qle_bool (px (maskMat0 acc') i j) (px (maskMat1 acc') i j) = true)%Q.
Proof.
  intros Hv Hall. induction Hall as [|f x files inputs Hf Hall IH]; intros acc Hle.
  - exists [], acc. split; [done|]. intros i j. simpl.
    split_and!; try done; ring.
  - destruct (mosaic_file_readable w wv b f x acc Hv Hf) as [lg1 Hstep].
    edestruct (IH (mkAcc (arr_zip Qplus (cntMat acc) (valid_pixels x.1))
                     x.1 (arr_zip Qmax2 x.1 (maskMat1 acc))
                     (<[b := arr_zip Qplus (avgMat acc !!! b) (mask_invalid x.1 x.2)]>
                        (avgMat acc))
                     (<[b := arr_zip Qplus (stdMat acc !!! b)
                               (arr_map square (mask_invalid x.1 x.2))]>
                        (stdMat acc))))
      as (lg & acc' & Hrun & Hpx).
    { intros i j. simpl. apply Qmax2_ge. }
    exists (lg1 ++ lg), acc'. split.
    + simpl foldM. rewrite (bind_run _ _ _ _ _ _ Hstep). by rewrite Hrun.
    + intros i j. destruct (Hpx i j) as (Hc & Ha & Hs & Hm & Hle').
      cbn [cntMat avgMat stdMat maskMat0 maskMat1] in *.
      rewrite !lookup_total_insert_eq in *.
      cbn [px arr_zip arr_map valid_pixels mask_invalid] in *.
      split_and!; [| | | done | done].
      * rewrite Hc. simpl. ring.
      * rewrite Ha. simpl. unfold masked_value. ring.
      * rewrite Hs. simpl. unfold masked_value. ring.
Qed.

(** The first part of mosaic on files that can all be read. *)
Lemma mosaic_compute_readable (w : World) (wv : VRT) (b : string)
    (files : list string) (inputs : list (ndarray * ndarray)) :
  heap w !! vrt (self w) = Some wv →
  Forall2 (readable wv b) files inputs →
  ∃ lg cnt maskMat ms,
    mosaic_compute files [b] w = (w, lg, inr (cnt, maskMat, ms)) ∧
    ∀ i j,
      (px cnt i j == valid_count inputs i j ∧
       px maskMat i j = mask_max inputs i j ∧
       px (ms.1 !!! b) i j == masked_sum inputs i j / valid_count inputs i j ∧
       px (ms.2 !!! b) i j ==
         square ((masked_sumsq inputs i j
                  - 2 * (masked_sum inputs i j / valid_count inputs i j)
                    * masked_sum inputs i j
                  + square (masked_sum inputs i j / valid_count inputs i j))
                 / valid_count inputs i j))%Q.
Proof.
  intros Hv Hall.
  destruct (mosaic_files_readable w wv b files inputs Hv Hall
              (mosaic_alloc (shape_of wv) [b]))
    as (lg & acc & Hrun & Hpx); [done|].
  unfold mosaic_compute.
  rewrite (bind_pure get_self _ w (self w)) by done.
  rewrite (bind_pure _ _ _ _ (deref_live _ _ _ Hv)).
  erewrite bind_run; [|reflexivity]. erewrite bind_run; [|reflexivity].
  cbv zeta. cbn [fst snd].
  erewrite bind_run; [|exact Hrun]. cbn [fst snd].
  simpl foldM. unfold mosaic_average. munfold. mred.
  eexists _, _, _, _. split; [reflexivity|]. cbn [fst snd].
  intros i j. destruct (Hpx i j) as (Hc & Ha & Hs & Hm & Hle).
  unfold mosaic_alloc in *. cbn [foldl cntMat avgMat stdMat maskMat0 maskMat1] in *.
  rewrite !lookup_total_insert_eq in *. cbn [px zeros] in *.
  assert (Hc' : (px (cntMat acc) i j == valid_count inputs i j)%Q)
    by (rewrite Hc; ring).
  assert (Ha' : (px (avgMat acc !!! b) i j == masked_sum inputs i j)%Q)
    by (rewrite Ha; ring).
  assert (Hs' : (px (stdMat acc !!! b) i j == masked_sumsq inputs i j)%Q)
    by (rewrite Hs; ring).
  split_and!.
  - done.
  - cbn [px arr_zip]. unfold Qmax2 at 1. by rewrite Hle, Hm.
  - cbn [px arr_zip]. by rewrite Hc', Ha'.
  - cbn [px arr_zip arr_map]. unfold square. by rewrite Hc', Ha', Hs'.
Qed.


Lemma Forall2_perm_l {A B} (P : A → B → Prop) l l' k :
  l ≡ₚ l' → Forall2 P l k → ∃ k', k ≡ₚ k' ∧ Forall2 P l' k'.
Proof.
  intros Hp. revert k. induction Hp as [|x l l' Hp IH|x y l|l l' l'' Hp1 IH1 Hp2 IH2];
    intros k Hk.
  - apply Forall2_nil_inv_l in Hk as ->. by exists [].
  - apply Forall2_cons_inv_l in Hk as (z & k0 & Hz & Hk & ->).
    destruct (IH _ Hk) as (k' & Hk' & HF). exists (z :: k').
    split; [by constructor | by constructor].
  - apply Forall2_cons_inv_l in Hk as (z1 & k0 & Hz1 & Hk & ->).
    apply Forall2_cons_inv_l in Hk as (z2 & k1 & Hz2 & Hk & ->).
    exists (z2 :: z1 :: k1). split; [apply perm_swap | by repeat constructor].
  - destruct (IH1 _ Hk) as (k1 & Hk1 & HF1).
    destruct (IH2 _ HF1) as (k2 & Hk2 & HF2).
    exists k2. split; [by etrans | done].
Qed.

Lemma valid_count_perm l l' i j :
  l ≡ₚ l' → (valid_count l i j == valid_count l' i j)%Q.
Proof.
  unfold valid_count.
  induction 1 as [|x l l' Hp IH|x y l|l l' l'' Hp1 IH1 Hp2 IH2]; simpl.
  - reflexivity.
  - by rewrite IH.
  - ring.
  - by rewrite IH1.
Qed.

Lemma masked_sum_perm l l' i j :
  l ≡ₚ l' → (masked_sum l i j == masked_sum l' i j)%Q.
Proof.
  unfold masked_sum.
  induction 1 as [|x l l' Hp IH|x y l|l l' l'' Hp1 IH1 Hp2 IH2]; simpl.
  - reflexivity.
  - by rewrite IH.
  - ring.
  - by rewrite IH1.
Qed.

Lemma masked_sumsq_perm l l' i j :
  l ≡ₚ l' → (masked_sumsq l i j == masked_sumsq l' i j)%Q.
Proof.
  unfold masked_sumsq.
  induction 1 as [|x l l' Hp IH|x y l|l l' l'' Hp1 IH1 Hp2 IH2]; simpl.
  - reflexivity.
  - by rewrite IH.
  - ring.
  - by rewrite IH1.
Qed.

Lemma Qmax2_Qmax x y : (Qmax2 x y == Qmax x y)%Q.
Proof.
  unfold Qmax2. destruct (Qle_bool x y) eqn:E.
  - apply Qle_bool_iff in E. symmetry. by apply Q.max_r.
  - symmetry. apply Q.max_l. apply Qlt_le_weak, Qnot_le_lt.
    intros Hle. apply Qle_bool_iff in Hle. congruence.
Qed.

Lemma mask_max_Qmax (l : list (ndarray * ndarray)) i j m m' :
  (m == m')%Q →
  (foldl (λ m x, Qmax2 (px x.1 i j) m) m l
   == foldl (λ m x, Qmax (px x.1 i j) m) m' l)%Q.
Proof.
  revert m m'. induction l as [|x l IH]; intros m m' Hm; simpl; [done|].
  apply IH. by rewrite Qmax2_Qmax, Hm.
Qed.

Lemma foldl_Qmax_proper (l : list (ndarray * ndarray)) i j m m' :
  (m == m')%Q →
  (foldl (λ m x, Qmax (px x.1 i j) m) m l
   == foldl (λ m x, Qmax (px x.1 i j) m) m' l)%Q.
Proof.
  revert m m'. induction l as [|z l IH]; intros m m' Hm; simpl; [done|].
  apply IH. by rewrite Hm.
Qed.

Lemma foldl_Qmax_perm (l l' : list (ndarray * ndarray)) i j m m' :
  l ≡ₚ l' → (m == m')%Q →
  (foldl (λ m x, Qmax (px x.1 i j) m) m l
   == foldl (λ m x, Qmax (px x.1 i j) m) m' l')%Q.
Proof.
  intros Hp. revert m m'.
  induction Hp as [|x l l' Hp IH|x y l|l l' l'' Hp1 IH1 Hp2 IH2];
    intros m m' Hm; simpl.
  - done.
  - apply IH. by rewrite Hm.
  - apply foldl_Qmax_proper.
    rewrite Hm, !Q.max_assoc, (Q.max_comm (px x.1 i j)). reflexivity.
  - etrans; [by apply IH1|]. by apply IH2.
Qed.

Lemma mask_max_perm l l' i j :
  l ≡ₚ l' → (mask_max l i j == mask_max l' i j)%Q.
Proof.
  intros Hp. unfold mask_max.
  rewrite (mask_max_Qmax l i j 0 0), (mask_max_Qmax l' i j 0 0) by reflexivity.
  by apply foldl_Qmax_perm.
Qed.


End MosaicSums.



Lemma sample_readable (f : string) :
  f ≠ "missing.nc" → f ≠ "swath.nc" →
  @readable sample_engine
    (with_fileName (vsi_name 1) (sample_tree 4 4 [Some "A"])) "sst" f
    (ones128 (4, 4), mkArray (4, 4) (λ _ _, sample_sst f)).
Proof.
  intros H1 H2. exists (f, false, (4, 4)), (f, false, (4, 4)), (f, true, (4, 4)).
  apply String.eqb_neq in H1, H2. simpl. unfold ensure_mask. simpl.
  rewrite H1, H2. by split_and!.
Qed.



(** ** get_time, and add_band from a tree *)

Section GetTime.

Context `{DateParser}.

Lemma get_time_loop w v (l1 l2 : list Band) acc :
  heap w !! vrt (self w) = Some v →
  vrtBands v = l1 ++ l2 →
  ∃ lg,
    foldM (λ time i,
             band ← get_GDALRasterBand (BInt (i + 1));
             match band_time band with
             | Some d => mret (time ++ [Some d])
             | None =>
                 _ ← logger DEBUG ("Band " +:+ pretty (i + 1) +:+ " has no time");
                 mret (time ++ [None])
             end)
      (seqZ (Z.of_nat (length l1)) (Z.of_nat (length l2))) acc w =
    (w, lg, inr (acc ++ ((λ b, band_time (Some b)) <$> l2))).
Proof.
  intros Hv. revert l1 acc. induction l2 as [|x l2 IH]; intros l1 acc Hsplit.
  - exists []. simpl. by rewrite app_nil_r.
  - rewrite seqZ_cons by (simpl; lia). simpl foldM.
    assert (Hband : get_GDALRasterBand (BInt (Z.of_nat (length l1) + 1)) w
                    = (w, [], inr (Some x))).
    { rewrite (get_GDALRasterBand_run _ _ _ Hv).
      rewrite band_number_of_int
        by (unfold RasterCount; rewrite Hsplit, length_app; simpl; lia).
      unfold GetRasterBand. rewrite (proj2 (Z.leb_le 1 _)) by lia.
      replace (Z.to_nat (Z.of_nat (length l1) + 1 - 1)) with (length l1) by lia.
      by rewrite Hsplit, list_lookup_middle. }
    replace (Z.succ (Z.of_nat (length l1))) with (Z.of_nat (length (l1 ++ [x])))
      by (rewrite length_app; simpl; lia).
    replace (Z.pred (Z.of_nat (S (length l2)))) with (Z.of_nat (length l2))
      by lia.
    destruct (IH (l1 ++ [x]) (acc ++ [band_time (Some x)]))
      as [lg Hrun]; [by rewrite <- app_assoc|].
    rewrite <- app_assoc in Hrun.
    change ((λ b, band_time (Some b)) <$> x :: l2)
      with ([band_time (Some x)] ++ ((λ b, band_time (Some b)) <$> l2)).
    destruct (band_time (Some x)) as [d|] eqn:Ht.
    + exists lg. erewrite bind_run;
        [|rewrite (bind_pure _ _ _ _ Hband), Ht; reflexivity].
      by rewrite Hrun.
    + exists ((DEBUG, "Band " +:+ pretty (Z.of_nat (length l1) + 1) +:+ " has no time")
              :: lg).
      erewrite bind_run;
        [|rewrite (bind_pure _ _ _ _ Hband), Ht; reflexivity].
      by rewrite Hrun.
Qed.

(** X24: get_time() does not raise and returns exactly one entry for
    every band of the working tree, in the order of the bands: the parsed
    time of the band, or None when the band has no time or it cannot be
    parsed.  get_time(bandID) returns the entry of the band that bandID
    resolves to - the index is always within the list - and raises what the
    resolver raises when the band is not found. *)
Theorem get_time_spec (w : World) (v : VRT) :
  heap w !! vrt (self w) = Some v →
  (∃ lg, get_time None w
         = (w, lg, inr (AllTimes ((λ b, band_time (Some b)) <$> vrtBands v)))) ∧
  (∀ bandID n, band_number_of v bandID = inr n →
     ∃ lg b, GetRasterBand v n = Some b ∧
             get_time (Some bandID) w
             = (w, lg, inr (TimeOf (Some (band_time (Some b)))))) ∧
  (∀ bandID e, band_number_of v bandID = inl e →
     ∃ lg, get_time (Some bandID) w = (w, lg, inl e)).
Proof.
  intros Hv.
  destruct (get_time_loop w v [] (vrtBands v) [] Hv eq_refl) as [lg Hloop].
  cbn [app length] in Hloop.
  set (times := (λ b : Band, band_time (Some b)) <$> vrtBands v) in *.
  assert (Hstart : ∀ bandID,
    get_time bandID w =
      match bandID with
      | Some bandID =>
          match band_number_of v bandID with
          | inl e => (w, lg, inl e)
          | inr n => (w, lg, inr (TimeOf (times !! Z.to_nat (n - 1))))
          end
      | None => (w, lg, inr (AllTimes times))
      end).
  { intros bandID. unfold get_time.
    rewrite (bind_pure get_self _ w (self w)) by done.
    rewrite (bind_pure _ _ _ _ (deref_live _ _ _ Hv)).
    erewrite bind_run; [|exact Hloop]. destruct bandID as [bandID|].
    - unfold mbind, M_bind. rewrite (get_band_number_run _ _ _ Hv).
      destruct (band_number_of v bandID); simpl; by rewrite ?app_nil_r.
    - simpl. by rewrite app_nil_r. }
  split_and!.
  - exists lg. apply (Hstart None).
  - intros bandID n Hn. rewrite (Hstart (Some bandID)), Hn.
    apply band_number_of_sound in Hn as (_ & b & Hb & _).
    exists lg, b. split; [done|].
    apply GetRasterBand_Some in Hb as [_ Hb].
    subst times. by rewrite list_lookup_fmap, Hb.
  - intros bandID e He. exists lg. by rewrite (Hstart (Some bandID)), He.
Qed.

End GetTime.

Lemma get_time_spec_witness :
  (∃ lg, @get_time sample_parser None sample_world_times
         = (sample_world_times, lg,
            inr (@AllTimes sample_parser
                   [Some "2012-01-27"; None; Some "2012-01-28"]))) ∧
  (∃ lg, @get_time sample_parser (Some (BStr "c")) sample_world_times
         = (sample_world_times, lg,
            inr (@TimeOf sample_parser (Some (Some "2012-01-28"))))).
Proof.
  destruct (@get_time_spec sample_parser sample_world_times _ eq_refl)
    as (Hall & Hone & _).
  split; [exact Hall|].
  destruct (Hone (BStr "c") 3 eq_refl) as (lg & b & Hb & Hrun).
  exists lg. vm_compute in Hb. simplify_eq. exact Hrun.
Defined.

Section AddBandFromTree.

Context `{Engine}.


End AddBandFromTree.


Section ResizeTwice.


End ResizeTwice.

